(** * ChatMaster: real-time session and relay layer

    A shallow embedding of the server side of the chat application:
    - [server/models/Message.js]  (documents, reactions, read receipts,
      edit / delete),
    - [server/models/Chat.js]     (participants, admins, mutes and pins),
    - [server/routes/messages.js] (message history and the routes that
      write),
    - [server/sockets/socketHandler.js] (presence table, typing tracker,
      call signaling relay and the per-event handlers).

    Mongoose documents are records; the methods that mutate [this] and
    then call [this.save()] are functions from the document to the
    mutated document.  A method that can [throw] returns the outcome
    together with the document as the throw leaves it. *)

From Stdlib Require Import ZArith.
From stdpp Require Import gmap strings list fin_maps sorting.

Open Scope string_scope.
Open Scope list_scope.

(** ** Identifiers and time *)

(** [ObjectId]s, socket ids and call ids are compared through their
    string form ([user._id.toString()], [id.equals(userId)]). *)
Definition ObjectId := string.
Definition SocketId := string.
Definition CallId := string.

(** [new Date()] / [Date.now()] as milliseconds. *)
Definition Date := Z.

(** The result of a call that may [throw]. *)
Inductive outcome (A : Type) : Type :=
| Ok (a : A)
| Throw (message : string).
Arguments Ok {A} a.
Arguments Throw {A} message.

(** [arr.find(p)] where the found element is then updated in place:
    only the first match is touched. *)
Fixpoint update_first {A} (p : A -> bool) (f : A -> A) (l : list A) : list A :=
  match l with
  | [] => []
  | x :: l' => if p x then f x :: l' else x :: update_first p f l'
  end.

(** ** models/Message.js *)

Module Reaction.
Record t := mk { user : ObjectId; emoji : string; createdAt : Date }.
End Reaction.

Module ReadReceipt.
Record t := mk { user : ObjectId; readAt : Date }.
End ReadReceipt.

Module Delivery.
Record t := mk { user : ObjectId; deliveredAt : Date }.
End Delivery.

Module Message.

(** [type: { enum: [...] }] *)
Inductive MessageType := text | image | video | audio | file | system.

#[global] Instance MessageType_eq_dec : EqDecision MessageType.
Proof. solve_decision. Defined.

(** A document of the collection; its [_id] is the key it is stored
    under. *)
Record t := mk {
  chat : ObjectId;
  sender : ObjectId;
  content : string;
  type : MessageType;
  replyTo : option ObjectId;
  reactions : list Reaction.t;
  readBy : list ReadReceipt.t;
  deliveredTo : list Delivery.t;
  edited : bool;
  editedAt : option Date;
  deleted : bool;
  deletedAt : option Date;
  deletedFor : list ObjectId;
  createdAt : Date
}.

Definition with_reactions (rs : list Reaction.t) (this : t) : t :=
  mk (chat this) (sender this) (content this) (type this)
     (replyTo this) rs (readBy this) (deliveredTo this) (edited this)
     (editedAt this) (deleted this) (deletedAt this) (deletedFor this)
     (createdAt this).

Definition with_readBy (rb : list ReadReceipt.t) (this : t) : t :=
  mk (chat this) (sender this) (content this) (type this)
     (replyTo this) (reactions this) rb (deliveredTo this) (edited this)
     (editedAt this) (deleted this) (deletedAt this) (deletedFor this)
     (createdAt this).

Definition with_deliveredTo (dl : list Delivery.t) (this : t) : t :=
  mk (chat this) (sender this) (content this) (type this)
     (replyTo this) (reactions this) (readBy this) dl (edited this)
     (editedAt this) (deleted this) (deletedAt this) (deletedFor this)
     (createdAt this).

Definition with_deletedFor (df : list ObjectId) (this : t) : t :=
  mk (chat this) (sender this) (content this) (type this)
     (replyTo this) (reactions this) (readBy this) (deliveredTo this)
     (edited this) (editedAt this) (deleted this) (deletedAt this) df
     (createdAt this).

(** The payload of [new Message(messageData)] as both the socket handler
    and the REST route build it; every other field takes its schema
    default.  The content is taken as it is given: the schema's [trim]
    setter and its [required] and [maxlength] validators stand between
    the payload and the store and are not part of [create]. *)
Record messageData := mkData {
  d_chat : ObjectId;
  d_sender : ObjectId;
  d_content : string;
  d_type : MessageType;
  d_replyTo : option ObjectId
}.

Definition create (now : Date) (d : messageData) : t :=
  mk (d_chat d) (d_sender d) (d_content d) (d_type d) (d_replyTo d)
     [] [] [] false None false None [] now.

(** The tombstone written by a delete for everyone. *)
Definition tombstone : string := "This message was deleted".

Definition readers (this : t) : list ObjectId :=
  ReadReceipt.user <$> readBy this.

(** [messageSchema.methods.markAsReadBy] *)
Definition markAsReadBy (userId : ObjectId) (now : Date) (this : t) : t :=
  if bool_decide (sender this = userId) then this
  else
    match List.find (fun read => bool_decide (ReadReceipt.user read = userId))
                    (readBy this) with
    | Some _ => this
    | None => with_readBy (readBy this ++ [ReadReceipt.mk userId now]) this
    end.

(** [messageSchema.methods.markAsDeliveredTo] *)
Definition markAsDeliveredTo (userId : ObjectId) (now : Date) (this : t) : t :=
  if bool_decide (sender this = userId) then this
  else
    match List.find (fun d => bool_decide (Delivery.user d = userId))
                    (deliveredTo this) with
    | Some _ => this
    | None =>
        with_deliveredTo (deliveredTo this ++ [Delivery.mk userId now]) this
    end.

(** [messageSchema.methods.addReaction] *)
Definition addReaction (userId : ObjectId) (emoji : string) (now : Date)
    (this : t) : t :=
  let mine := fun r => bool_decide (Reaction.user r = userId) in
  match List.find mine (reactions this) with
  | Some _ =>
      with_reactions
        (update_first mine
           (fun r => Reaction.mk (Reaction.user r) emoji now)
           (reactions this))
        this
  | None =>
      with_reactions (reactions this ++ [Reaction.mk userId emoji now]) this
  end.

(** [messageSchema.methods.removeReaction] *)
Definition removeReaction (userId : ObjectId) (this : t) : t :=
  with_reactions
    (List.filter (fun r => negb (bool_decide (Reaction.user r = userId)))
                 (reactions this))
    this.

(** [messageSchema.methods.editContent]; the new content is assigned
    as it is given (see [create]). *)
Definition editContent (newContent : string) (userId : ObjectId) (now : Date)
    (this : t) : outcome unit * t :=
  if negb (bool_decide (sender this = userId)) then
    (Throw "Only sender can edit message", this)
  else if deleted this then
    (Throw "Cannot edit deleted message", this)
  else if bool_decide (type this = system) then
    (Throw "Cannot edit system message", this)
  else
    (Ok tt,
     mk (chat this) (sender this) newContent (type this)
        (replyTo this) (reactions this) (readBy this) (deliveredTo this)
        true (Some now) (deleted this) (deletedAt this) (deletedFor this)
        (createdAt this)).

(** [messageSchema.methods.deleteMessage] *)
Definition deleteMessage (userId : ObjectId) (deleteForEveryone : bool)
    (now : Date) (this : t) : outcome unit * t :=
  if deleteForEveryone then
    if negb (bool_decide (sender this = userId)) then
      (Throw "Only sender can delete message for everyone", this)
    else
      (Ok tt,
       mk (chat this) (sender this) tombstone (type this)
          (replyTo this) (reactions this) (readBy this) (deliveredTo this)
          (edited this) (editedAt this) true (Some now) (deletedFor this)
          (createdAt this))
  else
    (Ok tt,
     if bool_decide (userId ∈ deletedFor this) then this
     else with_deletedFor (deletedFor this ++ [userId]) this).

(** [messageSchema.methods.isDeletedForUser] *)
Definition isDeletedForUser (userId : ObjectId) (this : t) : bool :=
  deleted this || existsb (fun id => bool_decide (id = userId)) (deletedFor this).

(** The filter shared by [getUnreadCount] and [markAllAsRead]:
    [{ chat, sender: {$ne}, 'readBy.user': {$ne}, deleted: false }]. *)
Definition unreadFor (chatId userId : ObjectId) (this : t) : bool :=
  bool_decide (chat this = chatId)
  && negb (bool_decide (sender this = userId))
  && negb (existsb (fun read => bool_decide (ReadReceipt.user read = userId))
                   (readBy this))
  && negb (deleted this).

(** What [updateMany] of [markAllAsRead] does to one document. *)
Definition markAllAsRead_doc (chatId userId : ObjectId) (now : Date)
    (this : t) : t :=
  if unreadFor chatId userId this
  then with_readBy (readBy this ++ [ReadReceipt.mk userId now]) this
  else this.

(** [messageSchema.statics.markAllAsRead] over the collection. *)
Definition markAllAsRead (chatId userId : ObjectId) (now : Date)
    (coll : gmap ObjectId t) : gmap ObjectId t :=
  markAllAsRead_doc chatId userId now <$> coll.

(** [messageSchema.statics.getUnreadCount] *)
Definition getUnreadCount (chatId userId : ObjectId)
    (coll : gmap ObjectId t) : nat :=
  size (filter (fun kv => unreadFor chatId userId kv.2 = true) coll).

(** Every mutation of a stored message in the repository goes through
    one of the methods above; [op] names one such call. *)
Inductive op :=
| MarkAsReadBy (userId : ObjectId) (now : Date)
| MarkAsDeliveredTo (userId : ObjectId) (now : Date)
| AddReaction (userId : ObjectId) (emoji : string) (now : Date)
| RemoveReaction (userId : ObjectId)
| EditContent (newContent : string) (userId : ObjectId) (now : Date)
| DeleteMessage (userId : ObjectId) (deleteForEveryone : bool) (now : Date)
| MarkAllAsRead (chatId userId : ObjectId) (now : Date).

Definition apply (this : t) (o : op) : t :=
  match o with
  | MarkAsReadBy u now => markAsReadBy u now this
  | MarkAsDeliveredTo u now => markAsDeliveredTo u now this
  | AddReaction u e now => addReaction u e now this
  | RemoveReaction u => removeReaction u this
  | EditContent c u now => (editContent c u now this).2
  | DeleteMessage u b now => (deleteMessage u b now this).2
  | MarkAllAsRead c u now => markAllAsRead_doc c u now this
  end.

Definition run (ops : list op) (this : t) : t := foldl apply this ops.

(** A document made by [new Message(messageData)] and then mutated,
    as one object, by calls of the methods. *)
Definition reachable (this : t) : Prop :=
  ∃ now d ops, this = run ops (create now d).

(** *** Vocabulary of the statements about single messages *)

Definition reactors (this : t) : list ObjectId :=
  Reaction.user <$> reactions this.

Definition mine (userId : ObjectId) (r : Reaction.t) : bool :=
  bool_decide (Reaction.user r = userId).

Definition read_by (userId : ObjectId) (read : ReadReceipt.t) : bool :=
  bool_decide (ReadReceipt.user read = userId).

Definition sender_unread (this : t) : Prop := sender this ∉ readers this.

(** The sender has neither a read receipt nor a delivery receipt. *)
Definition no_own_receipt (this : t) : Prop :=
  (sender this ∉ readers this)
  ∧ (sender this ∉ Delivery.user <$> deliveredTo this).

Definition tombstoned (this : t) : Prop :=
  deleted this = true ∧ content this = tombstone.

End Message.

(** ** models/Chat.js *)

Module Chat.

Inductive ChatType := private | group.

#[global] Instance ChatType_eq_dec : EqDecision ChatType.
Proof. solve_decision. Defined.

Record settings_t := mkSettings {
  allowInvites : bool;
  onlyAdminsCanMessage : bool;
  onlyAdminsCanEditInfo : bool
}.

Record t := mk {
  name : option string;
  type : ChatType;
  participants : list ObjectId;
  admins : list ObjectId;
  creator : option ObjectId;
  lastMessage : option ObjectId;
  lastActivity : Date;
  settings : settings_t
}.

(** [chatSchema.methods.isAdmin] *)
Definition isAdmin (userId : ObjectId) (this : t) : bool :=
  existsb (fun id => bool_decide (id = userId)) (admins this).

(** [chatSchema.methods.isParticipant] *)
Definition isParticipant (userId : ObjectId) (this : t) : bool :=
  existsb (fun id => bool_decide (id = userId)) (participants this).

(** [chat.lastMessage = ...; chat.lastActivity = new Date()] *)
Definition touch (messageId : ObjectId) (now : Date) (this : t) : t :=
  mk (name this) (type this) (participants this) (admins this)
     (creator this) (Some messageId) now (settings this).

(** The [pre('save')] validation hook: the first [next(err)] rejects
    the save. *)
Definition preSave (this : t) : outcome unit * t :=
  match type this with
  | private =>
      if negb (length (participants this) =? 2)%nat then
        (Throw "Private chats must have exactly 2 participants", this)
      else
        (Ok tt,
         mk None private (participants this) [] (creator this)
            (lastMessage this) (lastActivity this) (settings this))
  | group =>
      let admins' :=
        match creator this with
        | Some c =>
            if bool_decide (c ∈ admins this) then admins this
            else admins this ++ [c]
        | None => admins this
        end in
      let this' :=
        mk (name this) group (participants this) admins'
           (creator this) (lastMessage this) (lastActivity this)
           (settings this) in
      if (length (participants this) <? 2)%nat then
        (Throw "Group chats must have at least 2 participants", this')
      else
        match name this with
        | None | Some "" => (Throw "Group chats must have a name", this')
        | Some _ => (Ok tt, this')
        end
  end.

End Chat.

(** ** models/User.js (the fields the relay reads and writes) *)

Module User.

Record t := mk {
  username : string;
  avatar : string;
  friendId : string;
  isOnline : bool;
  lastSeen : Date;
  socketId : SocketId;
  contacts : list ObjectId
}.

(** [User.findByIdAndUpdate(id, { isOnline, socketId, lastSeen })] *)
Definition setPresence (online : bool) (sid : SocketId) (now : Date)
    (this : t) : t :=
  mk (username this) (avatar this) (friendId this)
     online now sid (contacts this).

End User.

(** ** The relay process: sockets, rooms, in-memory tables, store *)

(** A socket as the connection handler's closure sees it, after the
    authentication middleware has set [socket.userId] and [socket.user]. *)
Module Socket.
Record t := mk {
  id : SocketId;
  userId : ObjectId;
  username : string;
  avatar : string;
  friendId : string
}.

#[global] Instance eq_dec : EqDecision t.
Proof. solve_decision. Defined.
End Socket.

(** [activeUsers]: userId -> { socketId, user } *)
Record ActiveUser := mkActiveUser {
  au_socketId : SocketId;
  au_user : ObjectId
}.

(** [activeCalls]: callId -> { chatId, callType, initiator, participants,
    startTime } *)
Module Call.
Record t := mk {
  chatId : ObjectId;
  callType : string;
  initiator : ObjectId;
  participants : list ObjectId;
  startTime : Date
}.

Definition join (userId : ObjectId) (this : t) : t :=
  mk (chatId this) (callType this) (initiator this)
     (participants this ++ [userId]) (startTime this).
End Call.

(** Room names: [`user_${id}`] and [`chat_${id}`]. *)
Definition user_room (userId : ObjectId) : string :=
  String.append "user_" userId.
Definition chat_room (chatId : ObjectId) : string :=
  String.append "chat_" chatId.

(** Who an emit addresses: [socket.emit], [io.to(room).emit] and
    [socket.to(room).emit] (the room without the emitting socket). *)
Inductive target :=
| ToSocket (sid : SocketId)
| ToRoom (room : string)
| ToRoomExcept (room : string) (sid : SocketId).

Record Caller := mkCaller {
  caller_id : ObjectId;
  caller_username : string;
  caller_avatar : string
}.

(** Server-to-client events with their payloads. *)
Module Emit.
Inductive packet :=
| online_users (userIds : gset ObjectId)
| user_status_change (userId : ObjectId) (username : string)
    (isOnline : bool) (lastSeen : Date)
| error (message : string)
| joined_chat (chatId : ObjectId)
| left_chat (chatId : ObjectId)
| new_message (messageId : ObjectId) (message : Message.t)
| message_sent (tempId : option string) (messageId : ObjectId)
    (message : Message.t)
| message_error (tempId : option string) (error : string)
| message_edited (messageId : ObjectId) (content : string)
    (editedAt : option Date)
| message_deleted (messageId : ObjectId) (deletedBy : ObjectId)
| message_deleted_for_me (messageId : ObjectId)
| reaction_added (messageId userId : ObjectId) (emoji : string)
    (reactions : list Reaction.t)
| reaction_removed (messageId userId : ObjectId)
    (reactions : list Reaction.t)
| typing_start (userId : ObjectId) (username : string) (chatId : ObjectId)
| typing_stop (userId : ObjectId) (chatId : ObjectId)
| messages_read (userId chatId : ObjectId)
    (messageIds : option (list ObjectId))
| call_incoming (callId : CallId) (callType : string) (chatId : ObjectId)
    (caller : Caller)
| webrtc_offer (offer : string) (callId : CallId) (from : ObjectId)
| webrtc_answer (answer : string) (callId : CallId) (from : ObjectId)
| webrtc_ice_candidate (candidate : string) (callId : CallId)
    (from : ObjectId)
| call_response (callId : CallId) (accepted : bool) (from : ObjectId)
    (user : Caller)
| call_ended (callId : CallId) (endedBy : ObjectId)
| call_participant_left (callId : CallId) (userId : ObjectId)
| group_updated (chatId : ObjectId) (action : string) (userId : ObjectId)
| new_friend_request (from : Socket.t)
| friend_request_accepted (by_ : Socket.t).
End Emit.

(** One emit, with the sockets that were in the addressed room when it
    was made. *)
Record emission := mkEmission {
  e_target : target;
  e_receivers : gset SocketId;
  e_packet : Emit.packet
}.

(** The state of the relay process together with the Conversation Store
    behind it.  [rooms] is socket.io's adapter (which socket is in which
    room), [sockets] is [io.sockets.sockets], [outbox] collects every
    emit in order, and [faults] is the schedule of the store: one flag
    per store call still to come, [true] when that call rejects (a
    schema validator, an id that cannot be cast to an ObjectId, or the
    database failing); an exhausted schedule means the store answers. *)
Record world := mkWorld {
  users : gmap ObjectId User.t;
  chats : gmap ObjectId Chat.t;
  messages : gmap ObjectId Message.t;
  activeUsers : gmap ObjectId ActiveUser;
  typingUsers : gmap ObjectId (gset ObjectId);
  activeCalls : gmap CallId Call.t;
  sockets : gmap SocketId Socket.t;
  rooms : gset (string * SocketId);
  outbox : list emission;
  faults : list bool
}.

Definition set_users v (w : world) : world :=
  mkWorld v (chats w) (messages w) (activeUsers w) (typingUsers w)
          (activeCalls w) (sockets w) (rooms w) (outbox w) (faults w).
Definition set_chats v (w : world) : world :=
  mkWorld (users w) v (messages w) (activeUsers w) (typingUsers w)
          (activeCalls w) (sockets w) (rooms w) (outbox w) (faults w).
Definition set_messages v (w : world) : world :=
  mkWorld (users w) (chats w) v (activeUsers w) (typingUsers w)
          (activeCalls w) (sockets w) (rooms w) (outbox w) (faults w).
Definition set_activeUsers v (w : world) : world :=
  mkWorld (users w) (chats w) (messages w) v (typingUsers w)
          (activeCalls w) (sockets w) (rooms w) (outbox w) (faults w).
Definition set_typingUsers v (w : world) : world :=
  mkWorld (users w) (chats w) (messages w) (activeUsers w) v
          (activeCalls w) (sockets w) (rooms w) (outbox w) (faults w).
Definition set_activeCalls v (w : world) : world :=
  mkWorld (users w) (chats w) (messages w) (activeUsers w) (typingUsers w)
          v (sockets w) (rooms w) (outbox w) (faults w).
Definition set_sockets v (w : world) : world :=
  mkWorld (users w) (chats w) (messages w) (activeUsers w) (typingUsers w)
          (activeCalls w) v (rooms w) (outbox w) (faults w).
Definition set_rooms v (w : world) : world :=
  mkWorld (users w) (chats w) (messages w) (activeUsers w) (typingUsers w)
          (activeCalls w) (sockets w) v (outbox w) (faults w).
Definition set_outbox v (w : world) : world :=
  mkWorld (users w) (chats w) (messages w) (activeUsers w) (typingUsers w)
          (activeCalls w) (sockets w) (rooms w) v (faults w).
Definition set_faults v (w : world) : world :=
  mkWorld (users w) (chats w) (messages w) (activeUsers w) (typingUsers w)
          (activeCalls w) (sockets w) (rooms w) (outbox w) v.

(** A process that has just started, over a given store. *)
Definition boot (us : gmap ObjectId User.t) (cs : gmap ObjectId Chat.t)
    (ms : gmap ObjectId Message.t) (fs : list bool) : world :=
  mkWorld us cs ms ∅ ∅ ∅ ∅ ∅ [] fs.

(** ** Handlers: state passing with exceptions

    A handler body runs on the world and either returns or throws; what
    it changed before a throw stays changed, as in the source. *)
Definition handler (A : Type) : Type := world -> outcome A * world.

Definition ret {A} (a : A) : handler A := fun w => (Ok a, w).

Definition throw {A} (message : string) : handler A :=
  fun w => (Throw message, w).

Definition bind {A B} (m : handler A) (k : A -> handler B) : handler B :=
  fun w =>
    match m w with
    | (Ok a, w') => k a w'
    | (Throw e, w') => (Throw e, w')
    end.

(** [try { body } catch (error) { recover }] *)
Definition try_catch {A} (body : handler A) (recover : string -> handler A)
    : handler A :=
  fun w =>
    match body w with
    | (Ok a, w') => (Ok a, w')
    | (Throw e, w') => recover e w'
    end.

Definition gets {A} (f : world -> A) : handler A := fun w => (Ok (f w), w).

Definition modify (f : world -> world) : handler unit :=
  fun w => (Ok tt, f w).

Declare Scope handler_scope.
Delimit Scope handler_scope with handler.
Notation "x <- m ;; k" := (bind m (fun x => k))
  (at level 20, m at level 99, k at level 200) : handler_scope.
Notation "m ;; k" := (bind m (fun _ => k))
  (at level 100, k at level 200, right associativity) : handler_scope.
Open Scope handler_scope.

(** [for (const x of xs) { await f(x) }]: stops at the first throw. *)
Fixpoint forM_ {A} (xs : list A) (f : A -> handler unit) : handler unit :=
  match xs with
  | [] => ret tt
  | x :: xs' => f x ;; forM_ xs' f
  end.

(** [await Promise.all(xs.map(async x => ...))]: every callback runs to
    its end whether or not another one rejects, and the whole rejects
    with the first rejection.  The callbacks are run one after the
    other, which is what their interleaving amounts to when each works
    on a document of its own, that is, when no id is named twice. *)
Fixpoint promise_all {A} (xs : list A) (f : A -> handler unit) : handler unit :=
  match xs with
  | [] => ret tt
  | x :: xs' =>
      fun w =>
        match f x w with
        | (Ok _, w') => promise_all xs' f w'
        | (Throw e, w') => (Throw e, (promise_all xs' f w').2)
        end
  end.

(** An awaited call into the store: rejects when the schedule says so. *)
Definition await {A} (query : world -> A * world) : handler A :=
  fun w =>
    match faults w with
    | true :: fs => (Throw "store error", set_faults fs w)
    | false :: fs => let '(a, w') := query (set_faults fs w) in (Ok a, w')
    | [] => let '(a, w') := query w in (Ok a, w')
    end.

(** *** socket.io *)

Definition members (room : string) (w : world) : gset SocketId :=
  set_map snd (filter (fun p => p.1 = room) (rooms w)).

Definition receivers (t : target) (w : world) : gset SocketId :=
  match t with
  | ToSocket sid => {[sid]}
  | ToRoom room => members room w
  | ToRoomExcept room sid => members room w ∖ {[sid]}
  end.

Definition emit (t : target) (p : Emit.packet) : handler unit :=
  modify (fun w =>
    set_outbox (outbox w ++ [mkEmission t (receivers t w) p]) w).

(** [socket.join(room)] / [socket.leave(room)] *)
Definition join (sid : SocketId) (room : string) : handler unit :=
  modify (fun w => set_rooms ({[(room, sid)]} ∪ rooms w) w).

Definition leave (sid : SocketId) (room : string) : handler unit :=
  modify (fun w => set_rooms (rooms w ∖ {[(room, sid)]}) w).

(** What [h] emitted when run on [w]. *)
Definition emitted {A} (h : handler A) (w : world) : list emission :=
  drop (length (outbox w)) (outbox (h w).2).

(** *** The store's operations as the handlers call them *)

Module Store.

(** [findById] answers with the document or with [null]; it rejects,
    as every awaited call can, when the schedule says so. *)
Definition Chat_findById (chatId : ObjectId) : handler (option Chat.t) :=
  await (fun w => (chats w !! chatId, w)).

(** [Chat.find({ participants: userId }).select('_id')] *)
Definition Chat_find_participant (userId : ObjectId)
    : handler (list ObjectId) :=
  await (fun w =>
    ((map_to_list (filter (fun kv => Chat.isParticipant userId kv.2 = true)
                          (chats w))).*1, w)).

(** [chat.save()]: the validation hook, then the write.  (The second
    hook sets [lastActivity] when [lastMessage] changed, which the one
    caller has just done itself.) *)
Definition Chat_save (chatId : ObjectId) (c : Chat.t) : handler Chat.t :=
  match Chat.preSave c with
  | (Throw e, _) => throw e
  | (Ok _, c') =>
      await (fun w => (c', set_chats (<[chatId := c']> (chats w)) w))
  end.

Definition Message_findById (messageId : ObjectId)
    : handler (option Message.t) :=
  await (fun w => (messages w !! messageId, w)).

(** [message.save()] *)
Definition Message_save (messageId : ObjectId) (m : Message.t)
    : handler unit :=
  await (fun w => (tt, set_messages (<[messageId := m]> (messages w)) w)).

(** [message.populate(...)]: a read that changes nothing here. *)
Definition Message_populate : handler unit :=
  await (fun w => (tt, w)).

Definition Message_markAllAsRead (chatId userId : ObjectId) (now : Date)
    : handler unit :=
  await (fun w =>
    (tt, set_messages (Message.markAllAsRead chatId userId now (messages w)) w)).

Definition User_findByIdAndUpdate (userId : ObjectId)
    (update : User.t -> User.t) : handler unit :=
  await (fun w => (tt, set_users (alter update userId (users w)) w)).

(** [User.findById(id).populate('contacts')]: the ids of the contacts
    whose documents exist, when the user does. *)
Definition User_findById_contacts (userId : ObjectId)
    : handler (option (list ObjectId)) :=
  await (fun w =>
    ((fun u => List.filter (fun c => bool_decide (is_Some (users w !! c)))
                           (User.contacts u))
       <$> users w !! userId, w)).

End Store.

(** ** sockets/socketHandler.js *)

Module SocketHandler.
Import Store.

(** The methods that end in [return this.save()], as awaited by the
    handlers. *)
Definition Message_markAsReadBy (userId : ObjectId) (now : Date)
    (messageId : ObjectId) (m : Message.t) : handler unit :=
  if bool_decide (Message.sender m = userId) then ret tt
  else Message_save messageId (Message.markAsReadBy userId now m).

Definition Message_markAsDeliveredTo (userId : ObjectId) (now : Date)
    (messageId : ObjectId) (m : Message.t) : handler Message.t :=
  if bool_decide (Message.sender m = userId) then ret m
  else
    let m' := Message.markAsDeliveredTo userId now m in
    Message_save messageId m' ;; ret m'.

Definition Message_editContent (content : string) (userId : ObjectId)
    (now : Date) (messageId : ObjectId) (m : Message.t)
    : handler Message.t :=
  match Message.editContent content userId now m with
  | (Throw e, _) => throw e
  | (Ok _, m') => Message_save messageId m' ;; ret m'
  end.

Definition Message_deleteMessage (userId : ObjectId)
    (deleteForEveryone : bool) (now : Date) (messageId : ObjectId)
    (m : Message.t) : handler Message.t :=
  match Message.deleteMessage userId deleteForEveryone now m with
  | (Throw e, _) => throw e
  | (Ok _, m') => Message_save messageId m' ;; ret m'
  end.

(** Payload of [send_message]; [type] defaults to ['text'], and
    [file] / [metadata] are carried into the document untouched. *)
Record send_message_data := mkSendMessage {
  sm_chatId : ObjectId;
  sm_content : string;
  sm_type : option Message.MessageType;
  sm_replyTo : option ObjectId;
  sm_tempId : option string
}.

(** [if (replyTo)]: an empty string is falsy. *)
Definition truthy (o : option string) : option string :=
  match o with
  | Some "" => None
  | _ => o
  end.

Section Connection.

(** The closure of [io.on('connection', async (socket) => ...)], and
    the clock read by [new Date()] while one event is handled. *)
Variable socket : Socket.t.
Variable now : Date.

Let sid : SocketId := Socket.id socket.
Let uid : ObjectId := Socket.userId socket.

Definition status_change (isOnline : bool) (contacts : list ObjectId)
    : handler unit :=
  forM_ contacts (fun contact =>
    emit (ToRoom (user_room contact))
         (Emit.user_status_change uid (Socket.username socket) isOnline now)).

(** The body of the connection callback up to the registration of
    the event listeners. *)
Definition on_connection : handler unit :=
  try_catch
    (User_findByIdAndUpdate uid (User.setPresence true sid now) ;;
     modify (fun w =>
       set_activeUsers (<[uid := mkActiveUser sid uid]> (activeUsers w)) w) ;;
     join sid (user_room uid) ;;
     userChats <- Chat_find_participant uid ;;
     forM_ userChats (fun chatId => join sid (chat_room chatId)) ;;
     user <- User_findById_contacts uid ;;
     match user with
     | None => throw "TypeError: Cannot read properties of null"
     | Some contacts => status_change true contacts
     end ;;
     onlineUsers <- gets (fun w => dom (activeUsers w)) ;;
     emit (ToSocket sid) (Emit.online_users onlineUsers))
    (fun _ => ret tt).

Definition on_join_chat (chatId : ObjectId) : handler unit :=
  try_catch
    (chat <- Chat_findById chatId ;;
     match chat with
     | None => emit (ToSocket sid) (Emit.error "Chat not found")
     | Some c =>
         if negb (Chat.isParticipant uid c) then
           emit (ToSocket sid) (Emit.error "Access denied")
         else
           join sid (chat_room chatId) ;;
           emit (ToSocket sid) (Emit.joined_chat chatId)
     end)
    (fun _ => emit (ToSocket sid) (Emit.error "Failed to join chat")).

Definition on_leave_chat (chatId : ObjectId) : handler unit :=
  leave sid (chat_room chatId) ;;
  emit (ToSocket sid) (Emit.left_chat chatId).

(** [for (const participantId of onlineParticipants)
       await message.markAsDeliveredTo(participantId)] *)
Fixpoint deliver_to (participants : list ObjectId) (messageId : ObjectId)
    (m : Message.t) : handler Message.t :=
  match participants with
  | [] => ret m
  | participantId :: rest =>
      m' <- Message_markAsDeliveredTo participantId now messageId m ;;
      deliver_to rest messageId m'
  end.

(** The [try] block of [send_message]; [fresh] is the id the store
    gives the new message. *)
Definition send_message_try (fresh : ObjectId) (data : send_message_data)
    : handler unit :=
  let chatId := sm_chatId data in
  chat <- Chat_findById chatId ;;
  match chat with
  | None => emit (ToSocket sid) (Emit.error "Chat not found")
  | Some chat =>
      if negb (Chat.isParticipant uid chat) then
        emit (ToSocket sid) (Emit.error "Access denied")
      else if bool_decide (Chat.type chat = Chat.group)
              && Chat.onlyAdminsCanMessage (Chat.settings chat)
              && negb (Chat.isAdmin uid chat) then
        emit (ToSocket sid) (Emit.error "Only admins can send messages")
      else
        let message :=
          Message.create now
            (Message.mkData chatId uid (sm_content data)
               (default Message.text (sm_type data))
               (truthy (sm_replyTo data))) in
        Message_save fresh message ;;
        chat' <- Chat_save chatId (Chat.touch fresh now chat) ;;
        Message_populate ;;
        match truthy (sm_replyTo data) with
        | Some _ => Message_populate
        | None => ret tt
        end ;;
        chatTyping <- gets (fun w => typingUsers w !! chatId) ;;
        match chatTyping with
        | Some users =>
            modify (fun w =>
              set_typingUsers (<[chatId := users ∖ {[uid]}]> (typingUsers w)) w) ;;
            emit (ToRoom (chat_room chatId)) (Emit.typing_stop uid chatId)
        | None => ret tt
        end ;;
        active <- gets activeUsers ;;
        let onlineParticipants :=
          List.filter (fun p =>
              bool_decide (is_Some (active !! p))
              && negb (bool_decide (p = uid)))
            (Chat.participants chat') in
        message' <- deliver_to onlineParticipants fresh message ;;
        emit (ToRoom (chat_room chatId)) (Emit.new_message fresh message') ;;
        emit (ToSocket sid)
             (Emit.message_sent (sm_tempId data) fresh message')
  end.

Definition on_send_message (fresh : ObjectId) (data : send_message_data)
    : handler unit :=
  try_catch (send_message_try fresh data)
    (fun _ =>
       emit (ToSocket sid)
            (Emit.message_error (sm_tempId data) "Failed to send message")).

Definition on_edit_message (messageId : ObjectId) (content : string)
    : handler unit :=
  try_catch
    (message <- Message_findById messageId ;;
     match message with
     | None => emit (ToSocket sid) (Emit.error "Message not found")
     | Some m =>
         m' <- Message_editContent content uid now messageId m ;;
         emit (ToRoom (chat_room (Message.chat m')))
              (Emit.message_edited messageId content (Message.editedAt m'))
     end)
    (fun e => emit (ToSocket sid) (Emit.error e)).

Definition on_delete_message (messageId : ObjectId)
    (deleteForEveryone : option bool) : handler unit :=
  let deleteForEveryone := default false deleteForEveryone in
  try_catch
    (message <- Message_findById messageId ;;
     match message with
     | None => emit (ToSocket sid) (Emit.error "Message not found")
     | Some m =>
         m' <- Message_deleteMessage uid deleteForEveryone now messageId m ;;
         if deleteForEveryone then
           emit (ToRoom (chat_room (Message.chat m')))
                (Emit.message_deleted messageId uid)
         else
           emit (ToSocket sid) (Emit.message_deleted_for_me messageId)
     end)
    (fun e => emit (ToSocket sid) (Emit.error e)).

Definition on_add_reaction (messageId : ObjectId) (emoji : string)
    : handler unit :=
  try_catch
    (message <- Message_findById messageId ;;
     match message with
     | None => emit (ToSocket sid) (Emit.error "Message not found")
     | Some m =>
         chat <- Chat_findById (Message.chat m) ;;
         match chat with
         | None => throw "TypeError: Cannot read properties of null"
         | Some c =>
             if negb (Chat.isParticipant uid c) then
               emit (ToSocket sid) (Emit.error "Access denied")
             else
               let m' := Message.addReaction uid emoji now m in
               Message_save messageId m' ;;
               emit (ToRoom (chat_room (Message.chat m')))
                    (Emit.reaction_added messageId uid emoji
                       (Message.reactions m'))
         end
     end)
    (fun _ => emit (ToSocket sid) (Emit.error "Failed to add reaction")).

Definition on_remove_reaction (messageId : ObjectId) : handler unit :=
  try_catch
    (message <- Message_findById messageId ;;
     match message with
     | None => emit (ToSocket sid) (Emit.error "Message not found")
     | Some m =>
         let m' := Message.removeReaction uid m in
         Message_save messageId m' ;;
         emit (ToRoom (chat_room (Message.chat m')))
              (Emit.reaction_removed messageId uid (Message.reactions m'))
     end)
    (fun _ => emit (ToSocket sid) (Emit.error "Failed to remove reaction")).

Definition on_typing_start (chatId : ObjectId) : handler unit :=
  has <- gets (fun w => bool_decide (is_Some (typingUsers w !! chatId))) ;;
  (if negb has then
     modify (fun w => set_typingUsers (<[chatId := ∅]> (typingUsers w)) w)
   else ret tt) ;;
  modify (fun w =>
    set_typingUsers
      (<[chatId := {[uid]} ∪ default ∅ (typingUsers w !! chatId)]>
         (typingUsers w)) w) ;;
  emit (ToRoomExcept (chat_room chatId) sid)
       (Emit.typing_start uid (Socket.username socket) chatId).

Definition on_typing_stop (chatId : ObjectId) : handler unit :=
  chatTyping <- gets (fun w => typingUsers w !! chatId) ;;
  match chatTyping with
  | Some users =>
      modify (fun w =>
        set_typingUsers (<[chatId := users ∖ {[uid]}]> (typingUsers w)) w) ;;
      emit (ToRoomExcept (chat_room chatId) sid)
           (Emit.typing_stop uid chatId)
  | None => ret tt
  end.

(** One callback of the [Promise.all] in [mark_as_read]. *)
Definition mark_one (msgId : ObjectId) : handler unit :=
  message <- Message_findById msgId ;;
  match message with
  | Some m =>
      if negb (bool_decide (Message.sender m = uid))
      then Message_markAsReadBy uid now msgId m
      else ret tt
  | None => ret tt
  end.

Definition on_mark_as_read (chatId : ObjectId)
    (messageIds : option (list ObjectId)) : handler unit :=
  try_catch
    (chat <- Chat_findById chatId ;;
     match chat with
     | None => ret tt
     | Some c =>
         if negb (Chat.isParticipant uid c) then ret tt
         else
           match messageIds with
           | Some ((_ :: _) as ids) => promise_all ids mark_one
           | _ => Message_markAllAsRead chatId uid now
           end ;;
           emit (ToRoomExcept (chat_room chatId) sid)
                (Emit.messages_read uid chatId messageIds)
     end)
    (fun _ => ret tt).

Definition on_call_initiate (chatId : ObjectId) (callType : string)
    (callId : CallId) : handler unit :=
  try_catch
    (chat <- Chat_findById chatId ;;
     match chat with
     | Some c =>
         if negb (Chat.isParticipant uid c) then
           emit (ToSocket sid) (Emit.error "Access denied")
         else
           modify (fun w =>
             set_activeCalls
               (<[callId := Call.mk chatId callType uid [uid] now]>
                  (activeCalls w)) w) ;;
           emit (ToRoomExcept (chat_room chatId) sid)
                (Emit.call_incoming callId callType chatId
                   (mkCaller uid (Socket.username socket)
                             (Socket.avatar socket)))
     | None => emit (ToSocket sid) (Emit.error "Access denied")
     end)
    (fun _ => emit (ToSocket sid) (Emit.error "Failed to initiate call")).

Definition on_webrtc_offer (targetUserId : ObjectId) (offer : string)
    (callId : CallId) : handler unit :=
  emit (ToRoom (user_room targetUserId)) (Emit.webrtc_offer offer callId uid).

Definition on_webrtc_answer (targetUserId : ObjectId) (answer : string)
    (callId : CallId) : handler unit :=
  emit (ToRoom (user_room targetUserId))
       (Emit.webrtc_answer answer callId uid).

Definition on_webrtc_ice_candidate (targetUserId : ObjectId)
    (candidate : string) (callId : CallId) : handler unit :=
  emit (ToRoom (user_room targetUserId))
       (Emit.webrtc_ice_candidate candidate callId uid).

Definition on_call_response (callId : CallId) (accepted : bool)
    (targetUserId : ObjectId) : handler unit :=
  (if accepted then
     call <- gets (fun w => activeCalls w !! callId) ;;
     match call with
     | Some c =>
         modify (fun w =>
           set_activeCalls (<[callId := Call.join uid c]> (activeCalls w)) w)
     | None => ret tt
     end
   else ret tt) ;;
  emit (ToRoom (user_room targetUserId))
       (Emit.call_response callId accepted uid
          (mkCaller uid (Socket.username socket) (Socket.avatar socket))).

Definition on_call_end (callId : CallId) (chatId : ObjectId)
    : handler unit :=
  call <- gets (fun w => activeCalls w !! callId) ;;
  match call with
  | Some _ =>
      modify (fun w => set_activeCalls (delete callId (activeCalls w)) w)
  | None => ret tt
  end ;;
  emit (ToRoomExcept (chat_room chatId) sid) (Emit.call_ended callId uid).

(** [io.sockets.sockets.get(userSocket.socketId)?.join(room)] *)
Definition on_user_added_to_group (chatId userId : ObjectId)
    : handler unit :=
  userSocket <- gets (fun w => activeUsers w !! userId) ;;
  match userSocket with
  | Some a =>
      live <- gets (fun w => sockets w !! au_socketId a) ;;
      match live with
      | Some _ => join (au_socketId a) (chat_room chatId)
      | None => ret tt
      end
  | None => ret tt
  end ;;
  emit (ToRoom (chat_room chatId))
       (Emit.group_updated chatId "user_added" userId).

Definition on_user_removed_from_group (chatId userId : ObjectId)
    : handler unit :=
  userSocket <- gets (fun w => activeUsers w !! userId) ;;
  match userSocket with
  | Some a =>
      live <- gets (fun w => sockets w !! au_socketId a) ;;
      match live with
      | Some _ => leave (au_socketId a) (chat_room chatId)
      | None => ret tt
      end
  | None => ret tt
  end ;;
  emit (ToRoom (chat_room chatId))
       (Emit.group_updated chatId "user_removed" userId).

(** The two loops visit the typing sets and the call sessions in
    the order of their ids, where the [Map]s of the source iterate in
    insertion order; the order shows in the sequence of the notices
    only. *)
Definition on_disconnect : handler unit :=
  try_catch
    (User_findByIdAndUpdate uid (User.setPresence false "" now) ;;
     modify (fun w => set_activeUsers (delete uid (activeUsers w)) w) ;;
     typing <- gets typingUsers ;;
     forM_ (map_to_list typing) (fun '(chatId, users) =>
       if bool_decide (uid ∈ users) then
         modify (fun w =>
           set_typingUsers (<[chatId := users ∖ {[uid]}]> (typingUsers w)) w) ;;
         emit (ToRoom (chat_room chatId)) (Emit.typing_stop uid chatId)
       else ret tt) ;;
     calls <- gets activeCalls ;;
     forM_ (map_to_list calls) (fun '(callId, call) =>
       if bool_decide (uid ∈ Call.participants call) then
         emit (ToRoom (chat_room (Call.chatId call)))
              (Emit.call_participant_left callId uid)
       else ret tt) ;;
     user <- User_findById_contacts uid ;;
     match user with
     | Some contacts => status_change false contacts
     | None => ret tt
     end)
    (fun _ => ret tt).

Definition on_send_friend_request (targetUserId : ObjectId)
    : handler unit :=
  emit (ToRoom (user_room targetUserId)) (Emit.new_friend_request socket).

Definition on_accept_friend_request (fromUserId : ObjectId)
    : handler unit :=
  emit (ToRoom (user_room fromUserId)) (Emit.friend_request_accepted socket).

(** [socket.on('error', ...)] *)
Definition on_error : handler unit :=
  emit (ToSocket sid) (Emit.error "Socket error occurred").

End Connection.

(** The [setInterval] callback: users without an [activeUsers] entry
    leave every typing set. *)
Definition typing_cleanup : handler unit :=
  modify (fun w =>
    set_typingUsers
      (filter (fun userId => is_Some (activeUsers w !! userId))
         <$> typingUsers w) w).

(** *** Events

    What reaches the relay: transport events raised by socket.io,
    client events on a live socket, and the cleanup timer. *)
Inductive client_event :=
| join_chat (chatId : ObjectId)
| leave_chat (chatId : ObjectId)
| send_message (fresh : ObjectId) (data : send_message_data)
| edit_message (messageId : ObjectId) (content : string)
| delete_message (messageId : ObjectId) (deleteForEveryone : option bool)
| add_reaction (messageId : ObjectId) (emoji : string)
| remove_reaction (messageId : ObjectId)
| typing_start (chatId : ObjectId)
| typing_stop (chatId : ObjectId)
| mark_as_read (chatId : ObjectId) (messageIds : option (list ObjectId))
| call_initiate (chatId : ObjectId) (callType : string) (callId : CallId)
| webrtc_offer (targetUserId : ObjectId) (offer : string) (callId : CallId)
| webrtc_answer (targetUserId : ObjectId) (answer : string) (callId : CallId)
| webrtc_ice_candidate (targetUserId : ObjectId) (candidate : string)
    (callId : CallId)
| call_response (callId : CallId) (accepted : bool) (targetUserId : ObjectId)
| call_end (callId : CallId) (chatId : ObjectId)
| user_added_to_group (chatId userId : ObjectId)
| user_removed_from_group (chatId userId : ObjectId)
| send_friend_request (targetUserId : ObjectId)
| accept_friend_request (fromUserId : ObjectId)
| error.

Definition dispatch (socket : Socket.t) (now : Date) (e : client_event)
    : handler unit :=
  match e with
  | join_chat c => on_join_chat socket c
  | leave_chat c => on_leave_chat socket c
  | send_message fresh d => on_send_message socket now fresh d
  | edit_message m c => on_edit_message socket now m c
  | delete_message m b => on_delete_message socket now m b
  | add_reaction m e => on_add_reaction socket now m e
  | remove_reaction m => on_remove_reaction socket m
  | typing_start c => on_typing_start socket c
  | typing_stop c => on_typing_stop socket c
  | mark_as_read c ids => on_mark_as_read socket now c ids
  | call_initiate c t i => on_call_initiate socket now c t i
  | webrtc_offer t o i => on_webrtc_offer socket t o i
  | webrtc_answer t a i => on_webrtc_answer socket t a i
  | webrtc_ice_candidate t c i => on_webrtc_ice_candidate socket t c i
  | call_response i a t => on_call_response socket i a t
  | call_end i c => on_call_end socket i c
  | user_added_to_group c u => on_user_added_to_group c u
  | user_removed_from_group c u => on_user_removed_from_group c u
  | send_friend_request t => on_send_friend_request socket t
  | accept_friend_request f => on_accept_friend_request socket f
  | error => on_error socket
  end.

Inductive event :=
| Connect (socket : Socket.t)
| Disconnect (socket : Socket.t)
| Client (socket : Socket.t) (e : client_event)
| Cleanup.

(** socket.io's own part of a connect and of a disconnect: the socket
    enters [io.sockets.sockets]; on the way out it leaves it and every
    room before the ['disconnect'] listeners run. *)
Definition attach (socket : Socket.t) : handler unit :=
  modify (fun w => set_sockets (<[Socket.id socket := socket]> (sockets w)) w).

Definition detach (socket : Socket.t) : handler unit :=
  modify (fun w =>
    set_rooms (filter (fun p => p.2 ≠ Socket.id socket) (rooms w))
      (set_sockets (delete (Socket.id socket) (sockets w)) w)).

(** One event, handled to completion.  A socket id names one
    connection: a connect under an id that is live, and any event on a
    socket that is not, do not occur. *)
Definition step (now : Date) (ev : event) (w : world) : world :=
  match ev with
  | Connect socket =>
      match sockets w !! Socket.id socket with
      | None => ((attach socket ;; on_connection socket now) w).2
      | Some _ => w
      end
  | Disconnect socket =>
      if bool_decide (sockets w !! Socket.id socket = Some socket)
      then ((detach socket ;; on_disconnect socket now) w).2
      else w
  | Client socket e =>
      if bool_decide (sockets w !! Socket.id socket = Some socket)
      then (dispatch socket now e w).2
      else w
  | Cleanup => (typing_cleanup w).2
  end.

Definition run (trace : list (Date * event)) (w : world) : world :=
  foldl (fun w te => step te.1 te.2 w) w trace.

(** *** The Presence Table's readings *)

(** [activeUsers.has(userId)] *)
Definition isOnline (userId : ObjectId) (w : world) : bool :=
  bool_decide (is_Some (activeUsers w !! userId)).

(** The live connections of an identity. *)
Definition connectionsOf (userId : ObjectId) (w : world) : gset SocketId :=
  dom (filter (fun kv => Socket.userId kv.2 = userId) (sockets w)).

(** *** Vocabulary of the statements about the relay *)

Definition is_typing_stop (e : emission) : Prop :=
  ∃ userId chatId, e_packet e = Emit.typing_stop userId chatId.


(** What the per-id branch of [mark_as_read] does to the collection
    when the store answers. *)
Definition marked (userId : ObjectId) (now : Date) (ids : list ObjectId)
    (coll : gmap ObjectId Message.t) : gmap ObjectId Message.t :=
  foldl (fun coll id => alter (Message.markAsReadBy userId now) id coll) coll ids.

(** What [mark_as_read] does to the collection when the store answers. *)
Definition read_effect (userId : ObjectId) (now : Date) (chatId : ObjectId)
    (messageIds : option (list ObjectId)) (w : world)
    : gmap ObjectId Message.t :=
  match chats w !! chatId with
  | Some c =>
      if Chat.isParticipant userId c then
        match messageIds with
        | Some ((_ :: _) as ids) => marked userId now ids (messages w)
        | _ => Message.markAllAsRead chatId userId now (messages w)
        end
      else messages w
  | None => messages w
  end.

(** No stored message carries a receipt of its own sender. *)
Definition store_no_own_receipt (w : world) : Prop :=
  map_Forall (fun _ m => Message.no_own_receipt m) (messages w).

(** An event that can happen in [w]: a connect brings a new socket
    id, every other socket event comes from a live socket. *)
Definition occurs (w : world) (ev : event) : Prop :=
  match ev with
  | Connect socket => sockets w !! Socket.id socket = None
  | Disconnect socket | Client socket _ =>
      sockets w !! Socket.id socket = Some socket
  | Cleanup => True
  end.

Fixpoint feasible (w : world) (trace : list (Date * event)) : Prop :=
  match trace with
  | [] => True
  | (now, ev) :: rest => occurs w ev ∧ feasible (step now ev w) rest
  end.

(** Whether the latest connect or disconnect of one of [userId]'s
    sockets in the trace is a connect; [before] when there is none. *)
Fixpoint latest (userId : ObjectId) (trace : list (Date * event))
    (before : bool) : bool :=
  match trace with
  | [] => before
  | (_, Connect socket) :: rest =>
      latest userId rest
        (if bool_decide (Socket.userId socket = userId) then true else before)
  | (_, Disconnect socket) :: rest =>
      latest userId rest
        (if bool_decide (Socket.userId socket = userId) then false else before)
  | _ :: rest => latest userId rest before
  end.

(** The identity never holds two connections at once: each of its
    connects finds it without a live socket. *)
Fixpoint one_at_a_time (userId : ObjectId) (w : world)
    (trace : list (Date * event)) : Prop :=
  match trace with
  | [] => True
  | (now, ev) :: rest =>
      match ev with
      | Connect socket =>
          Socket.userId socket = userId -> connectionsOf userId w = ∅
      | _ => True
      end
      ∧ one_at_a_time userId (step now ev w) rest
  end.

(** The table agrees with the live connections of [userId], which
    are one at most. *)
Definition tracked (userId : ObjectId) (w : world) : Prop :=
  (is_Some (activeUsers w !! userId)
   <-> ∃ sid s, sockets w !! sid = Some s ∧ Socket.userId s = userId)
  ∧ (forall sid1 s1 sid2 s2,
       sockets w !! sid1 = Some s1 -> Socket.userId s1 = userId ->
       sockets w !! sid2 = Some s2 -> Socket.userId s2 = userId ->
       sid1 = sid2).

Definition caller_of (socket : Socket.t) : Caller :=
  mkCaller (Socket.userId socket) (Socket.username socket)
           (Socket.avatar socket).

(** What one [emit t p] made on [w] puts in the outbox. *)
Definition sends (t : target) (p : Emit.packet) (w : world) : list emission :=
  [mkEmission t (receivers t w) p].

End SocketHandler.

(** ** routes/messages.js: message history *)

Module MessagesRoute.
Import Store.

(** A query-string parameter as the validators see it. *)
Inductive qparam := absent | not_int | int (z : Z).

Record history := mkHistory {
  h_messages : list (ObjectId * Message.t);
  h_page : Z;
  h_limit : Z;
  h_total : nat;
  h_hasMore : bool
}.

Inductive response :=
| status400
| status403
| status404
| status500
| json (body : history).

(** [query('page').optional().isInt({ min: 1 })] and
    [query('limit').optional().isInt({ min: 1, max: 100 })] *)
Definition valid_page (p : qparam) : bool :=
  match p with
  | absent => true
  | not_int => false
  | int z => (1 <=? z)%Z
  end.

Definition valid_limit (p : qparam) : bool :=
  match p with
  | absent => true
  | not_int => false
  | int z => (1 <=? z)%Z && (z <=? 100)%Z
  end.

(** [const { page = 1, limit = 50 } = req.query] read through
    [parseInt], for numbers that JavaScript holds exactly. *)
Definition or_default (d : Z) (p : qparam) : Z :=
  match p with
  | int z => z
  | _ => d
  end.

(** The filter of the history query:
    [{ chat, $or: [{ deleted: false }, { deleted: true, sender: me }] }] *)
Definition history_query (chatId me : ObjectId) (m : Message.t) : bool :=
  bool_decide (Message.chat m = chatId)
  && (negb (Message.deleted m)
      || (Message.deleted m && bool_decide (Message.sender m = me))).

(** [.sort({ createdAt: -1 })] *)
Definition newer_first (m1 m2 : ObjectId * Message.t) : Prop :=
  (Message.createdAt m2.2 ≤ Message.createdAt m1.2)%Z.

#[global] Instance newer_first_dec m1 m2 : Decision (newer_first m1 m2).
Proof. unfold newer_first. apply _. Defined.

(** [Message.find(query).sort(...).skip(skip).limit(limit)] *)
Definition Message_find_history (chatId me : ObjectId) (skip limit : Z)
    : handler (list (ObjectId * Message.t)) :=
  await (fun w =>
    (take (Z.to_nat limit)
       (drop (Z.to_nat skip)
          (merge_sort newer_first
             (List.filter (fun msg => history_query chatId me msg.2)
                (map_to_list (messages w))))), w)).

(** [Message.countDocuments({ chat, deleted: false })] *)
Definition Message_count (chatId : ObjectId) : handler nat :=
  await (fun w =>
    (size (filter (fun kv =>
               Message.chat kv.2 = chatId ∧ Message.deleted kv.2 = false)
             (messages w)), w)).

(** [router.get('/:chatId', ...)] for the authenticated user [me]. *)
Definition get_messages (me chatId : ObjectId) (page limit : qparam)
    : handler response :=
  try_catch
    (if negb (valid_page page && valid_limit limit) then ret status400
     else
       let page := or_default 1 page in
       let limit := or_default 50 limit in
       let skip := ((page - 1) * limit)%Z in
       chat <- Chat_findById chatId ;;
       match chat with
       | None => ret status404
       | Some c =>
           if negb (Chat.isParticipant me c) then ret status403
           else
             messages <- Message_find_history chatId me skip limit ;;
             let filteredMessages :=
               List.filter (fun msg => negb (Message.isDeletedForUser me msg.2))
                           messages in
             total <- Message_count chatId ;;
             ret (json (mkHistory (rev filteredMessages) page limit total
                          (Z.to_nat skip + length filteredMessages <? total)%nat))
       end)
    (fun _ => ret status500).

Definition not_deleted (msg : ObjectId * Message.t) : Prop :=
  Message.deleted msg.2 = false.

(** The messages a response carries. *)
Definition delivered (r : response) : list (ObjectId * Message.t) :=
  match r with
  | json body => h_messages body
  | _ => []
  end.

End MessagesRoute.

(** ** More of models/Message.js *)

Module MessageViews.

(** [messageSchema.virtual('isRead')] and [('isDelivered')] *)
Definition isRead (this : Message.t) : bool :=
  negb (length (Message.readBy this) =? 0)%nat.

Definition isDelivered (this : Message.t) : bool :=
  negb (length (Message.deliveredTo this) =? 0)%nat.

(** The users a message was delivered to, in order. *)
Definition deliverers (this : Message.t) : list ObjectId :=
  Delivery.user <$> Message.deliveredTo this.

(** No user is listed twice among the reactions, among the read
    receipts or among the delivery receipts. *)
Definition entries_once (this : Message.t) : Prop :=
  NoDup (Message.reactors this) ∧ NoDup (Message.readers this)
  ∧ NoDup (deliverers this).

(** The user on whose behalf a method call is made. *)
Definition actor (o : Message.op) : ObjectId :=
  match o with
  | Message.MarkAsReadBy u _ => u
  | Message.MarkAsDeliveredTo u _ => u
  | Message.AddReaction u _ _ => u
  | Message.RemoveReaction u => u
  | Message.EditContent _ u _ => u
  | Message.DeleteMessage u _ _ => u
  | Message.MarkAllAsRead _ u _ => u
  end.

End MessageViews.

(** ** More of models/Chat.js *)

(** An entry of [mutedBy]: [{ user, mutedUntil }], where [mutedUntil]
    is a date or [null]. *)
Module Mute.
Record t := mk {
  user : ObjectId;
  mutedUntil : option Date
}.
End Mute.

Module ChatDoc.

(** The whole chat document: the fields the relay reads ([Chat.t])
    together with the per-user lists. *)
Record t := mk {
  core : Chat.t;
  mutedBy : list Mute.t;
  pinnedBy : list ObjectId
}.

Definition participants (this : t) : list ObjectId :=
  Chat.participants (core this).
Definition admins (this : t) : list ObjectId := Chat.admins (core this).
Definition creator (this : t) : option ObjectId := Chat.creator (core this).
Definition type (this : t) : Chat.ChatType := Chat.type (core this).
Definition name (this : t) : option string := Chat.name (core this).

Definition with_core (c : Chat.t) (this : t) : t :=
  mk c (mutedBy this) (pinnedBy this).

Definition with_participants (ps : list ObjectId) (this : t) : t :=
  let c := core this in
  with_core
    (Chat.mk (Chat.name c) (Chat.type c) ps (Chat.admins c) (Chat.creator c)
       (Chat.lastMessage c) (Chat.lastActivity c) (Chat.settings c))
    this.

Definition with_admins (ads : list ObjectId) (this : t) : t :=
  let c := core this in
  with_core
    (Chat.mk (Chat.name c) (Chat.type c) (Chat.participants c) ads
       (Chat.creator c) (Chat.lastMessage c) (Chat.lastActivity c)
       (Chat.settings c))
    this.

Definition with_mutedBy (ms : list Mute.t) (this : t) : t :=
  mk (core this) ms (pinnedBy this).

Definition with_pinnedBy (ps : list ObjectId) (this : t) : t :=
  mk (core this) (mutedBy this) ps.

(** [chatSchema.virtual('participantCount')] and [('isMuted')] *)
Definition participantCount (this : t) : nat := length (participants this).

Definition isMuted (this : t) : bool :=
  negb (length (mutedBy this) =? 0)%nat.

(** [list.filter(id => !id.equals(userId))] *)
Definition without (userId : ObjectId) (l : list ObjectId) : list ObjectId :=
  List.filter (fun id => negb (bool_decide (id = userId))) l.

Definition muted_by (userId : ObjectId) (m : Mute.t) : bool :=
  bool_decide (Mute.user m = userId).

(** [this.save()] as the methods end in it: the validation hook runs
    on the document in memory and decides whether the save resolves. *)
Definition save (this : t) : outcome unit * t :=
  let r := Chat.preSave (core this) in (r.1, with_core r.2 this).

(** [chatSchema.methods.addParticipant] *)
Definition addParticipant (userId : ObjectId) (this : t) : outcome unit * t :=
  save (if bool_decide (userId ∈ participants this) then this
        else with_participants (participants this ++ [userId]) this).

(** [chatSchema.methods.removeParticipant] *)
Definition removeParticipant (userId : ObjectId) (this : t)
    : outcome unit * t :=
  save
    (with_mutedBy
       (List.filter (fun m => negb (muted_by userId m)) (mutedBy this))
       (with_pinnedBy (without userId (pinnedBy this))
          (with_admins (without userId (admins this))
             (with_participants (without userId (participants this)) this)))).

(** [chatSchema.methods.addAdmin] *)
Definition addAdmin (userId : ObjectId) (this : t) : outcome unit * t :=
  save (if bool_decide (userId ∈ participants this)
           && negb (bool_decide (userId ∈ admins this))
        then with_admins (admins this ++ [userId]) this
        else this).

(** [chatSchema.methods.removeAdmin] *)
Definition removeAdmin (userId : ObjectId) (this : t) : outcome unit * t :=
  if bool_decide (creator this = Some userId) then
    (Throw "Cannot remove creator as admin", this)
  else save (with_admins (without userId (admins this)) this).

(** [duration ? new Date(Date.now() + duration) : null], for a duration
    that is a number of milliseconds or absent, and a sum within the
    range of [Date]. *)
Definition mute_expiry (duration : option Z) (now : Date) : option Date :=
  match duration with
  | Some d => if (d =? 0)%Z then None else Some (now + d)%Z
  | None => None
  end.

(** [chatSchema.methods.muteForUser] *)
Definition muteForUser (userId : ObjectId) (duration : option Z) (now : Date)
    (this : t) : outcome unit * t :=
  save
    (match List.find (muted_by userId) (mutedBy this) with
     | Some _ =>
         with_mutedBy
           (update_first (muted_by userId)
              (fun m => Mute.mk (Mute.user m) (mute_expiry duration now))
              (mutedBy this))
           this
     | None =>
         with_mutedBy
           (mutedBy this ++ [Mute.mk userId (mute_expiry duration now)]) this
     end).

(** [chatSchema.methods.unmuteForUser] *)
Definition unmuteForUser (userId : ObjectId) (this : t) : outcome unit * t :=
  save (with_mutedBy
          (List.filter (fun m => negb (muted_by userId m)) (mutedBy this))
          this).

(** [chatSchema.methods.pinForUser] *)
Definition pinForUser (userId : ObjectId) (this : t) : outcome unit * t :=
  save (if bool_decide (userId ∈ pinnedBy this) then this
        else with_pinnedBy (pinnedBy this ++ [userId]) this).

(** [chatSchema.methods.unpinForUser] *)
Definition unpinForUser (userId : ObjectId) (this : t) : outcome unit * t :=
  save (with_pinnedBy (without userId (pinnedBy this)) this).

(** One call of a method of the document. *)
Inductive op :=
| AddParticipant (userId : ObjectId)
| RemoveParticipant (userId : ObjectId)
| AddAdmin (userId : ObjectId)
| RemoveAdmin (userId : ObjectId)
| MuteForUser (userId : ObjectId) (duration : option Z) (now : Date)
| UnmuteForUser (userId : ObjectId)
| PinForUser (userId : ObjectId)
| UnpinForUser (userId : ObjectId).

Definition call (o : op) (this : t) : outcome unit * t :=
  match o with
  | AddParticipant u => addParticipant u this
  | RemoveParticipant u => removeParticipant u this
  | AddAdmin u => addAdmin u this
  | RemoveAdmin u => removeAdmin u this
  | MuteForUser u d now => muteForUser u d now this
  | UnmuteForUser u => unmuteForUser u this
  | PinForUser u => pinForUser u this
  | UnpinForUser u => unpinForUser u this
  end.

(** *** Vocabulary of the statements about chat documents *)

(** What the validation hook lets through. *)
Definition well_formed (this : t) : Prop :=
  match type this with
  | Chat.private =>
      participantCount this = 2%nat ∧ name this = None ∧ admins this = []
  | Chat.group =>
      (2 <= participantCount this)%nat
      ∧ (∃ n, name this = Some n ∧ n ≠ EmptyString)
      ∧ (∀ c, creator this = Some c -> c ∈ admins this)
  end.

Definition muters (this : t) : list ObjectId := Mute.user <$> mutedBy this.

(** No list of the document names a user twice. *)
Definition tidy (this : t) : Prop :=
  NoDup (participants this) ∧ NoDup (admins this)
  ∧ NoDup (pinnedBy this) ∧ NoDup (muters this).

(** Every admin is a participant, the creator apart. *)
Definition admins_inside (this : t) : Prop :=
  ∀ a, a ∈ admins this -> a ∈ participants this ∨ creator this = Some a.

End ChatDoc.

(** The statics of the chat model, on the store. *)
Module ChatStore.
Import Store.

(** [{ type: 'private', participants: { $all: [user1Id, user2Id] } }] *)
Definition private_of (user1Id user2Id : ObjectId) (c : Chat.t) : Prop :=
  Chat.type c = Chat.private
  ∧ user1Id ∈ Chat.participants c ∧ user2Id ∈ Chat.participants c.

#[global] Instance private_of_dec u1 u2 c : Decision (private_of u1 u2 c).
Proof. unfold private_of. apply _. Defined.

(** [Chat.findOne(...)]: the store's first match, here the first in
    the order of the ids. *)
Definition Chat_findOne_private (user1Id user2Id : ObjectId)
    : handler (option (ObjectId * Chat.t)) :=
  await (fun w =>
    (head (map_to_list
             (filter (fun kv => private_of user1Id user2Id kv.2) (chats w))),
     w)).

(** [new Chat({ type: 'private', participants })] with the defaults
    of the schema. *)
Definition new_private (now : Date) (user1Id user2Id : ObjectId) : Chat.t :=
  Chat.mk None Chat.private [user1Id; user2Id] [] None None now
    (Chat.mkSettings true false true).

(** [chatSchema.statics.findOrCreatePrivateChat]; [fresh] is the id
    the store gives a new chat. *)
Definition findOrCreatePrivateChat (fresh : ObjectId) (now : Date)
    (user1Id user2Id : ObjectId) : handler (ObjectId * Chat.t) :=
  chat <- Chat_findOne_private user1Id user2Id ;;
  match chat with
  | Some found => ret found
  | None =>
      c <- Chat_save fresh (new_private now user1Id user2Id) ;;
      ret (fresh, c)
  end.

End ChatStore.

(** ** What the message schema takes as it is *)

Module MessageSchema.

(** A printable ASCII character other than the space. *)
Definition visible (a : Ascii.ascii) : bool :=
  (32 <? Ascii.nat_of_ascii a)%nat && (Ascii.nat_of_ascii a <? 127)%nat.

Fixpoint last_char (a : Ascii.ascii) (s : string) : Ascii.ascii :=
  match s with
  | EmptyString => a
  | String b s' => last_char b s'
  end.

(** Content that the schema stores as it is given and accepts: it
    starts and ends with a visible character, so that the [trim]
    setter leaves it alone and [required] finds it non-empty, and it
    is within [maxlength]. *)
Definition keeps_content (content : string) : bool :=
  match content with
  | EmptyString => false
  | String a s =>
      visible a && visible (last_char a s)
      && (String.length content <=? 5000)%nat
  end.

Definition hex_digit (a : Ascii.ascii) : bool :=
  let n := Ascii.nat_of_ascii a in
  ((48 <=? n) && (n <=? 57) || (65 <=? n) && (n <=? 70)
   || (97 <=? n) && (n <=? 102))%nat.

Fixpoint all_hex (s : string) : bool :=
  match s with
  | EmptyString => true
  | String a s' => hex_digit a && all_hex s'
  end.

(** A string that is cast to an ObjectId: 24 hexadecimal digits. *)
Definition object_id (s : string) : bool :=
  (String.length s =? 24)%nat && all_hex s.

(** A payload of [send_message] whose content and [replyTo] pass the
    schema unchanged. *)
Definition takes (data : SocketHandler.send_message_data) : bool :=
  keeps_content (SocketHandler.sm_content data)
  && match SocketHandler.truthy (SocketHandler.sm_replyTo data) with
     | Some id => object_id id
     | None => true
     end.

End MessageSchema.

(** ** More vocabulary for the relay *)

Module RelayViews.

(** Who is in a chat and what kind of chat it is: the part of a chat
    document that access checks read. *)
Definition membership (c : Chat.t)
    : Chat.ChatType * list ObjectId * option ObjectId * Chat.settings_t :=
  (Chat.type c, Chat.participants c, Chat.creator c, Chat.settings c).

Definition memberships (w : world) :=
  membership <$> chats w.

(** A call session that a participant of its chat started. *)
Definition started_by_participant (w : world) (call : Call.t) : Prop :=
  ∃ c, chats w !! Call.chatId call = Some c
       ∧ Chat.isParticipant (Call.initiator call) c = true
       ∧ Call.initiator call ∈ Call.participants call.

Definition calls_started_by_participants (w : world) : Prop :=
  map_Forall (fun _ call => started_by_participant w call) (activeCalls w).

(** The participants of a chat the relay delivers a message to as it
    is sent: those with an entry in the presence table, the sender
    apart. *)
Definition online_others (sender : ObjectId) (chat : Chat.t) (w : world)
    : list ObjectId :=
  List.filter (fun p =>
      bool_decide (is_Some (activeUsers w !! p))
      && negb (bool_decide (p = sender)))
    (Chat.participants chat).

(** [for (p of ps) await message.markAsDeliveredTo(p)] on the document. *)
Definition delivered_all (now : Date) (ps : list ObjectId) (m : Message.t)
    : Message.t :=
  foldl (fun m p => Message.markAsDeliveredTo p now m) m ps.

End RelayViews.

(** ** routes/messages.js: the routes that write *)

Module MessagesRest.
Import Store.

(** What a route answers: [res.status(s).json(...)]. *)
Inductive reply :=
| validation_failed
| failed (status : nat) (error : string)
| created (messageId : ObjectId) (message : Message.t)
| edited (data : Message.t)
| succeeded (message : string)
| reacted (message : string) (reactions : list Reaction.t).

(** [error.message || 'Server error'] *)
Definition or_server_error (message : string) : string :=
  match message with
  | EmptyString => "Server error"
  | _ => message
  end.

(** The body of [POST /]; [type] defaults to ['text']. *)
Record post_body := mkPost {
  p_chatId : ObjectId;
  p_content : string;
  p_type : option Message.MessageType;
  p_replyTo : option ObjectId
}.

Section Request.

(** [req.user._id] as the authentication middleware set it, and the
    clock read by [new Date()] while the request is served. *)
Variable me : ObjectId.
Variable now : Date.

(** [router.post('/', ...)]; [valid] is the verdict of
    [validationResult(req)], [fresh] the id the store gives the new
    message. *)
Definition post_message (valid : bool) (fresh : ObjectId) (body : post_body)
    : handler reply :=
  try_catch
    (if negb valid then ret validation_failed
     else
       let chatId := p_chatId body in
       chat <- Chat_findById chatId ;;
       match chat with
       | None => ret (failed 404 "Chat not found")
       | Some chat =>
           if negb (Chat.isParticipant me chat) then
             ret (failed 403 "Access denied")
           else if bool_decide (Chat.type chat = Chat.group)
                   && Chat.onlyAdminsCanMessage (Chat.settings chat)
                   && negb (Chat.isAdmin me chat) then
             ret (failed 403 "Only admins can send messages")
           else
             let message :=
               Message.create now
                 (Message.mkData chatId me (p_content body)
                    (default Message.text (p_type body))
                    (SocketHandler.truthy (p_replyTo body))) in
             Message_save fresh message ;;
             Chat_save chatId (Chat.touch fresh now chat) ;;
             Message_populate ;;
             match SocketHandler.truthy (p_replyTo body) with
             | Some _ => Message_populate
             | None => ret tt
             end ;;
             ret (created fresh message)
       end)
    (fun _ => ret (failed 500 "Server error")).

(** [router.put('/:messageId', ...)] *)
Definition put_message (valid : bool) (messageId : ObjectId)
    (content : string) : handler reply :=
  try_catch
    (if negb valid then ret validation_failed
     else
       message <- Message_findById messageId ;;
       match message with
       | None => ret (failed 404 "Message not found")
       | Some m =>
           m' <- SocketHandler.Message_editContent content me now messageId m ;;
           ret (edited m')
       end)
    (fun e => ret (failed 400 (or_server_error e))).

(** [router.delete('/:messageId', ...)]; [deleteForEveryone] is the
    query parameter, compared with ['true']. *)
Definition delete_message (messageId : ObjectId)
    (deleteForEveryone : option string) : handler reply :=
  try_catch
    (message <- Message_findById messageId ;;
     match message with
     | None => ret (failed 404 "Message not found")
     | Some m =>
         SocketHandler.Message_deleteMessage me
           (bool_decide (deleteForEveryone = Some "true")) now messageId m ;;
         ret (succeeded "Message deleted successfully")
     end)
    (fun e => ret (failed 400 (or_server_error e))).

(** [router.post('/:messageId/reaction', ...)] *)
Definition post_reaction (valid : bool) (messageId : ObjectId)
    (emoji : string) : handler reply :=
  try_catch
    (if negb valid then ret validation_failed
     else
       message <- Message_findById messageId ;;
       match message with
       | None => ret (failed 404 "Message not found")
       | Some m =>
           chat <- Chat_findById (Message.chat m) ;;
           match chat with
           | None => throw "TypeError: Cannot read properties of null"
           | Some c =>
               if negb (Chat.isParticipant me c) then
                 ret (failed 403 "Access denied")
               else
                 let m' := Message.addReaction me emoji now m in
                 Message_save messageId m' ;;
                 ret (reacted "Reaction added successfully"
                        (Message.reactions m'))
           end
       end)
    (fun _ => ret (failed 500 "Server error")).

(** [router.delete('/:messageId/reaction', ...)] *)
Definition delete_reaction (messageId : ObjectId) : handler reply :=
  try_catch
    (message <- Message_findById messageId ;;
     match message with
     | None => ret (failed 404 "Message not found")
     | Some m =>
         let m' := Message.removeReaction me m in
         Message_save messageId m' ;;
         ret (reacted "Reaction removed successfully" (Message.reactions m'))
     end)
    (fun _ => ret (failed 500 "Server error")).

(** One callback of the [Promise.all] in [POST /:chatId/read]. *)
Definition read_one (msgId : ObjectId) : handler unit :=
  message <- Message_findById msgId ;;
  match message with
  | Some m => SocketHandler.Message_markAsReadBy me now msgId m
  | None => ret tt
  end.

(** [router.post('/:chatId/read', ...)], for a body whose
    [messageIds] is an array or absent; the route does not look at
    the verdict of its validator. *)
Definition post_read (chatId : ObjectId)
    (messageIds : option (list ObjectId)) : handler reply :=
  try_catch
    (chat <- Chat_findById chatId ;;
     match chat with
     | None => ret (failed 404 "Chat not found")
     | Some c =>
         if negb (Chat.isParticipant me c) then
           ret (failed 403 "Access denied")
         else
           match messageIds with
           | Some ((_ :: _) as ids) => promise_all ids read_one
           | _ => Message_markAllAsRead chatId me now
           end ;;
           ret (succeeded "Messages marked as read")
     end)
    (fun _ => ret (failed 500 "Server error")).

End Request.

(** A request to one of the routes that write. *)
Inductive request :=
| PostMessage (valid : bool) (fresh : ObjectId) (body : post_body)
| PutMessage (valid : bool) (messageId : ObjectId) (content : string)
| DeleteMessage (messageId : ObjectId) (deleteForEveryone : option string)
| PostReaction (valid : bool) (messageId : ObjectId) (emoji : string)
| DeleteReaction (messageId : ObjectId)
| PostRead (chatId : ObjectId) (messageIds : option (list ObjectId)).

Definition serve (me : ObjectId) (now : Date) (r : request) : handler reply :=
  match r with
  | PostMessage v f b => post_message me now v f b
  | PutMessage v m c => put_message me now v m c
  | DeleteMessage m q => delete_message me now m q
  | PostReaction v m e => post_reaction me now v m e
  | DeleteReaction m => delete_reaction me m
  | PostRead c ids => post_read me now c ids
  end.

(** What of the world the relay owns: its tables, its rooms and what
    it has emitted. *)
Definition relay_state (w : world) :=
  (activeUsers w, typingUsers w, activeCalls w, sockets w, rooms w, outbox w).

End MessagesRest.

(** ** More vocabulary for the message history *)

Module HistoryViews.

(** Ascending [createdAt]. *)
Definition older_first (m1 m2 : ObjectId * Message.t) : Prop :=
  (Message.createdAt m1.2 ≤ Message.createdAt m2.2)%Z.

(** A message of the store that belongs to the chat and is not hidden
    from the user. *)
Definition shown (w : world) (chatId me : ObjectId)
    (msg : ObjectId * Message.t) : Prop :=
  messages w !! msg.1 = Some msg.2
  ∧ Message.chat msg.2 = chatId
  ∧ Message.isDeletedForUser me msg.2 = false.

End HistoryViews.

(** ** Assertions about handlers *)

(** [wp h Q w]: running [h] on [w] ends in an outcome and a world that
    satisfy [Q]. *)
Definition wp {A} (h : handler A) (Q : outcome A -> world -> Prop)
    (w : world) : Prop :=
  Q (h w).1 (h w).2.

(** [preserves I h]: the handler keeps the invariant [I], whether it
    returns or throws. *)
Definition preserves {A} (I : world -> Prop) (h : handler A) : Prop :=
  forall w, I w -> I (h w).2.

(** [frames f h]: the handler leaves the reading [f] of the world as it
    found it. *)
Definition frames {A B} (f : world -> B) (h : handler A) : Prop :=
  forall w, f (h w).2 = f w.

(** [keeps I h R]: [h] keeps the invariant [I], and what it returns
    satisfies [R]. *)
Definition keeps {A} (I : world -> Prop) (h : handler A) (R : A -> Prop)
    : Prop :=
  forall w, I w -> I (h w).2 ∧ forall a, (h w).1 = Ok a -> R a.


(** ** Sample data *)

Module Samples.
Import SocketHandler.

Definition alice_phone : Socket.t := Socket.mk "s1" "u1" "alice" "" "F1".
Definition alice_laptop : Socket.t := Socket.mk "s2" "u1" "alice" "" "F1".
Definition bob_phone : Socket.t := Socket.mk "s3" "u2" "bob" "" "F2".
Definition carol_phone : Socket.t := Socket.mk "s4" "u3" "carol" "" "F3".

Definition people : gmap ObjectId User.t :=
  <["u1" := User.mk "alice" "" "F1" false 0%Z "" ["u2"; "u3"]]>
    (<["u2" := User.mk "bob" "" "F2" false 0%Z "" ["u1"]]>
       (<["u3" := User.mk "carol" "" "F3" false 0%Z "" ["u1"]]> ∅)).

Definition open_settings : Chat.settings_t := Chat.mkSettings true false true.

Definition private_chat : Chat.t :=
  Chat.mk None Chat.private ["u1"; "u2"] [] None None 0%Z open_settings.

Definition group_chat : Chat.t :=
  Chat.mk (Some "team") Chat.group ["u1"; "u2"; "u3"] ["u1"] (Some "u1")
          None 0%Z open_settings.

Definition all_chats : gmap ObjectId Chat.t :=
  <["c1" := private_chat]> (<["g1" := group_chat]> ∅).

Definition started : world := boot people all_chats ∅ [].

(** Two devices of one user, then the first one goes away. *)
Definition two_devices : list (Date * event) :=
  [(1%Z, Connect alice_phone); (2%Z, Connect alice_laptop);
   (3%Z, Disconnect alice_phone)].

Definition one_device : list (Date * event) :=
  [(1%Z, Connect alice_phone); (2%Z, Connect bob_phone);
   (3%Z, Client alice_phone (typing_start "c1"));
   (4%Z, Disconnect bob_phone)].

(** Everybody connected. *)
Definition everybody : list (Date * event) :=
  [(1%Z, Connect alice_phone); (2%Z, Connect bob_phone);
   (3%Z, Connect carol_phone)].

(** Everybody connected, and a first message in the private chat. *)
Definition conversation : list (Date * event) :=
  everybody
  ++ [(4%Z, Client alice_phone
              (send_message "m1"
                 (mkSendMessage "c1" "hello" None None (Some "t1"))))].

Definition message : Message.t :=
  Message.run
    [Message.AddReaction "u2" "heart" 5%Z; Message.AddReaction "u3" "smile" 6%Z]
    (Message.create 1%Z (Message.mkData "c1" "u1" "hello" Message.text None)).

End Samples.

(** Chat documents for the examples of the chat methods. *)
Module ChatSamples.

Definition private_doc : ChatDoc.t :=
  ChatDoc.mk Samples.private_chat [] [].

Definition group_doc : ChatDoc.t :=
  ChatDoc.mk Samples.group_chat [Mute.mk "u2" None] ["u2"; "u3"].

End ChatSamples.

(** What the relay holds after [Samples.conversation]. *)
Module RelaySamples.
Import SocketHandler.

Definition talked : world :=
  SocketHandler.run Samples.conversation Samples.started.

(** Then alice calls bob. *)
Definition calling : list (Date * event) :=
  Samples.conversation
  ++ [(5%Z, SocketHandler.Client Samples.alice_phone
              (SocketHandler.call_initiate "c1" "video" "call1"))].

(** Everybody is connected. *)
Definition connected : world := run Samples.everybody Samples.started.

(** Everybody is connected and alice is typing in the private chat. *)
Definition typing : world :=
  run (Samples.everybody
       ++ [(4%Z, Client Samples.alice_phone (typing_start "c1"))])
      Samples.started.

Definition stored_message : Message.t :=
  Message.markAsDeliveredTo "u2" 4%Z
    (Message.create 4%Z (Message.mkData "c1" "u1" "hello" Message.text None)).

End RelaySamples.

(** * Properties *)

(** ** Lists *)

Section ListFacts.
Context {A : Type}.
Implicit Types (p : A -> bool) (l : list A).

Lemma find_none_forall p l :
  List.find p l = None -> Forall (fun x => p x = false) l.
Proof.
  induction l as [|x l IH]; simpl; [constructor|].
  destruct (p x) eqn:Hx; [discriminate|]. intros H. constructor; auto.
Qed.

Lemma find_app_hit p l x :
  p x = true -> is_Some (List.find p (l ++ [x])).
Proof.
  intros Hx. induction l as [|y l IH]; simpl.
  - rewrite Hx. eauto.
  - destruct (p y); eauto.
Qed.

Lemma existsb_app_hit p l x : p x = true -> existsb p (l ++ [x]) = true.
Proof.
  intros Hx. rewrite existsb_app. simpl. rewrite Hx.
  rewrite orb_true_r. destruct (existsb p l); reflexivity.
Qed.

Lemma find_some_existsb p l : is_Some (List.find p l) <-> existsb p l = true.
Proof.
  induction l as [|x l IH]; simpl.
  - split; [intros [? ?]; discriminate | discriminate].
  - destruct (p x); simpl; [split; eauto | exact IH].
Qed.

Lemma filter_none p l : Forall (fun x => p x = false) l -> List.filter p l = [].
Proof.
  induction 1 as [|x l Hx _ IH]; simpl; [reflexivity|]. rewrite Hx. exact IH.
Qed.
End ListFacts.

(** ** Messages: reactions, read receipts, edit and delete *)

Module MessageFacts.
Import Message.

Lemma update_first_users userId emoji now (rs : list Reaction.t) :
  Reaction.user <$>
    update_first (mine userId)
      (fun r => Reaction.mk (Reaction.user r) emoji now) rs
  = Reaction.user <$> rs.
Proof.
  induction rs as [|r rs IH]; [reflexivity|].
  cbn [update_first]. destruct (mine userId r); [reflexivity|].
  rewrite !fmap_cons. by rewrite IH.
Qed.

Lemma mine_none_not_in userId (rs : list Reaction.t) :
  List.find (mine userId) rs = None -> userId ∉ Reaction.user <$> rs.
Proof.
  intros H%find_none_forall. induction H as [|r rs Hr _ IH]; simpl.
  - apply not_elem_of_nil.
  - rewrite not_elem_of_cons. split; [|exact IH].
    unfold mine in Hr. apply bool_decide_eq_false in Hr. congruence.
Qed.

(** One reaction per user: the invariant of the reaction list. *)
Lemma addReaction_NoDup userId emoji now this :
  NoDup (reactors this) -> NoDup (reactors (addReaction userId emoji now this)).
Proof.
  unfold reactors, addReaction. fold (mine userId).
  destruct (List.find (mine userId) (reactions this)) eqn:Hf; simpl.
  - by rewrite update_first_users.
  - intros Hnd. rewrite fmap_app. simpl.
    apply NoDup_app. split; [exact Hnd|]. split.
    + intros x Hx Hx'. apply list_elem_of_singleton in Hx'. subst x.
      by apply mine_none_not_in in Hf.
    + apply NoDup_singleton.
Qed.

Lemma removeReaction_NoDup userId this :
  NoDup (reactors this) -> NoDup (reactors (removeReaction userId this)).
Proof.
  unfold reactors, removeReaction. simpl.
  generalize (reactions this). intros rs.
  induction rs as [|r rs IH]; simpl; [done|].
  intros [Hr Hnd]%NoDup_cons.
  destruct (negb _); simpl; [|by apply IH].
  apply NoDup_cons. split; [|by apply IH].
  intros Hin. apply Hr.
  apply list_elem_of_fmap in Hin as (r' & -> & Hin).
  apply list_elem_of_fmap. exists r'. split; [done|].
  apply list_elem_of_In, filter_In in Hin as [Hin _].
  by apply list_elem_of_In.
Qed.

Lemma apply_reactors_NoDup this o :
  NoDup (reactors this) -> NoDup (reactors (apply this o)).
Proof.
  destruct o as [u n|u n|u e n|u|c u n|u b n|c u n]; simpl.
  - unfold markAsReadBy. repeat case_match; done.
  - unfold markAsDeliveredTo. repeat case_match; done.
  - apply addReaction_NoDup.
  - apply removeReaction_NoDup.
  - unfold editContent. repeat case_match; done.
  - unfold deleteMessage. repeat case_match; done.
  - unfold markAllAsRead_doc. repeat case_match; done.
Qed.

Lemma run_app ops1 ops2 this : run (ops1 ++ ops2) this = run ops2 (run ops1 this).
Proof. unfold run. apply foldl_app. Qed.

Lemma reachable_ind_ops (P : t -> Prop) :
  (forall now d, P (create now d)) ->
  (forall this o, P this -> P (apply this o)) ->
  forall this, reachable this -> P this.
Proof.
  intros Hc Hs this (now & d & ops & ->).
  induction ops as [|o ops IH] using rev_ind; [apply Hc|].
  rewrite run_app. simpl. by apply Hs.
Qed.

Lemma filter_mine_fresh userId emoji now (rs : list Reaction.t) :
  List.find (mine userId) rs = None ->
  List.filter (mine userId) (rs ++ [Reaction.mk userId emoji now])
  = [Reaction.mk userId emoji now].
Proof.
  intros H%find_none_forall. rewrite List.filter_app.
  rewrite (filter_none _ _ H). simpl. unfold mine. simpl.
  by rewrite bool_decide_eq_true_2.
Qed.

(** *** Read receipts *)

Lemma markAsReadBy_idem userId t1 t2 this :
  markAsReadBy userId t2 (markAsReadBy userId t1 this)
  = markAsReadBy userId t1 this.
Proof.
  unfold markAsReadBy. fold (read_by userId).
  destruct (bool_decide (sender this = userId)) eqn:Hs; [by rewrite Hs|].
  destruct (List.find (read_by userId) (readBy this)) eqn:Hf.
  - by rewrite Hs, Hf.
  - simpl. rewrite Hs.
    destruct (find_app_hit (read_by userId) (readBy this)
                (ReadReceipt.mk userId t1)) as [r ->]; [|done].
    unfold read_by. simpl. by apply bool_decide_eq_true_2.
Qed.

Lemma markAllAsRead_doc_idem chatId userId t1 t2 this :
  markAllAsRead_doc chatId userId t2 (markAllAsRead_doc chatId userId t1 this)
  = markAllAsRead_doc chatId userId t1 this.
Proof.
  unfold markAllAsRead_doc.
  destruct (unreadFor chatId userId this) eqn:Hu; [|by rewrite Hu].
  unfold unreadFor. simpl. fold (read_by userId).
  rewrite (existsb_app_hit (read_by userId)); [|].
  - simpl. by rewrite andb_false_r.
  - unfold read_by. simpl. by apply bool_decide_eq_true_2.
Qed.

Lemma markAllAsRead_idem chatId userId t1 t2 (coll : gmap ObjectId t) :
  markAllAsRead chatId userId t2 (markAllAsRead chatId userId t1 coll)
  = markAllAsRead chatId userId t1 coll.
Proof.
  unfold markAllAsRead. rewrite <- map_fmap_compose.
  apply map_fmap_ext. intros k m _. simpl. apply markAllAsRead_doc_idem.
Qed.

Lemma markAsReadBy_readers userId now this :
  readers (markAsReadBy userId now this) = readers this
  ∨ (sender this ≠ userId
     ∧ readers (markAsReadBy userId now this) = readers this ++ [userId]).
Proof.
  unfold markAsReadBy, readers.
  destruct (bool_decide (sender this = userId)) eqn:Hs; [by left|].
  apply bool_decide_eq_false in Hs.
  destruct (List.find _ _); [by left|]. right. split; [done|].
  simpl. by rewrite fmap_app.
Qed.

Lemma markAllAsRead_doc_readers chatId userId now this :
  readers (markAllAsRead_doc chatId userId now this) = readers this
  ∨ (sender this ≠ userId
     ∧ readers (markAllAsRead_doc chatId userId now this)
       = readers this ++ [userId]).
Proof.
  unfold markAllAsRead_doc, readers.
  destruct (unreadFor chatId userId this) eqn:Hu; [|by left]. right.
  unfold unreadFor in Hu. rewrite !andb_true_iff in Hu.
  destruct Hu as [[[_ Hs] _] _].
  apply negb_true_iff, bool_decide_eq_false in Hs. split; [done|].
  simpl. by rewrite fmap_app.
Qed.

Lemma apply_sender_unread this o :
  sender_unread this -> sender_unread (apply this o).
Proof.
  unfold sender_unread. intros H.
  destruct o as [u n|u n|u e n|u|c u n|u b n|c u n]; simpl.
  - destruct (markAsReadBy_readers u n this) as [Heq|[Hne Heq]].
    + assert (sender (markAsReadBy u n this) = sender this) as ->
        by (unfold markAsReadBy; repeat case_match; done).
      by rewrite Heq.
    + assert (sender (markAsReadBy u n this) = sender this) as ->
        by (unfold markAsReadBy; repeat case_match; done).
      rewrite Heq. rewrite elem_of_app, list_elem_of_singleton. tauto.
  - unfold markAsDeliveredTo. repeat case_match; done.
  - unfold addReaction. repeat case_match; done.
  - done.
  - unfold editContent. repeat case_match; done.
  - unfold deleteMessage. repeat case_match; done.
  - assert (sender (markAllAsRead_doc c u n this) = sender this) as ->
      by (unfold markAllAsRead_doc; repeat case_match; done).
    destruct (markAllAsRead_doc_readers c u n this) as [Heq|[Hne Heq]];
      rewrite Heq; [done|].
    rewrite elem_of_app, list_elem_of_singleton. tauto.
Qed.

Lemma apply_sender_undelivered this o :
  sender this ∉ Delivery.user <$> deliveredTo this ->
  sender (apply this o) ∉ Delivery.user <$> deliveredTo (apply this o).
Proof.
  intros Hs. destruct o as [u n|u n|u e n|u|c u n|u b n|c u n]; simpl.
  - unfold markAsReadBy. repeat case_match; done.
  - unfold markAsDeliveredTo.
    destruct (bool_decide (sender this = u)) eqn:Hsu; [done|].
    apply bool_decide_eq_false in Hsu.
    destruct (List.find _ (deliveredTo this)); [done|]. simpl.
    rewrite fmap_app, elem_of_app. simpl. rewrite list_elem_of_singleton.
    tauto.
  - unfold addReaction. repeat case_match; done.
  - done.
  - unfold editContent. repeat case_match; done.
  - unfold deleteMessage. repeat case_match; done.
  - unfold markAllAsRead_doc. repeat case_match; done.
Qed.

Lemma create_no_own_receipt now d : no_own_receipt (create now d).
Proof. split; apply not_elem_of_nil. Qed.

Lemma apply_no_own_receipt this o :
  no_own_receipt this -> no_own_receipt (apply this o).
Proof.
  intros [Hr Hd]. split.
  - by apply apply_sender_unread.
  - by apply apply_sender_undelivered.
Qed.

(** *** Delete for everyone *)

Lemma deleteMessage_everyone_tombstoned userId now this :
  (deleteMessage userId true now this).1 = Ok tt ->
  tombstoned (deleteMessage userId true now this).2.
Proof.
  unfold deleteMessage. destruct (negb _); simpl; [discriminate|]. by split.
Qed.

Lemma editContent_tombstoned newContent userId now this :
  tombstoned this ->
  (editContent newContent userId now this).2 = this
  ∧ ∃ e, (editContent newContent userId now this).1 = Throw e.
Proof.
  intros [Hd _]. unfold editContent. rewrite Hd.
  destruct (negb _); simpl; eauto.
Qed.

Lemma apply_tombstoned this o : tombstoned this -> tombstoned (apply this o).
Proof.
  intros Ht. pose proof Ht as [Hd Hc].
  destruct o as [u n|u n|u e n|u|c u n|u b n|c u n]; simpl.
  - unfold markAsReadBy. repeat case_match; done.
  - unfold markAsDeliveredTo. repeat case_match; done.
  - unfold addReaction. repeat case_match; done.
  - done.
  - by destruct (editContent_tombstoned c u n this Ht) as [-> _].
  - unfold deleteMessage. repeat case_match; done.
  - unfold markAllAsRead_doc. repeat case_match; done.
Qed.

Lemma run_tombstoned ops this : tombstoned this -> tombstoned (run ops this).
Proof.
  revert this. induction ops as [|o ops IH]; intros this Ht; [done|].
  simpl. apply IH. by apply apply_tombstoned.
Qed.

(** *** The claims about single messages *)

(** What [addReaction] leaves of the user's entries: the first one, or
    a new one, carries the emoji and the time of the call; the entries
    the user had beyond the first stay. *)
Lemma filter_mine_update_first_head userId emoji now (rs : list Reaction.t) :
  is_Some (List.find (mine userId) rs) ->
  List.filter (mine userId)
    (update_first (mine userId)
       (fun r => Reaction.mk (Reaction.user r) emoji now) rs)
  = Reaction.mk userId emoji now :: tail (List.filter (mine userId) rs).
Proof.
  induction rs as [|r rs IH]; simpl.
  - intros [? ?]. discriminate.
  - destruct (mine userId r) eqn:Hm; simpl.
    + intros _. unfold mine at 1. simpl.
      unfold mine in Hm. apply bool_decide_eq_true in Hm.
      rewrite (bool_decide_eq_true_2 _ Hm). by rewrite Hm.
    + rewrite Hm. exact IH.
Qed.

Lemma addReaction_mine_head userId emoji now this :
  List.filter (mine userId) (reactions (addReaction userId emoji now this))
  = Reaction.mk userId emoji now
    :: tail (List.filter (mine userId) (reactions this)).
Proof.
  unfold addReaction. fold (mine userId).
  destruct (List.find (mine userId) (reactions this)) eqn:Hf; simpl.
  - apply filter_mine_update_first_head. by eexists.
  - rewrite (filter_mine_fresh _ _ _ _ Hf).
    apply find_none_forall in Hf. by rewrite (filter_none _ _ Hf).
Qed.

(** C5 (as amended). After a user adds reaction [E] and then reaction
    [F] to a message, the user's first entry in the reaction list
    carries emoji [F] and the time of the later call, and the user has
    no entry that was not there before: the entries the user had
    beyond the first stay as they were.  So the user is left with
    exactly one entry, with emoji [F], on every message that listed at
    most one reaction of that user before. *)
Theorem addReaction_twice_one_reaction (M : t) (U : ObjectId)
    (E F : string) (t1 t2 : Date) :
  List.filter (fun r => bool_decide (Reaction.user r = U))
    (reactions (addReaction U F t2 (addReaction U E t1 M)))
  = Reaction.mk U F t2
    :: tail (List.filter (fun r => bool_decide (Reaction.user r = U))
               (reactions M))
  ∧ ((length (List.filter (fun r => bool_decide (Reaction.user r = U))
                (reactions M)) <= 1)%nat ->
     List.filter (fun r => bool_decide (Reaction.user r = U))
       (reactions (addReaction U F t2 (addReaction U E t1 M)))
     = [Reaction.mk U F t2]).
Proof.
  fold (mine U).
  assert (List.filter (mine U)
            (reactions (addReaction U F t2 (addReaction U E t1 M)))
          = Reaction.mk U F t2 :: tail (List.filter (mine U) (reactions M)))
    as Hboth by (by rewrite !addReaction_mine_head).
  split; [exact Hboth|].
  intros Hone. rewrite Hboth.
  destruct (List.filter (mine U) (reactions M)) as [|r [|r' rest]];
    simpl in *; [done|done|lia].
Qed.

Lemma addReaction_twice_one_reaction_witness :
  (length (List.filter (fun r => bool_decide (Reaction.user r = "u2"))
             (reactions Samples.message)) <= 1)%nat
  ∧ List.filter (fun r => bool_decide (Reaction.user r = "u2"))
      (reactions (addReaction "u2" "laugh" 8%Z
                    (addReaction "u2" "thumb" 7%Z Samples.message)))
    = [Reaction.mk "u2" "laugh" 8%Z].
Proof.
  assert (length (List.filter (fun r => bool_decide (Reaction.user r = "u2"))
                    (reactions Samples.message)) <= 1)%nat as H
    by (vm_compute; lia).
  split; [exact H|].
  exact (proj2 (addReaction_twice_one_reaction Samples.message "u2" "thumb"
                  "laugh" 7%Z 8%Z) H).
Defined.

(** A message that lists two reactions of one user still lists two
    after that user has reacted twice more: only the first entry is
    overwritten. *)
Lemma addReaction_twice_duplicate_counterexample :
  let M :=
    with_reactions
      [Reaction.mk "u2" "heart" 5%Z; Reaction.mk "u2" "smile" 6%Z]
      (create 1%Z (mkData "c1" "u1" "hello" text None)) in
  List.filter (fun r => bool_decide (Reaction.user r = "u2"))
    (reactions (addReaction "u2" "laugh" 8%Z (addReaction "u2" "thumb" 7%Z M)))
  = [Reaction.mk "u2" "laugh" 8%Z; Reaction.mk "u2" "smile" 6%Z].
Proof. vm_compute. reflexivity. Qed.

(** C7. Once a message has been deleted for everyone then, whatever
    is done to it afterwards, an edit attempt by any user, the sender
    included, throws, leaves the document as it was, and the content
    is the tombstone text. *)
Theorem edit_after_delete_for_everyone (m0 : t) (S : ObjectId) (t0 : Date)
    (later : list op) (U : ObjectId) (newContent : string) (t1 : Date) :
  (deleteMessage S true t0 m0).1 = Ok tt ->
  let m := run later (deleteMessage S true t0 m0).2 in
  (∃ e, editContent newContent U t1 m = (Throw e, m))
  ∧ content m = tombstone.
Proof.
  intros Hdel m.
  assert (tombstoned m) as Ht
    by (apply run_tombstoned; by apply deleteMessage_everyone_tombstoned).
  destruct (editContent_tombstoned newContent U t1 m Ht) as [H2 [e H1]].
  split; [|apply Ht]. exists e.
  destruct (editContent newContent U t1 m) as [r m']. simpl in *. congruence.
Qed.

Lemma edit_after_delete_for_everyone_witness :
  (deleteMessage "u1" true 9%Z Samples.message).1 = Ok tt
  ∧ (∃ e, editContent "edited" "u1" 11%Z
            (run [MarkAsReadBy "u2" 10%Z] (deleteMessage "u1" true 9%Z Samples.message).2)
          = (Throw e,
             run [MarkAsReadBy "u2" 10%Z] (deleteMessage "u1" true 9%Z Samples.message).2))
  ∧ content (run [MarkAsReadBy "u2" 10%Z] (deleteMessage "u1" true 9%Z Samples.message).2)
    = tombstone.
Proof.
  split; [reflexivity|].
  exact (edit_after_delete_for_everyone Samples.message "u1" 9%Z [MarkAsReadBy "u2" 10%Z]
           "u1" "edited" 11%Z eq_refl).
Defined.

(** C9. The sender of a message is never in its read-by list: not
    when the message is created, and not after any sequence of calls
    of the message methods and of [markAllAsRead], by any users. *)
Theorem sender_never_in_readBy (now : Date) (d : messageData)
    (ops : list op) :
  sender (run ops (create now d)) ∉ readers (run ops (create now d)).
Proof.
  apply (reachable_ind_ops sender_unread).
  - intros. unfold sender_unread, readers. simpl. apply not_elem_of_nil.
  - apply apply_sender_unread.
  - by exists now, d, ops.
Qed.

End MessageFacts.

(** ** Reasoning about handlers *)

Section WpRules.
Context {A B : Type}.
Implicit Types (w : world) (Q : outcome B -> world -> Prop).

Lemma wp_ret (a : A) (Q : outcome A -> world -> Prop) w :
  wp (ret a) Q w <-> Q (Ok a) w.
Proof. reflexivity. Qed.

Lemma wp_throw e (Q : outcome A -> world -> Prop) w :
  wp (throw e) Q w <-> Q (Throw e) w.
Proof. reflexivity. Qed.

Lemma wp_gets (f : world -> A) (Q : outcome A -> world -> Prop) w :
  wp (gets f) Q w <-> Q (Ok (f w)) w.
Proof. reflexivity. Qed.

Lemma wp_modify (f : world -> world) (Q : outcome unit -> world -> Prop) w :
  wp (modify f) Q w <-> Q (Ok tt) (f w).
Proof. reflexivity. Qed.

Lemma wp_bind (m : handler A) (k : A -> handler B) Q w :
  wp (bind m k) Q w
  <-> wp m (fun r w' =>
              match r with
              | Ok a => wp (k a) Q w'
              | Throw e => Q (Throw e) w'
              end) w.
Proof. unfold wp, bind. destruct (m w) as [[a|e] w']; reflexivity. Qed.

Lemma wp_try_catch (body : handler A) (recover : string -> handler A)
    (Q : outcome A -> world -> Prop) w :
  wp (try_catch body recover) Q w
  <-> wp body (fun r w' =>
                 match r with
                 | Ok a => Q (Ok a) w'
                 | Throw e => wp (recover e) Q w'
                 end) w.
Proof. unfold wp, try_catch. destruct (body w) as [[a|e] w']; reflexivity. Qed.

Lemma wp_mono (h : handler A) (Q Q' : outcome A -> world -> Prop) w :
  wp h Q w -> (forall r w', Q r w' -> Q' r w') -> wp h Q' w.
Proof. unfold wp. auto. Qed.

(** A store call either rejects or answers, on a world that differs
    from the one it was made on by the fault schedule only. *)
Lemma wp_await (query : world -> A * world)
    (Q : outcome A -> world -> Prop) w :
  (forall fs, Q (Throw "store error") (set_faults fs w)) ->
  (forall fs, Q (Ok (query (set_faults fs w)).1) (query (set_faults fs w)).2) ->
  wp (await query) Q w.
Proof.
  intros Hthrow Hok. unfold wp, await.
  destruct (faults w) as [|[] fs] eqn:Hf.
  - specialize (Hok []). destruct w; simpl in *; subst.
    by destruct (query _).
  - apply Hthrow.
  - specialize (Hok fs). by destruct (query _).
Qed.

(** With an exhausted schedule the store answers. *)
Lemma wp_await_ok (query : world -> A * world)
    (Q : outcome A -> world -> Prop) w :
  faults w = [] ->
  Q (Ok (query w).1) (query w).2 ->
  wp (await query) Q w.
Proof. intros Hf HQ. unfold wp, await. rewrite Hf. by destruct (query w). Qed.
End WpRules.

Section PreservesRules.
Context (I : world -> Prop).

Lemma preserves_ret {A} (a : A) : preserves I (ret a).
Proof. by intros w. Qed.

Lemma preserves_throw {A} e : preserves I (@throw A e).
Proof. by intros w. Qed.

Lemma preserves_gets {A} (g : world -> A) : preserves I (gets g).
Proof. by intros w. Qed.

Lemma preserves_modify (g : world -> world) :
  (forall w, I w -> I (g w)) -> preserves I (modify g).
Proof. intros H w. apply H. Qed.

Lemma preserves_bind {A B} (m : handler A) (k : A -> handler B) :
  preserves I m -> (forall a, preserves I (k a)) -> preserves I (bind m k).
Proof.
  intros Hm Hk w Hw. unfold bind. specialize (Hm w Hw).
  destruct (m w) as [[a|e] w']; simpl in *; [|done].
  by apply Hk.
Qed.

Lemma preserves_try_catch {A} (body : handler A)
    (recover : string -> handler A) :
  preserves I body -> (forall e, preserves I (recover e)) ->
  preserves I (try_catch body recover).
Proof.
  intros Hb Hr w Hw. unfold try_catch. specialize (Hb w Hw).
  destruct (body w) as [[a|e] w']; simpl in *; [done|].
  by apply Hr.
Qed.

Lemma preserves_await {A} (query : world -> A * world) :
  (forall w b fs, I w -> faults w = b :: fs -> I (set_faults fs w)) ->
  (forall w, I w -> I (query w).2) ->
  preserves I (await query).
Proof.
  intros Hfs Hq w Hw. unfold await.
  destruct (faults w) as [|[] fs] eqn:Hf; simpl.
  - specialize (Hq w Hw). by destruct (query w).
  - by eapply Hfs.
  - specialize (Hq (set_faults fs w) (Hfs _ _ _ Hw Hf)).
    by destruct (query _).
Qed.

Lemma preserves_forM_ {A} (xs : list A) (k : A -> handler unit) :
  (forall x, preserves I (k x)) -> preserves I (forM_ xs k).
Proof.
  intros Hk. induction xs as [|x xs IH]; simpl.
  - apply preserves_ret.
  - apply preserves_bind; auto.
Qed.

Lemma preserves_promise_all {A} (xs : list A) (k : A -> handler unit) :
  (forall x, preserves I (k x)) -> preserves I (promise_all xs k).
Proof.
  intros Hk. induction xs as [|x xs IH]; simpl; [apply preserves_ret|].
  intros w Hw. specialize (Hk x w Hw).
  destruct (k x w) as [[a|e] w']; simpl in *; by apply IH.
Qed.

Lemma wp_preserves {A} (h : handler A) (Q : outcome A -> world -> Prop) w :
  preserves I h -> I w -> (forall r w', I w' -> Q r w') -> wp h Q w.
Proof. intros Hp Hw HQ. apply HQ. by apply Hp. Qed.
End PreservesRules.

Lemma frames_preserves {A B} (f : world -> B) (h : handler A) :
  frames f h <-> forall v, preserves (fun w => f w = v) h.
Proof.
  split.
  - intros H v w Hw. by rewrite H.
  - intros H w. by apply (H (f w) w).
Qed.

Create HintDb handlers.

#[global] Hint Unfold
  emit join leave
  Store.Chat_findById Store.Chat_find_participant Store.Chat_save
  Store.Message_findById Store.Message_save Store.Message_populate
  Store.Message_markAllAsRead Store.User_findByIdAndUpdate
  Store.User_findById_contacts
  SocketHandler.Message_markAsReadBy SocketHandler.Message_markAsDeliveredTo
  SocketHandler.Message_editContent SocketHandler.Message_deleteMessage
  SocketHandler.status_change SocketHandler.mark_one
  SocketHandler.on_connection SocketHandler.on_disconnect
  SocketHandler.on_join_chat SocketHandler.on_leave_chat
  SocketHandler.send_message_try SocketHandler.on_send_message
  SocketHandler.on_edit_message SocketHandler.on_delete_message
  SocketHandler.on_add_reaction SocketHandler.on_remove_reaction
  SocketHandler.on_typing_start SocketHandler.on_typing_stop
  SocketHandler.on_mark_as_read SocketHandler.on_call_initiate
  SocketHandler.on_webrtc_offer SocketHandler.on_webrtc_answer
  SocketHandler.on_webrtc_ice_candidate SocketHandler.on_call_response
  SocketHandler.on_call_end SocketHandler.on_user_added_to_group
  SocketHandler.on_user_removed_from_group
  SocketHandler.on_send_friend_request SocketHandler.on_accept_friend_request
  SocketHandler.on_error
  SocketHandler.typing_cleanup SocketHandler.attach SocketHandler.detach
  : handlers.

(** What is left of a preservation proof once the structure of the
    handler is peeled off: the invariant across one field update. *)
Ltac preserve_side := intros; cbn in *; try congruence; auto.

Lemma preserves_deliver_to (I : world -> Prop) now ps id m :
  (forall w b fs, I w -> faults w = b :: fs -> I (set_faults fs w)) ->
  (forall w ms, I w -> I (set_messages ms w)) ->
  preserves I (SocketHandler.deliver_to now ps id m).
Proof.
  intros Hfs Hms. revert m. induction ps as [|p ps IH]; intros m; simpl.
  - apply preserves_ret.
  - apply preserves_bind; [|intros a; apply IH].
    unfold SocketHandler.Message_markAsDeliveredTo.
    destruct (bool_decide _); [apply preserves_ret|].
    apply preserves_bind; [|intros; apply preserves_ret].
    apply preserves_await; [exact Hfs|]. intros w Hw. by apply Hms.
Qed.

Ltac preserve_step :=
  cbv beta zeta;
  lazymatch goal with
  | |- preserves _ (bind _ _) => apply preserves_bind; [|intros ?]
  | |- preserves _ (try_catch _ _) => apply preserves_try_catch; [|intros ?]
  | |- preserves _ (ret _) => apply preserves_ret
  | |- preserves _ (throw _) => apply preserves_throw
  | |- preserves _ (gets _) => apply preserves_gets
  | |- preserves _ (modify _) => apply preserves_modify; preserve_side
  | |- preserves _ (await _) => apply preserves_await; preserve_side
  | |- preserves _ (forM_ _ _) => apply preserves_forM_; intros ?
  | |- preserves _ (promise_all _ _) => apply preserves_promise_all; intros ?
  | |- preserves _ (SocketHandler.deliver_to _ _ _ _) =>
      apply preserves_deliver_to; preserve_side
  | |- preserves _ (match ?x with _ => _ end) => destruct x
  | |- preserves _ _ => progress autounfold with handlers
  end.

Ltac preserve := repeat preserve_step.

(** One step of running a handler symbolically. *)
Ltac wp_step :=
  lazymatch goal with
  | |- wp (bind _ _) _ _ => apply wp_bind
  | |- wp (try_catch _ _) _ _ => apply wp_try_catch
  | |- wp (ret _) _ _ => apply wp_ret
  | |- wp (throw _) _ _ => apply wp_throw
  | |- wp (gets _) _ _ => apply wp_gets
  | |- wp (modify _) _ _ => apply wp_modify
  | |- wp (emit _ _) _ _ => unfold emit
  | |- wp (join _ _) _ _ => unfold join
  | |- wp (leave _ _) _ _ => unfold leave
  end;
  cbv beta iota.

Ltac wp_run := repeat wp_step.

(** ** The Presence Table *)

Module PresenceFacts.
Import SocketHandler.

(** Only a connect and a disconnect write [activeUsers] and the table
    of live sockets. *)
Lemma dispatch_activeUsers socket now e :
  frames activeUsers (dispatch socket now e).
Proof.
  apply frames_preserves. intros v.
  destruct e; simpl; preserve.
Qed.

Lemma dispatch_sockets socket now e : frames sockets (dispatch socket now e).
Proof.
  apply frames_preserves. intros v.
  destruct e; simpl; preserve.
Qed.

Lemma dispatch_answers socket now e :
  preserves (fun w => faults w = []) (dispatch socket now e).
Proof. destruct e; simpl; preserve. Qed.

(** What a connect and a disconnect do to the table when the store
    answers. *)
Lemma on_connection_presence socket now w :
  faults w = [] ->
  let w' := (on_connection socket now w).2 in
  activeUsers w'
  = <[Socket.userId socket :=
        mkActiveUser (Socket.id socket) (Socket.userId socket)]> (activeUsers w)
  ∧ sockets w' = sockets w
  ∧ faults w' = [].
Proof.
  intros Hf w'. split; [|split].
  - subst w'.
    set (X := <[Socket.userId socket := _]> (activeUsers w)).
    change (wp (on_connection socket now) (fun _ w' => activeUsers w' = X) w).
    unfold on_connection. apply wp_try_catch, wp_bind.
    unfold Store.User_findByIdAndUpdate. apply wp_await_ok; [done|]. simpl.
    apply wp_bind, wp_modify.
    apply (wp_preserves (fun w' => activeUsers w' = X)).
    + preserve.
    + reflexivity.
    + intros [a|e] w1 H1; simpl; auto.
  - assert (frames sockets (on_connection socket now)) as H
      by (apply frames_preserves; intros v; preserve).
    apply H.
  - assert (preserves (fun w => faults w = []) (on_connection socket now)) as H
      by preserve.
    by apply H.
Qed.

Lemma on_disconnect_presence socket now w :
  faults w = [] ->
  let w' := (on_disconnect socket now w).2 in
  activeUsers w' = delete (Socket.userId socket) (activeUsers w)
  ∧ sockets w' = sockets w
  ∧ faults w' = [].
Proof.
  intros Hf w'. split; [|split].
  - subst w'.
    set (X := delete (Socket.userId socket) (activeUsers w)).
    change (wp (on_disconnect socket now) (fun _ w' => activeUsers w' = X) w).
    unfold on_disconnect. apply wp_try_catch, wp_bind.
    unfold Store.User_findByIdAndUpdate. apply wp_await_ok; [done|]. simpl.
    apply wp_bind, wp_modify.
    apply (wp_preserves (fun w' => activeUsers w' = X)).
    + preserve.
    + reflexivity.
    + intros [a|e] w1 H1; simpl; auto.
  - assert (frames sockets (on_disconnect socket now)) as H
      by (apply frames_preserves; intros v; preserve).
    apply H.
  - assert (preserves (fun w => faults w = []) (on_disconnect socket now)) as H
      by preserve.
    by apply H.
Qed.

Lemma step_presence now ev w :
  faults w = [] -> occurs w ev ->
  let w' := step now ev w in
  activeUsers w'
  = match ev with
    | Connect socket =>
        <[Socket.userId socket :=
            mkActiveUser (Socket.id socket) (Socket.userId socket)]>
          (activeUsers w)
    | Disconnect socket => delete (Socket.userId socket) (activeUsers w)
    | _ => activeUsers w
    end
  ∧ sockets w'
    = match ev with
      | Connect socket => <[Socket.id socket := socket]> (sockets w)
      | Disconnect socket => delete (Socket.id socket) (sockets w)
      | _ => sockets w
      end
  ∧ faults w' = [].
Proof.
  intros Hf Hoc. destruct ev as [socket|socket|socket e|]; simpl in *.
  - rewrite Hoc.
    change ((attach socket ;; on_connection socket now) w)
      with (on_connection socket now
              (set_sockets (<[Socket.id socket := socket]> (sockets w)) w)).
    exact (on_connection_presence socket now
             (set_sockets (<[Socket.id socket := socket]> (sockets w)) w) Hf).
  - rewrite bool_decide_eq_true_2 by done.
    change ((detach socket ;; on_disconnect socket now) w)
      with (on_disconnect socket now
              (set_rooms (filter (fun p => p.2 ≠ Socket.id socket) (rooms w))
                 (set_sockets (delete (Socket.id socket) (sockets w)) w))).
    exact (on_disconnect_presence socket now
             (set_rooms (filter (fun p => p.2 ≠ Socket.id socket) (rooms w))
                (set_sockets (delete (Socket.id socket) (sockets w)) w)) Hf).
  - rewrite bool_decide_eq_true_2 by done.
    rewrite dispatch_activeUsers, dispatch_sockets. split; [done|].
    split; [done|]. by apply dispatch_answers.
  - done.
Qed.

Lemma isOnline_latest userId trace w :
  faults w = [] -> feasible w trace ->
  isOnline userId (run trace w) = latest userId trace (isOnline userId w).
Proof.
  revert w. induction trace as [|[now ev] rest IH]; intros w Hf Hfe; [done|].
  destruct Hfe as [Hoc Hfe].
  destruct (step_presence now ev w Hf Hoc) as (Ha & _ & Hf').
  change (run ((now, ev) :: rest) w) with (run rest (step now ev w)).
  rewrite IH by done. unfold isOnline. rewrite Ha.
  destruct ev as [socket|socket|socket e|]; simpl; try done.
  - f_equal. destruct (decide (Socket.userId socket = userId)) as [Hu|Hu].
    + rewrite (bool_decide_eq_true_2 _ Hu). subst userId.
      rewrite lookup_insert_eq. by apply bool_decide_eq_true_2.
    + rewrite (bool_decide_eq_false_2 _ Hu). by rewrite lookup_insert_ne.
  - f_equal. destruct (decide (Socket.userId socket = userId)) as [Hu|Hu].
    + rewrite (bool_decide_eq_true_2 _ Hu). subst userId.
      rewrite lookup_delete_eq. apply bool_decide_eq_false_2. by intros [? ?].
    + rewrite (bool_decide_eq_false_2 _ Hu). by rewrite lookup_delete_ne.
Qed.

Lemma connectionsOf_spec userId w sid :
  sid ∈ connectionsOf userId w
  <-> ∃ s, sockets w !! sid = Some s ∧ Socket.userId s = userId.
Proof.
  unfold connectionsOf. rewrite elem_of_dom. unfold is_Some.
  setoid_rewrite map_lookup_filter_Some. reflexivity.
Qed.

Lemma connectionsOf_nonempty userId w :
  connectionsOf userId w ≠ ∅
  <-> ∃ sid s, sockets w !! sid = Some s ∧ Socket.userId s = userId.
Proof.
  split.
  - intros H. apply set_choose_L in H as [sid H].
    apply connectionsOf_spec in H as [s H]. eauto.
  - intros (sid & s & H) He.
    assert (sid ∈ connectionsOf userId w) as Hin
      by (apply connectionsOf_spec; eauto).
    rewrite He in Hin. by apply not_elem_of_empty in Hin.
Qed.

Lemma tracked_step userId now ev w :
  faults w = [] -> occurs w ev ->
  match ev with
  | Connect socket =>
      Socket.userId socket = userId -> connectionsOf userId w = ∅
  | _ => True
  end ->
  tracked userId w -> tracked userId (step now ev w).
Proof.
  intros Hf Hoc Hone [Hon Huniq].
  destruct (step_presence now ev w Hf Hoc) as (Ha & Hs & _).
  unfold tracked. rewrite Ha, Hs. clear Ha Hs.
  destruct ev as [socket|socket|socket e|]; simpl in *; [| |done|done].
  - destruct (decide (Socket.userId socket = userId)) as [Hu|Hu].
    + assert (forall sid s, sockets w !! sid = Some s ->
                            Socket.userId s ≠ userId) as Hnone.
      { intros sid s Hs Hsu.
        assert (sid ∈ connectionsOf userId w) as Hin
          by (apply connectionsOf_spec; eauto).
        rewrite (Hone Hu) in Hin. by apply not_elem_of_empty in Hin. }
      split.
      * split; [|subst userId; by rewrite lookup_insert_eq].
        intros _. exists (Socket.id socket), socket.
        by rewrite lookup_insert_eq.
      * intros sid1 s1 sid2 s2 H1 Hu1 H2 Hu2.
        destruct (decide (Socket.id socket = sid1)) as [E1|Hn1];
          destruct (decide (Socket.id socket = sid2)) as [E2|Hn2];
          [congruence|..].
        -- rewrite lookup_insert_ne in H2 by done. by destruct (Hnone _ _ H2).
        -- rewrite lookup_insert_ne in H1 by done. by destruct (Hnone _ _ H1).
        -- rewrite lookup_insert_ne in H1 by done. by destruct (Hnone _ _ H1).
    + rewrite lookup_insert_ne by done. split.
      * rewrite Hon. split.
        -- intros (sid & s & Hs & Hsu). exists sid, s. split; [|done].
           rewrite lookup_insert_ne; [done|]. intros <-. congruence.
        -- intros (sid & s & Hs & Hsu). exists sid, s. split; [|done].
           destruct (decide (Socket.id socket = sid)) as [<-|Hn].
           ++ rewrite lookup_insert_eq in Hs. congruence.
           ++ by rewrite lookup_insert_ne in Hs.
      * intros sid1 s1 sid2 s2 H1 Hu1 H2 Hu2.
        destruct (decide (Socket.id socket = sid1)) as [<-|Hn1].
        { rewrite lookup_insert_eq in H1. congruence. }
        destruct (decide (Socket.id socket = sid2)) as [<-|Hn2].
        { rewrite lookup_insert_eq in H2. congruence. }
        rewrite lookup_insert_ne in H1, H2 by done. eauto.
  - assert (forall sid1 s1 sid2 s2,
              delete (Socket.id socket) (sockets w) !! sid1 = Some s1 ->
              Socket.userId s1 = userId ->
              delete (Socket.id socket) (sockets w) !! sid2 = Some s2 ->
              Socket.userId s2 = userId -> sid1 = sid2) as Huniq'.
    { intros sid1 s1 sid2 s2 [_ H1]%lookup_delete_Some Hu1
             [_ H2]%lookup_delete_Some Hu2. eauto. }
    split; [|exact Huniq'].
    destruct (decide (Socket.userId socket = userId)) as [Hu|Hu].
    + subst userId. rewrite lookup_delete_eq. split; [by intros [? ?]|].
      intros (sid & s & [Hne Hs]%lookup_delete_Some & Hsu).
      destruct Hne. eauto.
    + rewrite lookup_delete_ne by done. rewrite Hon. split.
      * intros (sid & s & Hs & Hsu). exists sid, s. split; [|done].
        apply lookup_delete_Some. split; [|done]. intros <-. congruence.
      * intros (sid & s & [_ Hs]%lookup_delete_Some & Hsu). eauto.
Qed.

Lemma tracked_run userId trace w :
  faults w = [] -> feasible w trace -> one_at_a_time userId w trace ->
  tracked userId w -> tracked userId (run trace w).
Proof.
  revert w. induction trace as [|[now ev] rest IH]; intros w Hf Hfe Hone Ht;
    [done|].
  destruct Hfe as [Hoc Hfe]. destruct Hone as [Hev Hone].
  change (run ((now, ev) :: rest) w) with (run rest (step now ev w)).
  apply IH; [|done|done|by apply tracked_step].
  by destruct (step_presence now ev w Hf Hoc) as (_ & _ & ?).
Qed.

Lemma tracked_online userId w :
  tracked userId w ->
  isOnline userId w = true <-> connectionsOf userId w ≠ ∅.
Proof.
  intros [Hon _]. unfold isOnline.
  rewrite bool_decide_eq_true, connectionsOf_nonempty. exact Hon.
Qed.

Lemma tracked_boot userId us cs ms fs : tracked userId (boot us cs ms fs).
Proof.
  split; simpl.
  - rewrite lookup_empty. split; [by intros [? ?]|].
    intros (sid & s & Hs & _). by rewrite lookup_empty in Hs.
  - intros sid1 s1 ? ? Hs. by rewrite lookup_empty in Hs.
Qed.

(** C1 (as amended). The Presence Table holds one entry per identity,
    written by the identity's latest connect and removed by any of its
    disconnects.  On a process started over a store that answers,
    after every feasible sequence of events an identity is reported
    online exactly when the latest connect or disconnect of one of its
    connections was a connect; and as long as the identity never holds
    two connections at once, it is reported online exactly when it has
    a live connection. *)
Theorem presence_follows_latest_connect (us : gmap ObjectId User.t)
    (cs : gmap ObjectId Chat.t) (ms : gmap ObjectId Message.t)
    (trace : list (Date * event)) (I : ObjectId) :
  feasible (boot us cs ms []) trace ->
  isOnline I (run trace (boot us cs ms [])) = latest I trace false
  ∧ (one_at_a_time I (boot us cs ms []) trace ->
     (isOnline I (run trace (boot us cs ms [])) = true
      <-> connectionsOf I (run trace (boot us cs ms [])) ≠ ∅)).
Proof.
  intros Hfe. split.
  - by rewrite isOnline_latest.
  - intros Hone. apply tracked_online.
    apply tracked_run; [done|done|done|apply tracked_boot].
Qed.

Lemma presence_follows_latest_connect_witness :
  feasible Samples.started Samples.one_device
  ∧ isOnline "u2" (run Samples.one_device Samples.started)
    = latest "u2" Samples.one_device false
  ∧ (isOnline "u1" (run Samples.one_device Samples.started) = true
     <-> connectionsOf "u1" (run Samples.one_device Samples.started) ≠ ∅).
Proof.
  assert (feasible Samples.started Samples.one_device) as Hfe
    by (repeat split; vm_compute; reflexivity).
  split; [exact Hfe|]. split.
  - exact (proj1 (presence_follows_latest_connect Samples.people
                    Samples.all_chats ∅ Samples.one_device "u2" Hfe)).
  - apply (proj2 (presence_follows_latest_connect Samples.people
                    Samples.all_chats ∅ Samples.one_device "u1" Hfe)).
    repeat split; intros H; first [discriminate H | vm_compute; reflexivity].
Defined.

(** With two connections of one identity, the disconnect of the
    first leaves the second one live and the identity reported
    offline. *)
Lemma presence_two_devices_counterexample :
  feasible Samples.started Samples.two_devices
  ∧ connectionsOf "u1" (run Samples.two_devices Samples.started) = {["s2"]}
  ∧ connectionsOf "u1" (run Samples.two_devices Samples.started) ≠ ∅
  ∧ isOnline "u1" (run Samples.two_devices Samples.started) = false.
Proof.
  assert (connectionsOf "u1" (run Samples.two_devices Samples.started)
          = {["s2"]}) as H by (vm_compute; reflexivity).
  split; [repeat split; vm_compute; reflexivity|].
  split; [exact H|]. split; [|vm_compute; reflexivity].
  rewrite H. intros He.
  assert ("s2" ∈ (∅ : gset SocketId)) as Hin by (rewrite <- He; set_solver).
  by apply not_elem_of_empty in Hin.
Qed.

End PresenceFacts.

(** ** Typing tracker and call signaling relay *)

Module RelayFacts.
Import SocketHandler.

Lemma emitted_one {A} (h : handler A) w e :
  outbox (h w).2 = outbox w ++ [e] -> emitted h w = [e].
Proof. intros H. unfold emitted. rewrite H. apply drop_app_length. Qed.

(** C8 (as amended). Every [typing_start] from a connection of [I] puts
    [I] in the typing set of the chat and broadcasts one typing-start
    to the other subscribers of the chat's Room, also when [I] is
    already in the typing set. *)
Theorem typing_start_always_broadcasts (socket : Socket.t)
    (C : ObjectId) (w : world) :
  emitted (on_typing_start socket C) w
  = sends (ToRoomExcept (chat_room C) (Socket.id socket))
      (Emit.typing_start (Socket.userId socket) (Socket.username socket) C) w
  ∧ typingUsers (on_typing_start socket C w).2 !! C
    = Some ({[Socket.userId socket]} ∪ default ∅ (typingUsers w !! C)).
Proof.
  set (e := mkEmission (ToRoomExcept (chat_room C) (Socket.id socket))
              (receivers (ToRoomExcept (chat_room C) (Socket.id socket)) w)
              (Emit.typing_start (Socket.userId socket)
                 (Socket.username socket) C)).
  assert (wp (on_typing_start socket C)
            (fun _ w' =>
               outbox w' = outbox w ++ [e]
               ∧ typingUsers w' !! C
                 = Some ({[Socket.userId socket]}
                           ∪ default ∅ (typingUsers w !! C))) w) as [H1 H2].
  { unfold on_typing_start. wp_run.
    destruct (bool_decide (is_Some (typingUsers w !! C))) eqn:Hhas;
      simpl; wp_run; simpl.
    - split; [done|]. by rewrite lookup_insert_eq.
    - split; [done|]. rewrite !lookup_insert_eq.
      apply bool_decide_eq_false in Hhas.
      destruct (typingUsers w !! C) eqn:Hl; [|done].
      destruct Hhas. eauto. }
  split; [by apply emitted_one|done].
Qed.

(** A second [typing_start] of a user already marked typing reaches
    the other subscriber again. *)
Lemma typing_start_repeat_counterexample :
  let w :=
    run (Samples.everybody
           ++ [(4%Z, Client Samples.alice_phone (typing_start "c1"))])
        Samples.started in
  typingUsers w !! "c1" = Some {["u1"]}
  ∧ emitted (on_typing_start Samples.alice_phone "c1") w
    = [mkEmission (ToRoomExcept "chat_c1" "s1") {["s3"]}
         (Emit.typing_start "u1" "alice" "c1")].
Proof. split; vm_compute; reflexivity. Qed.

(** *** Call signaling *)

(** C4 (as amended). A signaling event that names a call id without a
    Call Session is relayed like any other: the offer, the answer,
    the ICE candidate and the call response are forwarded to the room
    of the target identity, [call_end] is announced to the chat's Room
    except the caller; nothing else happens: no error is emitted and
    no Call Session appears or disappears. *)
Theorem signaling_without_session_is_relayed (socket : Socket.t)
    (callId : CallId) (targetUserId chatId : ObjectId) (payload : string)
    (accepted : bool) (w : world) :
  activeCalls w !! callId = None ->
  let from := Socket.userId socket in
  let relayed t p := set_outbox (outbox w ++ sends t p w) w in
  (on_webrtc_offer socket targetUserId payload callId w).2
  = relayed (ToRoom (user_room targetUserId))
      (Emit.webrtc_offer payload callId from)
  ∧ (on_webrtc_answer socket targetUserId payload callId w).2
    = relayed (ToRoom (user_room targetUserId))
        (Emit.webrtc_answer payload callId from)
  ∧ (on_webrtc_ice_candidate socket targetUserId payload callId w).2
    = relayed (ToRoom (user_room targetUserId))
        (Emit.webrtc_ice_candidate payload callId from)
  ∧ (on_call_response socket callId accepted targetUserId w).2
    = relayed (ToRoom (user_room targetUserId))
        (Emit.call_response callId accepted from (caller_of socket))
  ∧ (on_call_end socket callId chatId w).2
    = relayed (ToRoomExcept (chat_room chatId) (Socket.id socket))
        (Emit.call_ended callId from).
Proof.
  intros Hnone from relayed. repeat split; try reflexivity.
  - unfold on_call_response, bind, gets, modify, emit, ret. simpl.
    destruct accepted; simpl; [|reflexivity]. by rewrite Hnone.
  - unfold on_call_end, bind, gets, modify, emit, ret. simpl.
    by rewrite Hnone.
Qed.

Lemma signaling_without_session_is_relayed_witness :
  let w := run Samples.everybody Samples.started in
  activeCalls w !! "ghost" = None
  ∧ (on_webrtc_offer Samples.alice_phone "u2" "sdp" "ghost" w).2
    = set_outbox
        (outbox w ++ sends (ToRoom (user_room "u2"))
                       (Emit.webrtc_offer "sdp" "ghost" "u1") w) w.
Proof.
  intros w. assert (activeCalls w !! "ghost" = None) as H by reflexivity.
  split; [exact H|].
  exact (proj1 (signaling_without_session_is_relayed Samples.alice_phone
                  "ghost" "u2" "c1" "sdp" true w H)).
Defined.

(** An offer for a call id that no session knows reaches the target,
    and the caller hears nothing. *)
Lemma signaling_unknown_call_counterexample :
  let w := run Samples.everybody Samples.started in
  activeCalls w !! "ghost" = None
  ∧ emitted (on_webrtc_offer Samples.alice_phone "u2" "sdp" "ghost") w
    = [mkEmission (ToRoom "user_u2") {["s3"]}
         (Emit.webrtc_offer "sdp" "ghost" "u1")].
Proof. split; vm_compute; reflexivity. Qed.

(** A store call made when the next flag of the schedule is not a
    rejection. *)
Lemma wp_await_answers {A} (query : world -> A * world)
    (Q : outcome A -> world -> Prop) w :
  head (faults w) ≠ Some true ->
  (forall fs, Q (Ok (query (set_faults fs w)).1) (query (set_faults fs w)).2) ->
  wp (await query) Q w.
Proof.
  intros Hh Hok. unfold wp, await.
  destruct (faults w) as [|[] fs] eqn:Hf; [|done|].
  - specialize (Hok []). destruct w; simpl in *; subst.
    by destruct (query _).
  - specialize (Hok fs). by destruct (query _).
Qed.

(** C3 (as amended). When the store answers the chat lookup and finds
    the chat, [call_initiate] succeeds exactly when the caller is one
    of the chat's participants, whatever the type of the chat.  For a
    participant, of a private chat or of a group alike, the relay
    creates the Call Session with the caller as its only participant
    and emits [call_incoming] to the chat's Room except the caller.
    For anyone else it creates no Call Session, emits no
    [call_incoming] and answers ["Access denied"] to the caller. *)
Theorem call_initiate_any_chat (socket : Socket.t) (now : Date)
    (chatId : ObjectId) (callType : string) (callId : CallId) (w : world)
    (c : Chat.t) :
  head (faults w) ≠ Some true ->
  chats w !! chatId = Some c ->
  let h := on_call_initiate socket now chatId callType callId in
  if Chat.isParticipant (Socket.userId socket) c then
    activeCalls (h w).2
    = <[callId := Call.mk chatId callType (Socket.userId socket)
                    [Socket.userId socket] now]> (activeCalls w)
    ∧ emitted h w
      = sends (ToRoomExcept (chat_room chatId) (Socket.id socket))
          (Emit.call_incoming callId callType chatId (caller_of socket)) w
  else
    activeCalls (h w).2 = activeCalls w
    ∧ emitted h w
      = sends (ToSocket (Socket.id socket)) (Emit.error "Access denied") w.
Proof.
  intros Hh Hc h.
  assert (wp h (fun _ w' =>
            if Chat.isParticipant (Socket.userId socket) c then
              activeCalls w'
              = <[callId := Call.mk chatId callType (Socket.userId socket)
                              [Socket.userId socket] now]> (activeCalls w)
              ∧ outbox w'
                = outbox w
                  ++ sends (ToRoomExcept (chat_room chatId) (Socket.id socket))
                       (Emit.call_incoming callId callType chatId
                          (caller_of socket)) w
            else
              activeCalls w' = activeCalls w
              ∧ outbox w'
                = outbox w
                  ++ sends (ToSocket (Socket.id socket))
                       (Emit.error "Access denied") w) w) as H.
  { subst h. unfold on_call_initiate. wp_run.
    unfold Store.Chat_findById. apply wp_await_answers; [done|].
    intros fs. simpl. rewrite Hc.
    destruct (Chat.isParticipant (Socket.userId socket) c); simpl;
      wp_run; by simpl. }
  unfold wp in H.
  destruct (Chat.isParticipant (Socket.userId socket) c);
    destruct H as [H1 H2]; (split; [exact H1|by apply emitted_one]).
Qed.

Lemma call_initiate_any_chat_witness :
  let w := run Samples.everybody Samples.started in
  let h := on_call_initiate Samples.alice_phone 9%Z "c1" "voice" "call0" in
  head (faults w) ≠ Some true
  ∧ activeCalls (h w).2
    = <["call0" := Call.mk "c1" "voice" "u1" ["u1"] 9%Z]> (activeCalls w)
  ∧ emitted h w
    = sends (ToRoomExcept (chat_room "c1") "s1")
        (Emit.call_incoming "call0" "voice" "c1"
           (caller_of Samples.alice_phone)) w.
Proof.
  intros w h.
  assert (head (faults w) ≠ Some true) as H
    by (intros E; vm_compute in E; discriminate E).
  split; [exact H|].
  assert (chats w !! ("c1" : ObjectId) = Some Samples.private_chat) as Hc
    by (vm_compute; reflexivity).
  pose proof (call_initiate_any_chat Samples.alice_phone 9%Z "c1" "voice"
                "call0" w Samples.private_chat H Hc) as T.
  cbv zeta in T.
  change (Chat.isParticipant (Socket.userId Samples.alice_phone)
            Samples.private_chat) with true in T.
  exact T.
Defined.

(** A participant of a group chat starts a call: the session is
    created and both other members are notified. *)
Lemma call_initiate_group_counterexample :
  let w := run Samples.everybody Samples.started in
  let h := on_call_initiate Samples.alice_phone 9%Z "g1" "video" "call1" in
  Chat.type <$> chats w !! "g1" = Some Chat.group
  ∧ activeCalls w !! "call1" = None
  ∧ activeCalls (h w).2 !! "call1"
    = Some (Call.mk "g1" "video" "u1" ["u1"] 9%Z)
  ∧ emitted h w
    = [mkEmission (ToRoomExcept "chat_g1" "s1") {["s3"; "s4"]}
         (Emit.call_incoming "call1" "video" "g1" (mkCaller "u1" "alice" ""))].
Proof. split; [|split; [|split]]; vm_compute; reflexivity. Qed.

End RelayFacts.

(** ** Sending a message *)

Module SendFacts.
Import SocketHandler.









End SendFacts.

(** ** Read receipts through the [mark_as_read] event *)

Module ReadFacts.
Import SocketHandler.

Lemma mark_one_effect socket now msgId w :
  faults w = [] ->
  let r := mark_one socket now msgId w in
  r.1 = Ok tt
  ∧ messages r.2
    = alter (Message.markAsReadBy (Socket.userId socket) now) msgId (messages w)
  ∧ chats r.2 = chats w
  ∧ faults r.2 = [].
Proof.
  intros Hf.
  change (wp (mark_one socket now msgId)
            (fun o w' =>
               o = Ok tt
               ∧ messages w'
                 = alter (Message.markAsReadBy (Socket.userId socket) now) msgId
                     (messages w)
               ∧ chats w' = chats w ∧ faults w' = []) w).
  unfold mark_one. wp_run. unfold Store.Message_findById.
  apply wp_await_ok; [done|]. simpl.
  assert (forall m, messages w !! msgId = Some m ->
            Message.sender m = Socket.userId socket ->
            alter (Message.markAsReadBy (Socket.userId socket) now) msgId
                  (messages w) = messages w) as Hown.
  { intros m Hm Hs. apply map_eq. intros k.
    destruct (decide (k = msgId)) as [->|Hne].
    - rewrite lookup_alter_eq, Hm. simpl. f_equal.
      unfold Message.markAsReadBy. by rewrite bool_decide_eq_true_2.
    - by rewrite lookup_alter_ne. }
  destruct (messages w !! msgId) as [m|] eqn:Hm.
  - unfold Message_markAsReadBy.
    destruct (bool_decide (Message.sender m = Socket.userId socket)) eqn:Hs;
      simpl; wp_run.
    + apply bool_decide_eq_true in Hs. by rewrite (Hown m).
    + unfold Store.Message_save. apply wp_await_ok; [done|]. simpl.
      split; [done|]. split; [|done].
      apply map_eq. intros k. destruct (decide (k = msgId)) as [->|Hne].
      * by rewrite lookup_insert_eq, lookup_alter_eq, Hm.
      * by rewrite lookup_insert_ne, lookup_alter_ne.
  - wp_run. split; [done|]. split; [|done].
    apply map_eq. intros k. destruct (decide (k = msgId)) as [->|Hne].
    + by rewrite lookup_alter_eq, Hm.
    + by rewrite lookup_alter_ne.
Qed.

Lemma promise_all_mark_effect socket now ids w :
  faults w = [] ->
  let r := promise_all ids (mark_one socket now) w in
  r.1 = Ok tt
  ∧ messages r.2 = marked (Socket.userId socket) now ids (messages w)
  ∧ chats r.2 = chats w
  ∧ faults r.2 = [].
Proof.
  revert w. induction ids as [|id ids IH]; intros w Hf; [done|].
  simpl. destruct (mark_one_effect socket now id w Hf) as (H1 & H2 & H3 & H4).
  destruct (mark_one socket now id w) as [o w1]. simpl in *. subst o.
  destruct (IH w1 H4) as (I1 & I2 & I3 & I4).
  split; [done|]. rewrite I2, I3, H2, H3. by split.
Qed.

Lemma on_mark_as_read_effect socket now chatId messageIds w :
  faults w = [] ->
  let w' := (on_mark_as_read socket now chatId messageIds w).2 in
  messages w' = read_effect (Socket.userId socket) now chatId messageIds w
  ∧ chats w' = chats w
  ∧ faults w' = [].
Proof.
  intros Hf.
  change (wp (on_mark_as_read socket now chatId messageIds)
            (fun _ w' =>
               messages w'
               = read_effect (Socket.userId socket) now chatId messageIds w
               ∧ chats w' = chats w ∧ faults w' = []) w).
  unfold on_mark_as_read, read_effect. wp_run. unfold Store.Chat_findById.
  apply wp_await_ok; [done|]. simpl.
  destruct (chats w !! chatId) as [c|]; [|by wp_run].
  destruct (Chat.isParticipant (Socket.userId socket) c); simpl; [|by wp_run].
  wp_run.
  assert (wp (Store.Message_markAllAsRead chatId (Socket.userId socket) now)
            (fun r w' =>
               match r with
               | Ok _ =>
                   wp (emit (ToRoomExcept (chat_room chatId) (Socket.id socket))
                         (Emit.messages_read (Socket.userId socket) chatId
                            messageIds))
                      (fun r w'' =>
                         match r with
                         | Ok _ | Throw _ =>
                             messages w''
                             = Message.markAllAsRead chatId
                                 (Socket.userId socket) now (messages w)
                             ∧ chats w'' = chats w ∧ faults w'' = []
                         end) w'
               | Throw e => False
               end) w) as Hall.
  { unfold Store.Message_markAllAsRead. apply wp_await_ok; [done|]. simpl.
    by wp_run. }
  destruct messageIds as [[|id ids]|].
  - eapply wp_mono; [exact Hall|]. intros [a|e] w' H; [|done].
    eapply wp_mono; [exact H|]. by intros [a'|e'] w'' H'.
  - destruct (promise_all_mark_effect socket now (id :: ids) w Hf)
      as (H1 & H2 & H3 & H4).
    unfold wp at 1.
    destruct (promise_all (id :: ids) (mark_one socket now) w) as [o w1].
    simpl in H1, H2, H3, H4. subst o. simpl. wp_run. simpl. by rewrite H2.
  - eapply wp_mono; [exact Hall|]. intros [a|e] w' H; [|done].
    eapply wp_mono; [exact H|]. by intros [a'|e'] w'' H'.
Qed.

Lemma marked_lookup userId now ids (coll : gmap ObjectId Message.t) k :
  marked userId now ids coll !! k
  = if bool_decide (k ∈ ids)
    then Message.markAsReadBy userId now <$> coll !! k
    else coll !! k.
Proof.
  revert coll. induction ids as [|id ids IH]; intros coll; [done|].
  unfold marked in *. simpl. rewrite IH.
  destruct (decide (k = id)) as [->|Hne].
  - rewrite lookup_alter_eq.
    rewrite (bool_decide_eq_true_2 (id ∈ id :: ids))
      by (apply elem_of_cons; by left).
    case_bool_decide; [|done].
    destruct (coll !! id) as [m|]; [|done]. simpl.
    by rewrite MessageFacts.markAsReadBy_idem.
  - rewrite lookup_alter_ne by done.
    apply (f_equal (fun b : bool =>
                      if b then Message.markAsReadBy userId now <$> coll !! k
                      else coll !! k)).
    apply bool_decide_ext. rewrite elem_of_cons. tauto.
Qed.

Lemma marked_idem userId t1 t2 ids (coll : gmap ObjectId Message.t) :
  marked userId t2 ids (marked userId t1 ids coll) = marked userId t1 ids coll.
Proof.
  apply map_eq. intros k. rewrite !marked_lookup.
  case_bool_decide; [|done].
  destruct (coll !! k) as [m|]; [|done]. simpl.
  by rewrite MessageFacts.markAsReadBy_idem.
Qed.

Lemma read_effect_idem userId t1 t2 chatId messageIds w1 w2 :
  chats w2 = chats w1 ->
  messages w2 = read_effect userId t1 chatId messageIds w1 ->
  read_effect userId t2 chatId messageIds w2 = messages w2.
Proof.
  intros Hc Hm. unfold read_effect in *. rewrite Hc, Hm.
  destruct (chats w1 !! chatId) as [c|]; [|done].
  destruct (Chat.isParticipant userId c); [|done].
  destruct messageIds as [[|id ids]|].
  - apply MessageFacts.markAllAsRead_idem.
  - apply marked_idem.
  - apply MessageFacts.markAllAsRead_idem.
Qed.

(** C6. [mark_as_read] is idempotent: when the store answers, handling
    the event a second time, at any later time, with the same chat and
    the same message ids leaves every message of the collection, and so
    every read-by list, as the first handling left it; this holds for
    explicit message ids and, with [messageIds] omitted or empty, for
    the mark-all-unread variant. *)
Theorem mark_as_read_idempotent (socket : Socket.t) (t1 t2 : Date)
    (chatId : ObjectId) (messageIds : option (list ObjectId)) (w : world) :
  faults w = [] ->
  let once := (on_mark_as_read socket t1 chatId messageIds w).2 in
  let twice := (on_mark_as_read socket t2 chatId messageIds once).2 in
  messages twice = messages once.
Proof.
  intros Hf once twice.
  destruct (on_mark_as_read_effect socket t1 chatId messageIds w Hf)
    as (Hm1 & Hc1 & Hf1).
  destruct (on_mark_as_read_effect socket t2 chatId messageIds once Hf1)
    as (Hm2 & _ & _).
  subst twice. rewrite Hm2.
  by apply (read_effect_idem _ t1 t2 _ _ w).
Qed.

Lemma mark_as_read_idempotent_witness :
  let w := run Samples.conversation Samples.started in
  let once := (on_mark_as_read Samples.bob_phone 7%Z "c1" (Some ["m1"]) w).2 in
  let twice :=
    (on_mark_as_read Samples.bob_phone 8%Z "c1" (Some ["m1"]) once).2 in
  faults w = []
  ∧ Message.readers <$> messages once !! "m1" = Some ["u2"]
  ∧ messages twice = messages once.
Proof.
  intros w once twice.
  assert (faults w = []) as H by (vm_compute; reflexivity).
  split; [exact H|]. split; [vm_compute; reflexivity|].
  exact (mark_as_read_idempotent Samples.bob_phone 7%Z 8%Z "c1" (Some ["m1"]) w H).
Defined.

End ReadFacts.

(** ** Message history *)

Module HistoryFacts.
Import MessagesRoute.

Lemma visible_not_deleted me (msgs : list (ObjectId * Message.t)) :
  Forall not_deleted
    (rev (List.filter (fun msg => negb (Message.isDeletedForUser me msg.2)) msgs)).
Proof.
  apply Forall_rev, Forall_forall. intros msg Hin.
  apply list_elem_of_In, filter_In in Hin as [_ Hv].
  unfold Message.isDeletedForUser in Hv.
  apply negb_true_iff, orb_false_iff in Hv as [Hd _]. exact Hd.
Qed.

(** C10. The history route always answers, and no message of its
    answer has the deleted flag set, whoever asks: the query lets the
    requester's own deleted messages through, and the
    [isDeletedForUser] filter that follows drops every message with the
    flag. *)
Theorem history_excludes_deleted (U chatId : ObjectId) (page limit : qparam)
    (w : world) :
  ∃ r, (get_messages U chatId page limit w).1 = Ok r
       ∧ Forall (fun msg => Message.deleted msg.2 = false) (delivered r).
Proof.
  change (wp (get_messages U chatId page limit)
            (fun o _ => ∃ r, o = Ok r ∧ Forall not_deleted (delivered r)) w).
  unfold get_messages. wp_run.
  destruct (negb _); [wp_run; eexists; split; [done|constructor]|].
  cbv zeta. wp_run. unfold Store.Chat_findById.
  apply wp_await; intros fs; simpl.
  { wp_run. eexists. split; [done|constructor]. }
  destruct (chats w !! chatId) as [c|];
    [|wp_run; eexists; split; [done|constructor]].
  destruct (negb _); [wp_run; eexists; split; [done|constructor]|].
  wp_run. unfold Message_find_history.
  apply wp_await; intros fs'; simpl.
  { wp_run. eexists. split; [done|constructor]. }
  wp_run. unfold Message_count.
  apply wp_await; intros fs''; simpl.
  { wp_run. eexists. split; [done|constructor]. }
  wp_run. eexists. split; [done|]. simpl. apply visible_not_deleted.
Qed.

(** The sender's own deleted message passes the query and is dropped by
    the filter. *)
Example history_own_deleted_message :
  let w :=
    SocketHandler.run
      (Samples.conversation
         ++ [(5%Z, SocketHandler.Client Samples.alice_phone
                     (SocketHandler.delete_message "m1" (Some true)))])
      Samples.started in
  ((fun msg => (msg.1, Message.deleted msg.2))
     <$> default [] (match (Message_find_history "c1" "u1" 0 50 w).1 with
                     | Ok l => Some l
                     | Throw _ => None
                     end))
  = [("m1", true)]
  ∧ delivered (match (get_messages "u1" "c1" absent absent w).1 with
               | Ok r => r
               | Throw _ => status500
               end)
    = [].
Proof. split; vm_compute; reflexivity. Qed.

End HistoryFacts.

(** ** Stored messages carry no receipt of their sender *)

Module StoreFacts.
Import SocketHandler.

Lemma keeps_ret {A} (I : world -> Prop) (a : A) (R : A -> Prop) :
  R a -> keeps I (ret a) R.
Proof. intros Ha w Hw. split; [done|]. intros a' [= <-]. exact Ha. Qed.

Lemma keeps_throw {A} (I : world -> Prop) e (R : A -> Prop) :
  keeps I (@throw A e) R.
Proof. intros w Hw. by split. Qed.

Lemma keeps_bind {A B} (I : world -> Prop) (m : handler A)
    (k : A -> handler B) (R1 : A -> Prop) (R : B -> Prop) :
  keeps I m R1 -> (forall a, R1 a -> keeps I (k a) R) -> keeps I (bind m k) R.
Proof.
  intros Hm Hk w Hw. unfold bind. destruct (Hm w Hw) as [Hw' Hr].
  destruct (m w) as [[a|e] w']; simpl in *; [|by split].
  by apply (Hk a (Hr a eq_refl)).
Qed.

Lemma keeps_try_catch {A} (I : world -> Prop) (body : handler A)
    (recover : string -> handler A) (R : A -> Prop) :
  keeps I body R -> (forall e, keeps I (recover e) R) ->
  keeps I (try_catch body recover) R.
Proof.
  intros Hb Hr w Hw. unfold try_catch. destruct (Hb w Hw) as [Hw' HR].
  destruct (body w) as [[a|e] w']; simpl in *.
  - split; [done|]. intros a' [= <-]. by apply HR.
  - by apply Hr.
Qed.

Lemma keeps_preserves {A} (I : world -> Prop) (h : handler A) :
  preserves I h -> keeps I h (fun _ => True).
Proof. intros H w Hw. split; [by apply H|done]. Qed.

Lemma preserves_keeps {A} (I : world -> Prop) (h : handler A) (R : A -> Prop) :
  keeps I h R -> preserves I h.
Proof. intros H w Hw. by apply H. Qed.

Lemma keeps_findById messageId :
  keeps store_no_own_receipt (Store.Message_findById messageId)
        (fun r => forall m, r = Some m -> Message.no_own_receipt m).
Proof.
  intros w Hw. unfold Store.Message_findById, await.
  destruct (faults w) as [|[] fs]; simpl; (split; [exact Hw|]);
    intros a [= <-] m Hm; by apply (Hw messageId).
Qed.

Lemma preserves_save messageId m :
  Message.no_own_receipt m ->
  preserves store_no_own_receipt (Store.Message_save messageId m).
Proof.
  intros Hm. unfold Store.Message_save, store_no_own_receipt.
  apply preserves_await; [preserve_side|]. intros w Hw. simpl.
  by apply map_Forall_insert_2.
Qed.

Lemma preserves_markAllAsRead chatId userId now :
  preserves store_no_own_receipt (Store.Message_markAllAsRead chatId userId now).
Proof.
  unfold Store.Message_markAllAsRead, store_no_own_receipt.
  apply preserves_await; [preserve_side|]. intros w Hw. simpl.
  unfold Message.markAllAsRead. apply map_Forall_fmap.
  eapply map_Forall_impl; [exact Hw|]. intros k m Hm. simpl.
  apply (MessageFacts.apply_no_own_receipt m
           (Message.MarkAllAsRead chatId userId now) Hm).
Qed.

Lemma keeps_deliver_to now ps messageId m :
  Message.no_own_receipt m ->
  keeps store_no_own_receipt (deliver_to now ps messageId m) (fun _ => True).
Proof.
  revert m. induction ps as [|p ps IH]; intros m Hm; simpl.
  - by apply keeps_ret.
  - apply (keeps_bind _ _ _ Message.no_own_receipt); [|intros a Ha; by apply IH].
    unfold Message_markAsDeliveredTo.
    destruct (bool_decide _); [by apply keeps_ret|]. cbv zeta.
    pose proof (MessageFacts.apply_no_own_receipt m
                  (Message.MarkAsDeliveredTo p now) Hm) as Hm'.
    simpl in Hm'.
    apply (keeps_bind _ _ _ (fun _ => True)).
    + apply keeps_preserves. by apply preserves_save.
    + intros _ _. by apply keeps_ret.
Qed.

(** A step that does not write the collection. *)
Ltac quiet := apply keeps_preserves; unfold store_no_own_receipt; solve [preserve].

Ltac keeps_step :=
  cbv beta zeta;
  lazymatch goal with
  | |- keeps _ (bind (Store.Message_findById _) _) _ =>
      eapply keeps_bind; [apply keeps_findById|];
      let m := fresh "m" in
      let Hm := fresh "Hm" in
      intros [m|] Hm; [specialize (Hm m eq_refl)|clear Hm]
  | |- keeps _ (bind (Store.Message_save _ _) _) _ =>
      eapply keeps_bind;
      [apply keeps_preserves, preserves_save|intros ? _]
  | |- keeps _ (bind (deliver_to _ _ _ _) _) _ =>
      eapply keeps_bind; [apply keeps_deliver_to|intros ? _]
  | |- keeps _ (bind (Store.Message_markAllAsRead _ _ _) _) _ =>
      eapply keeps_bind;
      [apply keeps_preserves, preserves_markAllAsRead|intros ? _]
  | |- keeps _ (bind (promise_all _ _) _) _ =>
      eapply keeps_bind;
      [apply keeps_preserves, preserves_promise_all; intros ?|intros ? _]
  | |- keeps _ (bind (match ?x with _ => _ end) _) _ => destruct x eqn:?
  | |- keeps _ (bind (bind _ _) _) _ =>
      apply (keeps_bind _ _ _ (fun _ => True)); [|intros ? _]
  | |- keeps _ (bind _ _) _ => eapply keeps_bind; [quiet|intros ? _]
  | |- keeps _ (try_catch _ _) _ => apply keeps_try_catch; [|intros ?]
  | |- keeps _ (ret _) _ => by apply keeps_ret
  | |- keeps _ (throw _) _ => apply keeps_throw
  | |- keeps _ (emit _ _) _ => quiet
  | |- keeps _ (match ?x with _ => _ end) _ => destruct x eqn:?
  end.

(** The document a method left, from the equation of its call. *)
Ltac method_result :=
  match goal with
  | E : ?x = (_, ?m') |- Message.no_own_receipt ?m' =>
      replace m' with x.2 by (by rewrite E)
  end.

Lemma create_kept now d : Message.no_own_receipt (Message.create now d).
Proof. apply MessageFacts.create_no_own_receipt. Qed.

Lemma editContent_kept c u now m :
  Message.no_own_receipt m -> Message.no_own_receipt (Message.editContent c u now m).2.
Proof. apply (MessageFacts.apply_no_own_receipt m (Message.EditContent c u now)). Qed.

Lemma deleteMessage_kept u b now m :
  Message.no_own_receipt m -> Message.no_own_receipt (Message.deleteMessage u b now m).2.
Proof. apply (MessageFacts.apply_no_own_receipt m (Message.DeleteMessage u b now)). Qed.

Lemma on_edit_message_store socket now messageId content :
  keeps store_no_own_receipt (on_edit_message socket now messageId content)
        (fun _ => True).
Proof.
  unfold on_edit_message, Message_editContent. repeat keeps_step.
  method_result. by apply editContent_kept.
Qed.

Lemma on_delete_message_store socket now messageId deleteForEveryone :
  keeps store_no_own_receipt
        (on_delete_message socket now messageId deleteForEveryone)
        (fun _ => True).
Proof.
  unfold on_delete_message, Message_deleteMessage. repeat keeps_step.
  all: method_result; by apply deleteMessage_kept.
Qed.

Lemma on_add_reaction_store socket now messageId emoji :
  keeps store_no_own_receipt (on_add_reaction socket now messageId emoji)
        (fun _ => True).
Proof.
  unfold on_add_reaction. repeat keeps_step.
  apply (MessageFacts.apply_no_own_receipt m
           (Message.AddReaction (Socket.userId socket) emoji now) Hm).
Qed.

Lemma on_remove_reaction_store socket messageId :
  keeps store_no_own_receipt (on_remove_reaction socket messageId) (fun _ => True).
Proof.
  unfold on_remove_reaction. repeat keeps_step.
  apply (MessageFacts.apply_no_own_receipt m
           (Message.RemoveReaction (Socket.userId socket)) Hm).
Qed.

Lemma mark_one_store socket now msgId :
  preserves store_no_own_receipt (mark_one socket now msgId).
Proof.
  apply (preserves_keeps _ _ (fun _ => True)).
  unfold mark_one, Message_markAsReadBy. repeat keeps_step.
  apply keeps_preserves, preserves_save.
  apply (MessageFacts.apply_no_own_receipt m
           (Message.MarkAsReadBy (Socket.userId socket) now) Hm).
Qed.

Lemma on_mark_as_read_store socket now chatId messageIds :
  keeps store_no_own_receipt (on_mark_as_read socket now chatId messageIds)
        (fun _ => True).
Proof.
  unfold on_mark_as_read. repeat keeps_step. apply mark_one_store.
Qed.

Lemma on_send_message_store socket now fresh data :
  keeps store_no_own_receipt (on_send_message socket now fresh data) (fun _ => True).
Proof.
  unfold on_send_message, send_message_try. repeat keeps_step.
  all: apply create_kept.
Qed.

Lemma dispatch_store socket now e :
  preserves store_no_own_receipt (dispatch socket now e).
Proof.
  destruct e; simpl;
    try (unfold store_no_own_receipt; solve [preserve]);
    apply (preserves_keeps _ _ (fun _ => True)).
  - apply on_send_message_store.
  - apply on_edit_message_store.
  - apply on_delete_message_store.
  - apply on_add_reaction_store.
  - apply on_remove_reaction_store.
  - apply on_mark_as_read_store.
Qed.

Lemma step_store now ev w : store_no_own_receipt w -> store_no_own_receipt (step now ev w).
Proof.
  intros Hw. destruct ev as [socket|socket|socket e|]; simpl.
  - destruct (sockets w !! Socket.id socket); [done|].
    revert w Hw.
    change (preserves store_no_own_receipt
              (attach socket ;; on_connection socket now)).
    unfold store_no_own_receipt. preserve.
  - destruct (bool_decide _); [|done].
    revert w Hw.
    change (preserves store_no_own_receipt
              (detach socket ;; on_disconnect socket now)).
    unfold store_no_own_receipt. preserve.
  - destruct (bool_decide _); [|done]. by apply dispatch_store.
  - done.
Qed.

Lemma run_store trace w : store_no_own_receipt w -> store_no_own_receipt (run trace w).
Proof.
  revert w. induction trace as [|[now ev] rest IH]; intros w Hw; [done|].
  apply IH. by apply step_store.
Qed.

End StoreFacts.

(** * More properties of the code *)

(** ** Messages: reactions, receipts and who may change what *)

Module MessageMore.
Import Message MessageViews.

Lemma filter_mine_none userId (rs : list Reaction.t) :
  userId ∉ Reaction.user <$> rs ->
  List.filter (fun r => negb (mine userId r)) rs = rs.
Proof.
  induction rs as [|r rs IH]; simpl; [done|].
  rewrite not_elem_of_cons. intros [Hne Hin].
  unfold mine at 1. rewrite bool_decide_eq_false_2 by congruence.
  simpl. by rewrite IH.
Qed.

Lemma filter_not_mine_update_first userId emoji now (rs : list Reaction.t) :
  List.filter (fun r => negb (mine userId r))
    (update_first (mine userId)
       (fun r => Reaction.mk (Reaction.user r) emoji now) rs)
  = List.filter (fun r => negb (mine userId r)) rs.
Proof.
  induction rs as [|r rs IH]; simpl; [done|].
  destruct (mine userId r) eqn:Hm; simpl.
  - unfold mine at 1. simpl. unfold mine in Hm. by rewrite Hm.
  - rewrite Hm. simpl. by rewrite IH.
Qed.

(** Adding a reaction and then removing it is the same as removing:
    whatever the user had before is gone, and a user who had no
    reaction gets the list back as it was. *)
Theorem add_then_remove_reaction (this : t) (U : ObjectId) (E : string)
    (now : Date) :
  removeReaction U (addReaction U E now this) = removeReaction U this
  ∧ (U ∉ reactors this ->
     reactions (removeReaction U (addReaction U E now this)) = reactions this).
Proof.
  assert (removeReaction U (addReaction U E now this) = removeReaction U this)
    as Heq.
  { unfold removeReaction, addReaction. fold (mine U).
    destruct (List.find (mine U) (reactions this)) eqn:Hf; simpl;
      unfold with_reactions; simpl; f_equal.
    - apply filter_not_mine_update_first.
    - rewrite List.filter_app. simpl.
      rewrite bool_decide_eq_true_2 by done. simpl. apply app_nil_r. }
  split; [exact Heq|]. intros Hnot. rewrite Heq.
  unfold removeReaction. simpl. by apply filter_mine_none.
Qed.

Lemma add_then_remove_reaction_witness :
  ("u4" ∉ reactors Samples.message)
  ∧ reactions (removeReaction "u4" (addReaction "u4" "wave" 9%Z Samples.message))
    = reactions Samples.message.
Proof.
  assert ("u4" ∉ reactors Samples.message) as H
    by (apply (bool_decide_unpack _); vm_compute; exact I).
  split; [exact H|].
  exact (proj2 (add_then_remove_reaction Samples.message "u4" "wave" 9%Z) H).
Defined.

Lemma filter_other_update_first U V emoji now (rs : list Reaction.t) :
  U ≠ V ->
  List.filter (mine V)
    (update_first (mine U) (fun r => Reaction.mk (Reaction.user r) emoji now) rs)
  = List.filter (mine V) rs.
Proof.
  intros Hne. induction rs as [|r rs IH]; simpl; [done|].
  destruct (mine U r) eqn:Hm; simpl.
  - unfold mine in *. simpl. apply bool_decide_eq_true in Hm.
    by rewrite !bool_decide_eq_false_2 by congruence.
  - by rewrite IH.
Qed.

Lemma filter_other_removed U V (rs : list Reaction.t) :
  U ≠ V ->
  List.filter (mine V) (List.filter (fun r => negb (mine U r)) rs)
  = List.filter (mine V) rs.
Proof.
  intros Hne. induction rs as [|r rs IH]; simpl; [done|].
  destruct (mine U r) eqn:Hm; simpl.
  - unfold mine in *. apply bool_decide_eq_true in Hm.
    by rewrite bool_decide_eq_false_2 by congruence.
  - by rewrite IH.
Qed.

(** A user's [addReaction] or [removeReaction] never touches the
    reaction of another user. *)
Theorem reaction_of_others_untouched (this : t) (U V : ObjectId) (E : string)
    (now : Date) :
  U ≠ V ->
  List.filter (fun r => bool_decide (Reaction.user r = V))
    (reactions (addReaction U E now this))
  = List.filter (fun r => bool_decide (Reaction.user r = V)) (reactions this)
  ∧ List.filter (fun r => bool_decide (Reaction.user r = V))
      (reactions (removeReaction U this))
    = List.filter (fun r => bool_decide (Reaction.user r = V)) (reactions this).
Proof.
  intros Hne. split.
  - unfold addReaction. fold (mine U) (mine V).
    destruct (List.find (mine U) (reactions this)) eqn:Hf; simpl.
    + by apply filter_other_update_first.
    + rewrite List.filter_app. simpl. unfold mine at 2. simpl.
      rewrite bool_decide_eq_false_2 by done. apply app_nil_r.
  - by apply (filter_other_removed U V).
Qed.

Lemma reaction_of_others_untouched_witness :
  "u2" ≠ "u3"
  ∧ List.filter (fun r => bool_decide (Reaction.user r = "u3"))
      (reactions (addReaction "u2" "wave" 9%Z Samples.message))
    = List.filter (fun r => bool_decide (Reaction.user r = "u3"))
        (reactions Samples.message).
Proof.
  assert ("u2" ≠ "u3") as H by discriminate.
  split; [exact H|].
  exact (proj1 (reaction_of_others_untouched Samples.message "u2" "u3" "wave"
                  9%Z H)).
Defined.

(** *** Receipts *)

Lemma read_by_none_not_in userId (rb : list ReadReceipt.t) :
  List.find (read_by userId) rb = None -> userId ∉ ReadReceipt.user <$> rb.
Proof.
  intros H%find_none_forall. induction H as [|r rs Hr _ IH]; simpl.
  - apply not_elem_of_nil.
  - rewrite not_elem_of_cons. split; [|exact IH].
    unfold read_by in Hr. apply bool_decide_eq_false in Hr. congruence.
Qed.

Lemma existsb_read_by_false userId (rb : list ReadReceipt.t) :
  existsb (read_by userId) rb = false -> userId ∉ ReadReceipt.user <$> rb.
Proof.
  intros H. apply read_by_none_not_in.
  destruct (List.find (read_by userId) rb) eqn:Hf; [|done].
  assert (existsb (read_by userId) rb = true) as Ht
    by (apply find_some_existsb; eauto).
  congruence.
Qed.

Lemma NoDup_snoc {A} (l : list A) (x : A) : NoDup l -> x ∉ l -> NoDup (l ++ [x]).
Proof.
  intros Hl Hx. apply NoDup_app. split; [done|]. split; [|apply NoDup_singleton].
  intros y Hy Hy'. apply list_elem_of_singleton in Hy'. by subst.
Qed.

Lemma apply_readers_NoDup this o :
  NoDup (readers this) -> NoDup (readers (apply this o)).
Proof.
  intros Hnd. destruct o as [u n|u n|u e n|u|c u n|u b n|c u n]; simpl.
  - unfold markAsReadBy. fold (read_by u).
    destruct (bool_decide _); [done|].
    destruct (List.find (read_by u) (readBy this)) eqn:Hf; [done|].
    unfold readers. simpl. rewrite fmap_app. simpl.
    apply NoDup_snoc; [done|]. by apply read_by_none_not_in.
  - unfold markAsDeliveredTo. repeat case_match; done.
  - unfold addReaction. repeat case_match; done.
  - done.
  - unfold editContent. repeat case_match; done.
  - unfold deleteMessage. repeat case_match; done.
  - unfold markAllAsRead_doc.
    destruct (unreadFor c u this) eqn:Hu; [|done].
    unfold readers. simpl. rewrite fmap_app. simpl.
    apply NoDup_snoc; [done|]. apply existsb_read_by_false.
    unfold unreadFor in Hu. rewrite !andb_true_iff in Hu.
    destruct Hu as [[_ Hr] _]. by apply negb_true_iff in Hr.
Qed.

Lemma delivery_none_not_in userId (dl : list Delivery.t) :
  List.find (fun d => bool_decide (Delivery.user d = userId)) dl = None ->
  userId ∉ Delivery.user <$> dl.
Proof.
  intros H%find_none_forall. induction H as [|r rs Hr _ IH]; simpl.
  - apply not_elem_of_nil.
  - rewrite not_elem_of_cons. split; [|exact IH].
    apply bool_decide_eq_false in Hr. congruence.
Qed.

Lemma apply_deliverers_NoDup this o :
  NoDup (deliverers this) -> NoDup (deliverers (apply this o)).
Proof.
  intros Hnd. destruct o as [u n|u n|u e n|u|c u n|u b n|c u n]; simpl.
  - unfold markAsReadBy. repeat case_match; done.
  - unfold markAsDeliveredTo.
    destruct (bool_decide (sender this = u)); [done|].
    destruct (List.find _ (deliveredTo this)) eqn:Hf; [done|].
    apply delivery_none_not_in in Hf.
    unfold deliverers. simpl. rewrite fmap_app. simpl.
    by apply NoDup_snoc.
  - unfold addReaction. repeat case_match; done.
  - done.
  - unfold editContent. repeat case_match; done.
  - unfold deleteMessage. repeat case_match; done.
  - unfold markAllAsRead_doc. repeat case_match; done.
Qed.

(** Called on a document, the methods never list a user twice: when
    no user appears twice among the reactions, among the read receipts
    or among the delivery receipts of a message, the same holds after
    any sequence of method calls on that document. *)
Theorem methods_keep_one_entry_per_user (this : t) (ops : list op) :
  entries_once this -> entries_once (run ops this).
Proof.
  revert this. induction ops as [|o ops IH]; intros this H; [done|].
  apply (IH (apply this o)). destruct H as (H1 & H2 & H3).
  split; [by apply MessageFacts.apply_reactors_NoDup|].
  split; [by apply apply_readers_NoDup|by apply apply_deliverers_NoDup].
Qed.

Lemma methods_keep_one_entry_per_user_witness :
  entries_once Samples.message
  ∧ entries_once
      (run [AddReaction "u2" "wave" 7%Z; MarkAsReadBy "u2" 8%Z;
            MarkAsReadBy "u2" 9%Z; MarkAsDeliveredTo "u3" 9%Z;
            MarkAllAsRead "c1" "u3" 9%Z]
         Samples.message).
Proof.
  assert (entries_once Samples.message) as H.
  { repeat split; apply (bool_decide_unpack _); vm_compute; exact I. }
  split; [exact H|].
  exact (methods_keep_one_entry_per_user _ _ H).
Defined.

Lemma apply_receipts_grow this o :
  readBy this `prefix_of` readBy (apply this o)
  ∧ deliveredTo this `prefix_of` deliveredTo (apply this o).
Proof.
  destruct o as [u n|u n|u e n|u|c u n|u b n|c u n]; simpl.
  - unfold markAsReadBy. repeat case_match; simpl;
      (split; [try done; by apply prefix_app_r|done]).
  - unfold markAsDeliveredTo. repeat case_match; simpl;
      (split; [done|try done; by apply prefix_app_r]).
  - unfold addReaction. repeat case_match; done.
  - done.
  - unfold editContent. repeat case_match; done.
  - unfold deleteMessage. repeat case_match; done.
  - unfold markAllAsRead_doc. repeat case_match; simpl;
      (split; [try done; by apply prefix_app_r|done]).
Qed.

(** Receipts only grow: whatever is done to a message, the read and
    delivery receipts it already has stay, in their order and with
    their timestamps, at the front of the lists; so a message that is
    read, or delivered, stays so. *)
Theorem receipts_only_grow (this : t) (ops : list op) :
  readBy this `prefix_of` readBy (run ops this)
  ∧ deliveredTo this `prefix_of` deliveredTo (run ops this)
  ∧ (isRead this = true -> isRead (run ops this) = true)
  ∧ (isDelivered this = true -> isDelivered (run ops this) = true).
Proof.
  assert (readBy this `prefix_of` readBy (run ops this)
          ∧ deliveredTo this `prefix_of` deliveredTo (run ops this))
    as [H1 H2].
  { revert this. induction ops as [|o ops IH]; intros this; [done|].
    simpl. destruct (apply_receipts_grow this o) as [H1 H2].
    destruct (IH (apply this o)) as [I1 I2].
    split; etrans; eauto. }
  split; [exact H1|]. split; [exact H2|].
  apply prefix_length in H1, H2. unfold isRead, isDelivered.
  rewrite !negb_true_iff, !Nat.eqb_neq. lia.
Qed.

Lemma receipts_only_grow_witness :
  isDelivered RelaySamples.stored_message = true
  ∧ isDelivered (run [MarkAsReadBy "u2" 9%Z; DeleteMessage "u1" true 9%Z]
                   RelaySamples.stored_message) = true.
Proof.
  assert (isDelivered RelaySamples.stored_message = true) as H by reflexivity.
  split; [exact H|].
  exact (proj2 (proj2 (proj2 (receipts_only_grow _ _))) H).
Defined.

(** *** Deleting *)

Lemma existsb_eq_elem_of (userId : ObjectId) (l : list ObjectId) :
  existsb (fun id => bool_decide (id = userId)) l = bool_decide (userId ∈ l).
Proof.
  induction l as [|x l IH]; simpl.
  - done.
  - rewrite IH. destruct (decide (x = userId)) as [->|Hne].
    + rewrite bool_decide_eq_true_2 by done. simpl. symmetry.
      apply bool_decide_eq_true_2. by left.
    + rewrite (bool_decide_eq_false_2 (x = userId)) by done. simpl.
      apply bool_decide_ext. rewrite elem_of_cons.
      split; [tauto|intros [E|E]; [congruence|exact E]].
Qed.

(** A delete "for me" ([deleteForEveryone] false) never throws, hides
    the message from the caller only, and leaves everything but the
    [deletedFor] list as it was; any user may do this to any message. *)
Theorem delete_for_me_hides_only_for_caller (this : t) (U V : ObjectId)
    (now : Date) :
  let r := deleteMessage U false now this in
  r.1 = Ok tt
  ∧ isDeletedForUser U r.2 = true
  ∧ (V ≠ U -> isDeletedForUser V r.2 = isDeletedForUser V this)
  ∧ with_deletedFor (deletedFor this) r.2 = this
  ∧ (deleteMessage U false now r.2).2 = r.2.
Proof.
  unfold deleteMessage, isDeletedForUser. simpl.
  rewrite !existsb_eq_elem_of.
  destruct (decide (U ∈ deletedFor this)) as [Hin|Hnin].
  - rewrite !(bool_decide_eq_true_2 (U ∈ deletedFor this)) by done.
    repeat split; [apply orb_true_r|by destruct this].
  - rewrite !(bool_decide_eq_false_2 (U ∈ deletedFor this)) by done. simpl.
    assert (U ∈ deletedFor this ++ [U]) as Hin
      by (rewrite elem_of_app, list_elem_of_singleton; tauto).
    rewrite !(bool_decide_eq_true_2 _ Hin).
    repeat split; [apply orb_true_r| |by destruct this].
    intros Hne. f_equal. apply bool_decide_ext.
    split.
    + intros [H|H%list_elem_of_singleton]%elem_of_app; [exact H|congruence].
    + intros H. apply elem_of_app. by left.
Qed.

Lemma delete_for_me_hides_only_for_caller_witness :
  "u1" ≠ "u2"
  ∧ isDeletedForUser "u1" (deleteMessage "u2" false 9%Z Samples.message).2
    = isDeletedForUser "u1" Samples.message.
Proof.
  assert ("u1" ≠ "u2") as H by discriminate.
  split; [exact H|].
  exact (proj1 (proj2 (proj2
    (delete_for_me_hides_only_for_caller Samples.message "u2" "u1" 9%Z))) H).
Defined.

(** *** Unread counts *)

Lemma unreadFor_markAllAsRead_doc chatId userId now this :
  unreadFor chatId userId (markAllAsRead_doc chatId userId now this) = false.
Proof.
  unfold markAllAsRead_doc.
  destruct (unreadFor chatId userId this) eqn:Hu; [|done].
  unfold unreadFor in *. simpl. rewrite existsb_app. simpl.
  rewrite (bool_decide_eq_true_2 (userId = userId)) by done.
  rewrite orb_true_r. simpl. by rewrite andb_false_r.
Qed.

Lemma unreadFor_markAllAsRead_doc_other chatId chatId' U V now this :
  V ≠ U ∨ chatId' ≠ chatId ->
  unreadFor chatId' V (markAllAsRead_doc chatId U now this)
  = unreadFor chatId' V this.
Proof.
  intros Hne. unfold markAllAsRead_doc.
  destruct (unreadFor chatId U this) eqn:Hu; [|done].
  unfold unreadFor in *. simpl. rewrite existsb_app. simpl.
  rewrite orb_false_r.
  destruct (decide (U = V)) as [->|HUV].
  - destruct Hne as [?|Hc]; [done|].
    rewrite !andb_true_iff in Hu. destruct Hu as [[[Hc' _] _] _].
    apply bool_decide_eq_true in Hc'.
    by rewrite (bool_decide_eq_false_2 (chat this = chatId')) by congruence.
  - rewrite (bool_decide_eq_false_2 (U = V)) by done. by rewrite orb_false_r.
Qed.

Lemma getUnreadCount_fmap_ext chatId userId (f : t -> t)
    (coll : gmap ObjectId t) :
  (∀ m, unreadFor chatId userId (f m) = unreadFor chatId userId m) ->
  getUnreadCount chatId userId (f <$> coll) = getUnreadCount chatId userId coll.
Proof.
  intros Hf. unfold getUnreadCount.
  rewrite map_filter_fmap, map_size_fmap. f_equal.
  apply map_filter_ext. intros k m _. simpl. by rewrite Hf.
Qed.

(** After [Message.markAllAsRead(chatId, userId)] the user's unread
    count for that chat is zero, whatever the collection holds; the
    count of every other user, and of the same user in every other
    chat, is what it was. *)
Theorem markAllAsRead_clears_unread_count (chatId chatId' U V : ObjectId)
    (now : Date) (coll : gmap ObjectId t) :
  getUnreadCount chatId U (markAllAsRead chatId U now coll) = 0%nat
  ∧ (V ≠ U ∨ chatId' ≠ chatId ->
     getUnreadCount chatId' V (markAllAsRead chatId U now coll)
     = getUnreadCount chatId' V coll).
Proof.
  split.
  - unfold getUnreadCount, markAllAsRead.
    apply map_size_empty_iff, map_empty_filter_2.
    intros k m Hk. simpl. rewrite lookup_fmap in Hk.
    destruct (coll !! k) as [m0|]; simplify_eq/=.
    by rewrite unreadFor_markAllAsRead_doc.
  - intros Hne. apply getUnreadCount_fmap_ext. intros m.
    by apply unreadFor_markAllAsRead_doc_other.
Qed.

Lemma markAllAsRead_clears_unread_count_witness :
  ("u1" ≠ "u2" ∨ "c1" ≠ "c1")
  ∧ getUnreadCount "c1" "u1"
      (markAllAsRead "c1" "u2" 9%Z {["m1" := Samples.message]})
    = getUnreadCount "c1" "u1" {["m1" := Samples.message]}.
Proof.
  assert ("u1" ≠ "u2" ∨ "c1" ≠ "c1") as H by (left; discriminate).
  split; [exact H|].
  exact (proj2 (markAllAsRead_clears_unread_count "c1" "c1" "u2" "u1" 9%Z
                  {["m1" := Samples.message]}) H).
Defined.

(** *** Who may change what *)

Lemma apply_sender this o : sender (apply this o) = sender this.
Proof.
  destruct o; simpl;
    unfold markAsReadBy, markAsDeliveredTo, addReaction, removeReaction,
      editContent, deleteMessage, markAllAsRead_doc;
    repeat case_match; done.
Qed.

Lemma apply_body_of_others this o :
  actor o ≠ sender this ->
  content (apply this o) = content this
  ∧ edited (apply this o) = edited this
  ∧ editedAt (apply this o) = editedAt this
  ∧ deleted (apply this o) = deleted this
  ∧ deletedAt (apply this o) = deletedAt this.
Proof.
  intros Ha. destruct o as [u n|u n|u e n|u|c u n|u b n|c u n]; simpl in *.
  - unfold markAsReadBy. repeat case_match; done.
  - unfold markAsDeliveredTo. repeat case_match; done.
  - unfold addReaction. repeat case_match; done.
  - done.
  - unfold editContent.
    by rewrite (bool_decide_eq_false_2 (sender this = u)) by congruence.
  - unfold deleteMessage.
    rewrite (bool_decide_eq_false_2 (sender this = u)) by congruence.
    simpl. repeat case_match; done.
  - unfold markAllAsRead_doc. repeat case_match; done.
Qed.

(** Only the sender can change the body of a message: whatever the
    other users call, in any order, the content and the edited and
    deleted marks stay as they are. *)
Theorem only_sender_changes_body (this : t) (ops : list op) :
  Forall (fun o => actor o ≠ sender this) ops ->
  content (run ops this) = content this
  ∧ edited (run ops this) = edited this
  ∧ editedAt (run ops this) = editedAt this
  ∧ deleted (run ops this) = deleted this
  ∧ deletedAt (run ops this) = deletedAt this.
Proof.
  revert this. induction ops as [|o ops IH]; intros this Hall; [done|].
  apply Forall_cons in Hall as [Ho Hops]. simpl.
  destruct (apply_body_of_others this o Ho) as (E1 & E2 & E3 & E4 & E5).
  destruct (IH (apply this o)) as (F1 & F2 & F3 & F4 & F5).
  { by rewrite apply_sender. }
  unfold run in *. simpl. repeat split; congruence.
Qed.

Lemma only_sender_changes_body_witness :
  content (run [EditContent "hacked" "u2" 9%Z; DeleteMessage "u2" true 9%Z;
                AddReaction "u2" "wave" 9%Z]
               Samples.message)
  = content Samples.message.
Proof.
  refine (proj1 (only_sender_changes_body Samples.message _ _)).
  repeat constructor; vm_compute; discriminate.
Defined.

End MessageMore.

(** ** models/Chat.js: the methods of a chat document *)

Section MoreListFacts.
Context {A B : Type}.
Implicit Types (p : A -> bool) (l : list A) (f : A -> B).

Lemma elem_of_List_filter p l x : x ∈ List.filter p l <-> x ∈ l ∧ p x = true.
Proof. rewrite !list_elem_of_In. apply filter_In. Qed.

Lemma NoDup_fmap_List_filter f p l :
  NoDup (f <$> l) -> NoDup (f <$> List.filter p l).
Proof.
  induction l as [|x l IH]; simpl; [done|].
  intros [Hx Hnd]%NoDup_cons.
  destruct (p x); simpl; [|by apply IH].
  apply NoDup_cons. split; [|by apply IH].
  intros Hin. apply Hx.
  apply list_elem_of_fmap in Hin as (y & -> & Hin).
  apply list_elem_of_fmap. exists y. split; [done|].
  by apply elem_of_List_filter in Hin as [Hin _].
Qed.

Lemma fmap_update_first f p (g : A -> A) l :
  (∀ x, f (g x) = f x) -> f <$> update_first p g l = f <$> l.
Proof.
  intros Hg. induction l as [|x l IH]; [done|].
  cbn [update_first]. destruct (p x); rewrite !fmap_cons; [by rewrite Hg|].
  by rewrite IH.
Qed.

Lemma NoDup_List_filter p l : NoDup l -> NoDup (List.filter p l).
Proof.
  induction l as [|x l IH]; simpl; [done|].
  intros [Hx Hnd]%NoDup_cons.
  destruct (p x); simpl; [|by apply IH].
  apply NoDup_cons. split; [|by apply IH].
  intros Hin. by apply elem_of_List_filter in Hin as [Hin _].
Qed.

Lemma List_filter_all p l :
  Forall (fun x => p x = true) l -> List.filter p l = l.
Proof. induction 1 as [|x l Hx _ IH]; simpl; [done|]. by rewrite Hx, IH. Qed.

Lemma List_filter_length_lt p l x :
  x ∈ l -> p x = false -> (length (List.filter p l) < length l)%nat.
Proof.
  induction l as [|y l IH]; simpl.
  - by intros ?%elem_of_nil.
  - intros [->|Hin]%elem_of_cons Hp.
    + rewrite Hp. pose proof (List.filter_length_le p l). lia.
    + specialize (IH Hin Hp). destruct (p y); simpl; lia.
Qed.

End MoreListFacts.

Module ChatFacts.
Import ChatDoc.

Lemma without_spec u (l : list ObjectId) x : x ∈ without u l <-> x ∈ l ∧ x ≠ u.
Proof.
  unfold without. rewrite elem_of_List_filter, negb_true_iff.
  by rewrite bool_decide_eq_false.
Qed.

Lemma without_absent u (l : list ObjectId) : u ∉ l -> without u l = l.
Proof.
  intros Hu. apply List_filter_all, Forall_forall. intros x Hx.
  apply negb_true_iff, bool_decide_eq_false. intros ->. done.
Qed.

Lemma unmuted_spec u (ms : list Mute.t) :
  u ∉ Mute.user <$> List.filter (fun m => negb (muted_by u m)) ms.
Proof.
  intros (m & -> & Hin)%list_elem_of_fmap.
  apply elem_of_List_filter in Hin as [_ Hm].
  apply negb_true_iff, bool_decide_eq_false in Hm. done.
Qed.

Lemma muted_none_not_in u (ms : list Mute.t) :
  List.find (muted_by u) ms = None -> u ∉ Mute.user <$> ms.
Proof.
  intros H%find_none_forall. induction H as [|r rs Hr _ IH]; simpl.
  - apply not_elem_of_nil.
  - rewrite not_elem_of_cons. split; [|exact IH].
    unfold muted_by in Hr. apply bool_decide_eq_false in Hr. congruence.
Qed.

(** *** The save hook *)

Lemma preSave_idem (c : Chat.t) : Chat.preSave (Chat.preSave c).2 = Chat.preSave c.
Proof.
  unfold Chat.preSave. destruct c as [n ty ps ads cr lm la st]. simpl.
  destruct ty.
  - destruct (length ps =? 2)%nat eqn:E; simpl; [|by rewrite E].
    by rewrite E.
  - set (ads' := match cr with
                 | Some c => if bool_decide (c ∈ ads) then ads else ads ++ [c]
                 | None => ads
                 end).
    assert (match cr with
            | Some c => if bool_decide (c ∈ ads') then ads' else ads' ++ [c]
            | None => ads'
            end = ads') as Hads.
    { subst ads'. destruct cr as [c|]; [|done].
      destruct (decide (c ∈ ads)) as [Hin|Hnin].
      - by rewrite !(bool_decide_eq_true_2 _ Hin).
      - rewrite (bool_decide_eq_false_2 _ Hnin).
        rewrite bool_decide_eq_true_2; [done|].
        apply elem_of_app. right. by apply list_elem_of_singleton. }
    destruct (length ps <? 2)%nat eqn:E; simpl; [by rewrite E, Hads|].
    destruct n as [[|a s]|]; simpl; by rewrite E, Hads.
Qed.

Lemma save_well_formed this :
  (save this).1 = Ok tt -> well_formed (save this).2.
Proof.
  unfold save, well_formed, type, participants, name, admins, creator.
  destruct this as [[n ty ps ads cr lm la st] ms pn]. unfold Chat.preSave.
  simpl. destruct ty; simpl.
  - destruct (length ps =? 2)%nat eqn:E; simpl; [|done].
    intros _. unfold participantCount. simpl. by apply Nat.eqb_eq in E.
  - destruct (length ps <? 2)%nat eqn:E; simpl; [done|].
    apply Nat.ltb_ge in E.
    destruct n as [[|a s]|]; simpl; try done.
    intros _. split; [exact E|]. split; [by eexists|].
    intros c ->. destruct (decide (c ∈ ads)) as [Hin|Hnin].
    + by rewrite (bool_decide_eq_true_2 _ Hin).
    + rewrite (bool_decide_eq_false_2 _ Hnin).
      apply elem_of_app. right. by apply list_elem_of_singleton.
Qed.

Lemma save_idempotent (this : t) : save (save this).2 = save this.
Proof. unfold save. simpl. rewrite preSave_idem. by destruct this. Qed.

Lemma call_is_save (o : op) (this : t) :
  (call o this).1 = Ok tt -> ∃ d, call o this = save d.
Proof.
  destruct o; cbn [call];
    unfold addParticipant, removeParticipant, addAdmin, muteForUser,
      unmuteForUser, pinForUser, unpinForUser;
    try (intros _; by eexists).
  unfold removeAdmin. case_bool_decide; [done|]. intros _. by eexists.
Qed.

(** Every method of a chat document that resolves leaves the document
    as the save hook wants it: a private chat with exactly two
    participants, no name and no admins; a group with at least two
    participants, a name, and its creator among the admins.  Saving
    that document again resolves and changes nothing. *)
Theorem chat_method_success_well_formed (o : op) (this : t) :
  (call o this).1 = Ok tt ->
  well_formed (call o this).2
  ∧ save (call o this).2 = (Ok tt, (call o this).2).
Proof.
  intros Hok. destruct (call_is_save o this Hok) as [d Hd].
  rewrite Hd in *. split; [by apply save_well_formed|].
  rewrite save_idempotent. destruct (save d) as [r d']. simpl in *. by subst.
Qed.

Lemma chat_method_success_well_formed_witness :
  (call (AddParticipant "u4") ChatSamples.group_doc).1 = Ok tt
  ∧ well_formed (call (AddParticipant "u4") ChatSamples.group_doc).2.
Proof.
  assert ((call (AddParticipant "u4") ChatSamples.group_doc).1 = Ok tt) as H
    by (vm_compute; reflexivity).
  split; [exact H|].
  exact (proj1 (chat_method_success_well_formed _ _ H)).
Defined.

(** What [save()] can do to the lists of the document. *)
Lemma save_participants this : participants (save this).2 = participants this.
Proof.
  unfold save, participants, Chat.preSave.
  destruct this as [[n ty ps ads cr lm la st] ms pn]. simpl.
  destruct ty; simpl; repeat case_match; done.
Qed.

Lemma save_creator this : creator (save this).2 = creator this.
Proof.
  unfold save, creator, Chat.preSave.
  destruct this as [[n ty ps ads cr lm la st] ms pn]. simpl.
  destruct ty; simpl; repeat case_match; done.
Qed.

Lemma save_type this : type (save this).2 = type this.
Proof.
  unfold save, type, Chat.preSave.
  destruct this as [[n ty ps ads cr lm la st] ms pn]. simpl.
  destruct ty; simpl; repeat case_match; done.
Qed.

Lemma save_admins this :
  admins (save this).2 = []
  ∨ admins (save this).2 = admins this
  ∨ ∃ c, creator this = Some c ∧ (c ∉ admins this)
         ∧ admins (save this).2 = admins this ++ [c].
Proof.
  unfold save, admins, creator, Chat.preSave.
  destruct this as [[n ty ps ads cr lm la st] ms pn]. simpl.
  destruct ty; simpl.
  - destruct (length ps =? 2)%nat; simpl; auto.
  - assert (∀ x y : outcome unit * Chat.t, x.2 = y.2 ->
            ∀ b : bool, (if b then x else y).2 = x.2) as Hif
      by (intros ? ? ? []; congruence).
    destruct cr as [c|].
    + destruct (decide (c ∈ ads)) as [Hin|Hnin].
      * rewrite (bool_decide_eq_true_2 _ Hin). right. left.
        repeat case_match; done.
      * rewrite (bool_decide_eq_false_2 _ Hnin). right. right.
        exists c. split; [done|]. split; [done|]. repeat case_match; done.
    + right. left. repeat case_match; done.
Qed.

Lemma save_group_creator this c :
  type this = Chat.group -> creator this = Some c -> c ∈ admins (save this).2.
Proof.
  unfold save, admins, creator, type, Chat.preSave.
  destruct this as [[n ty ps ads cr lm la st] ms pn]. simpl.
  intros -> ->.
  assert (c ∈ (if bool_decide (c ∈ ads) then ads else ads ++ [c])) as Hc.
  { case_bool_decide; [done|].
    apply elem_of_app. right. by apply list_elem_of_singleton. }
  repeat case_match; done.
Qed.

Lemma save_mutedBy this : mutedBy (save this).2 = mutedBy this.
Proof. done. Qed.

Lemma save_pinnedBy this : pinnedBy (save this).2 = pinnedBy this.
Proof. done. Qed.

Lemma save_tidy this : tidy this -> tidy (save this).2.
Proof.
  intros (Hp & Ha & Hn & Hm). unfold tidy, muters.
  rewrite save_participants, save_mutedBy, save_pinnedBy.
  split; [done|]. split; [|done].
  destruct (save_admins this) as [->|[->|(c & _ & Hc & ->)]].
  - apply NoDup_nil_2.
  - done.
  - by apply MessageMore.NoDup_snoc.
Qed.

Lemma save_admins_inside this : admins_inside this -> admins_inside (save this).2.
Proof.
  intros Hin a. rewrite save_participants, save_creator.
  destruct (save_admins this) as [->|[->|(c & Hc & _ & ->)]].
  - by intros ?%elem_of_nil.
  - apply Hin.
  - intros [Ha|Ha%list_elem_of_singleton]%elem_of_app; [by apply Hin|].
    right. congruence.
Qed.

(** *** Private chats *)

Lemma without_length_present u (l : list ObjectId) :
  u ∈ l -> (length (without u l) < length l)%nat.
Proof.
  intros Hu. apply (List_filter_length_lt _ l u Hu).
  apply negb_false_iff, bool_decide_eq_true. done.
Qed.

(** A private chat keeps its two participants: adding someone who is
    not in it, and removing someone who is, are both rejected by the
    save hook. *)
Theorem private_chat_keeps_its_two (this : t) (u : ObjectId) :
  type this = Chat.private ->
  length (participants this) = 2%nat ->
  ((addParticipant u this).1 = Ok tt <-> u ∈ participants this)
  ∧ ((removeParticipant u this).1 = Ok tt <-> u ∉ participants this).
Proof.
  unfold type, participants.
  destruct this as [[n ty ps ads cr lm la st] ms pn]. simpl.
  intros -> Hlen. split.
  - unfold addParticipant, save, Chat.preSave, participants. simpl.
    destruct (decide (u ∈ ps)) as [Hin|Hnin].
    + rewrite (bool_decide_eq_true_2 _ Hin). simpl. rewrite Hlen. simpl. done.
    + rewrite (bool_decide_eq_false_2 _ Hnin). simpl.
      rewrite length_app, Hlen. simpl. done.
  - unfold removeParticipant, save, Chat.preSave, participants. simpl.
    destruct (decide (u ∈ ps)) as [Hin|Hnin].
    + pose proof (without_length_present u ps Hin) as Hlt.
      destruct (length (without u ps) =? 2)%nat eqn:E.
      * apply Nat.eqb_eq in E. lia.
      * simpl. done.
    + rewrite (without_absent u ps Hnin), Hlen. simpl. done.
Qed.

Lemma private_chat_keeps_its_two_witness :
  type ChatSamples.private_doc = Chat.private
  ∧ length (participants ChatSamples.private_doc) = 2%nat
  ∧ ((addParticipant "u3" ChatSamples.private_doc).1 = Ok tt
     <-> "u3" ∈ participants ChatSamples.private_doc).
Proof.
  assert (type ChatSamples.private_doc = Chat.private) as H1 by reflexivity.
  assert (length (participants ChatSamples.private_doc) = 2%nat) as H2
    by reflexivity.
  split; [exact H1|]. split; [exact H2|].
  exact (proj1 (private_chat_keeps_its_two ChatSamples.private_doc "u3" H1 H2)).
Defined.

(** *** Leaving a chat *)

(** [removeParticipant] takes the user out of the participants, the
    pins and the mutes, whether or not the save resolves; out of the
    admins too unless the user is the creator, whom the save hook of a
    group puts back. *)
Theorem removeParticipant_forgets_user (this : t) (u : ObjectId) :
  let r := (removeParticipant u this).2 in
  (u ∉ participants r)
  ∧ (u ∉ pinnedBy r)
  ∧ (u ∉ muters r)
  ∧ (creator this ≠ Some u -> u ∉ admins r)
  ∧ (type this = Chat.group -> creator this = Some u -> u ∈ admins r).
Proof.
  unfold removeParticipant.
  set (d := with_mutedBy _ _).
  assert (participants d = without u (participants this)) as Hp by done.
  assert (admins d = without u (admins this)) as Ha by done.
  assert (creator d = creator this) as Hc by done.
  assert (type d = type this) as Ht by done.
  cbv zeta. rewrite save_participants, Hp.
  split; [|split; [|split; [|split]]].
  - rewrite without_spec. tauto.
  - change (pinnedBy (save d).2) with (without u (pinnedBy this)).
    rewrite without_spec. tauto.
  - apply unmuted_spec.
  - intros Hne.
    destruct (save_admins d) as [->|[->|(c & Hcr & _ & ->)]].
    + apply not_elem_of_nil.
    + rewrite Ha, without_spec. tauto.
    + rewrite Ha, elem_of_app, without_spec, list_elem_of_singleton.
      intros [[_ ?]| ->]; [done|]. congruence.
  - intros Hty Hcr. apply save_group_creator; congruence.
Qed.

Lemma removeParticipant_forgets_user_witness :
  ChatDoc.type ChatSamples.group_doc = Chat.group
  ∧ creator ChatSamples.group_doc = Some "u1"
  ∧ ("u1" ∉ participants (removeParticipant "u1" ChatSamples.group_doc).2)
  ∧ "u1" ∈ admins (removeParticipant "u1" ChatSamples.group_doc).2.
Proof.
  assert (ChatDoc.type ChatSamples.group_doc = Chat.group) as H1
    by reflexivity.
  assert (creator ChatSamples.group_doc = Some "u1") as H2 by reflexivity.
  split; [exact H1|]. split; [exact H2|].
  pose proof (removeParticipant_forgets_user ChatSamples.group_doc "u1") as H.
  cbv zeta in H. destruct H as (Hp & _ & _ & _ & Ha).
  split; [exact Hp|exact (Ha H1 H2)].
Defined.

(** *** Invariants of the lists *)

Lemma mutate_tidy_mute u d now this :
  NoDup (muters this) ->
  NoDup (Mute.user <$>
    match List.find (muted_by u) (mutedBy this) with
    | Some _ =>
        update_first (muted_by u)
          (fun m => Mute.mk (Mute.user m) (mute_expiry d now)) (mutedBy this)
    | None => mutedBy this ++ [Mute.mk u (mute_expiry d now)]
    end).
Proof.
  intros Hnd. destruct (List.find _ _) eqn:Hf.
  - by rewrite fmap_update_first.
  - rewrite fmap_app. simpl. apply MessageMore.NoDup_snoc; [done|].
    by apply muted_none_not_in.
Qed.

(** No method of a chat document introduces a duplicate: when no user
    is named twice among the participants, the admins, the pins or the
    mutes, the same holds after any call, resolved or rejected. *)
Theorem chat_methods_keep_lists_tidy (o : op) (this : t) :
  tidy this -> tidy (call o this).2.
Proof.
  intros Ht. pose proof Ht as (Hp & Ha & Hn & Hm).
  destruct o as [u|u|u|u|u d now|u|u|u]; cbn [call].
  - unfold addParticipant. apply save_tidy.
    case_bool_decide; [done|]. split; [|done].
    by apply MessageMore.NoDup_snoc.
  - unfold removeParticipant. apply save_tidy.
    split; [by apply NoDup_List_filter|].
    split; [by apply NoDup_List_filter|].
    split; [by apply NoDup_List_filter|].
    by apply NoDup_fmap_List_filter.
  - unfold addAdmin. apply save_tidy.
    destruct (bool_decide (u ∈ participants this)); simpl; [|done].
    case_bool_decide; simpl; [done|].
    split; [done|]. split; [|done]. by apply MessageMore.NoDup_snoc.
  - unfold removeAdmin. case_bool_decide; [done|]. apply save_tidy.
    split; [done|]. split; [|done]. by apply NoDup_List_filter.
  - unfold muteForUser. apply save_tidy.
    pose proof (mutate_tidy_mute u d now this Hm) as Hm'.
    destruct (List.find _ _); (split; [done|]; split; [done|]; split; done).
  - unfold unmuteForUser. apply save_tidy.
    split; [done|]. split; [done|]. split; [done|].
    by apply NoDup_fmap_List_filter.
  - unfold pinForUser. apply save_tidy.
    case_bool_decide; [done|].
    split; [done|]. split; [done|]. split; [|done].
    by apply MessageMore.NoDup_snoc.
  - unfold unpinForUser. apply save_tidy.
    split; [done|]. split; [done|]. split; [|done].
    by apply NoDup_List_filter.
Qed.

Lemma chat_methods_keep_lists_tidy_witness :
  tidy ChatSamples.group_doc
  ∧ tidy (call (MuteForUser "u2" (Some 60000%Z) 5%Z) ChatSamples.group_doc).2.
Proof.
  assert (tidy ChatSamples.group_doc) as H.
  { repeat split; apply (bool_decide_unpack _); vm_compute; exact I. }
  split; [exact H|].
  exact (chat_methods_keep_lists_tidy _ _ H).
Defined.

(** Admins stay inside the chat: when every admin is a participant or
    the creator, the same holds after any call, resolved or
    rejected. *)
Theorem chat_methods_keep_admins_inside (o : op) (this : t) :
  admins_inside this -> admins_inside (call o this).2.
Proof.
  intros Hin.
  destruct o as [u|u|u|u|u d now|u|u|u]; cbn [call].
  - unfold addParticipant. apply save_admins_inside.
    case_bool_decide; [done|]. intros a Ha.
    destruct (Hin a Ha) as [H'|H']; [left|by right].
    apply elem_of_app. by left.
  - unfold removeParticipant. apply save_admins_inside.
    intros a [Ha Hne]%without_spec.
    destruct (Hin a Ha) as [H'|H']; [left|by right].
    by apply without_spec.
  - unfold addAdmin. apply save_admins_inside.
    destruct (decide (u ∈ participants this)) as [Hu|Hu].
    + rewrite (bool_decide_eq_true_2 _ Hu). simpl.
      case_bool_decide; simpl; [done|].
      intros a [Ha|Ha%list_elem_of_singleton]%elem_of_app; [by apply Hin|].
      left. by subst.
    + by rewrite (bool_decide_eq_false_2 _ Hu).
  - unfold removeAdmin. case_bool_decide; [done|]. apply save_admins_inside.
    intros a [Ha Hne]%without_spec. by apply Hin.
  - unfold muteForUser. apply save_admins_inside.
    destruct (List.find _ _); done.
  - unfold unmuteForUser. by apply save_admins_inside.
  - unfold pinForUser. apply save_admins_inside. case_bool_decide; done.
  - unfold unpinForUser. by apply save_admins_inside.
Qed.

Lemma chat_methods_keep_admins_inside_witness :
  admins_inside ChatSamples.group_doc
  ∧ admins_inside (call (RemoveParticipant "u1") ChatSamples.group_doc).2.
Proof.
  assert (admins_inside ChatSamples.group_doc) as H.
  { intros a Ha. left. revert Ha. unfold admins, participants. simpl.
    rewrite !elem_of_cons. tauto. }
  split; [exact H|].
  exact (chat_methods_keep_admins_inside _ _ H).
Defined.

(** *** Mutes and pins *)

Lemma unmuted_absent u (ms : list Mute.t) :
  u ∉ Mute.user <$> ms ->
  List.filter (fun m => negb (muted_by u m)) ms = ms.
Proof.
  intros Hu. apply List_filter_all, Forall_forall. intros m Hm.
  apply negb_true_iff, bool_decide_eq_false. intros E. apply Hu.
  apply list_elem_of_fmap. by exists m.
Qed.

(** Muting shows in [isMuted]; and mute then unmute, and pin then
    unpin, are round trips on the lists: a user who had no mute and no
    pin has none afterwards, and the entries of the other users are as
    they were. *)
Theorem mute_and_pin_round_trip (this : t) (u : ObjectId) (d : option Z)
    (now : Date) :
  u ∉ muters this -> u ∉ pinnedBy this ->
  isMuted (muteForUser u d now this).2 = true
  ∧ mutedBy (unmuteForUser u (muteForUser u d now this).2).2 = mutedBy this
  ∧ pinnedBy (unpinForUser u (pinForUser u this).2).2 = pinnedBy this.
Proof.
  intros Hm Hp. split; [|split].
  - unfold isMuted, muteForUser. rewrite save_mutedBy.
    destruct (List.find (muted_by u) (mutedBy this)) as [m|] eqn:Hf.
    + apply find_some in Hf as [Hin Hmu]. exfalso. apply Hm.
      apply bool_decide_eq_true in Hmu. apply list_elem_of_fmap.
      exists m. split; [done|]. by apply list_elem_of_In.
    + cbn [with_mutedBy mutedBy]. rewrite length_app. simpl.
      apply negb_true_iff, Nat.eqb_neq. lia.
  - unfold unmuteForUser, muteForUser.
    rewrite !save_mutedBy. cbn [with_mutedBy mutedBy].
    destruct (List.find (muted_by u) (mutedBy this)) as [m|] eqn:Hf.
    + apply find_some in Hf as [Hin Hmu]. exfalso. apply Hm.
      apply bool_decide_eq_true in Hmu. apply list_elem_of_fmap.
      exists m. split; [done|]. by apply list_elem_of_In.
    + cbn [with_mutedBy mutedBy]. rewrite List.filter_app. simpl.
      unfold muted_by at 2. simpl.
      rewrite (bool_decide_eq_true_2 (u = u)) by done. simpl.
      rewrite app_nil_r. by apply unmuted_absent.
  - unfold unpinForUser, pinForUser.
    rewrite !save_pinnedBy. cbn [with_pinnedBy pinnedBy].
    rewrite (bool_decide_eq_false_2 _ Hp). cbn [with_pinnedBy pinnedBy].
    unfold without. rewrite List.filter_app. simpl.
    rewrite (bool_decide_eq_true_2 (u = u)) by done. simpl.
    rewrite app_nil_r. by apply without_absent.
Qed.

Lemma mute_and_pin_round_trip_witness :
  ("u1" ∉ muters ChatSamples.group_doc)
  ∧ ("u1" ∉ pinnedBy ChatSamples.group_doc)
  ∧ mutedBy (unmuteForUser "u1"
               (muteForUser "u1" None 5%Z ChatSamples.group_doc).2).2
    = mutedBy ChatSamples.group_doc.
Proof.
  assert ("u1" ∉ muters ChatSamples.group_doc) as H1
    by (apply (bool_decide_unpack _); vm_compute; exact I).
  assert ("u1" ∉ pinnedBy ChatSamples.group_doc) as H2
    by (apply (bool_decide_unpack _); vm_compute; exact I).
  split; [exact H1|]. split; [exact H2|].
  exact (proj1 (proj2 (mute_and_pin_round_trip ChatSamples.group_doc "u1" None
                         5%Z H1 H2))).
Defined.

End ChatFacts.

(** ** models/Chat.js: the private chat of two users *)

Module ChatStoreFacts.
Import ChatStore.

Lemma private_of_swap u1 u2 (cs : gmap ObjectId Chat.t) :
  filter (fun kv => private_of u2 u1 kv.2) cs
  = filter (fun kv => private_of u1 u2 kv.2) cs.
Proof. apply map_filter_ext. intros k c _. unfold private_of. tauto. Qed.

Lemma head_map_to_list_lookup {A} (m : gmap ObjectId A) k x :
  head (map_to_list m) = Some (k, x) -> m !! k = Some x.
Proof.
  intros H. apply elem_of_map_to_list.
  destruct (map_to_list m) as [|y l]; [done|].
  simpl in H. injection H as ->. by left.
Qed.

Lemma head_map_to_list_None {A} (m : gmap ObjectId A) :
  head (map_to_list m) = None -> m = ∅.
Proof.
  intros H. apply map_to_list_empty_iff.
  by destruct (map_to_list m).
Qed.

Lemma find_private_again fresh now u1 u2 w id c :
  faults w = [] ->
  head (map_to_list (filter (fun kv => private_of u1 u2 kv.2) (chats w)))
  = Some (id, c) ->
  findOrCreatePrivateChat fresh now u1 u2 w = (Ok (id, c), w)
  ∧ findOrCreatePrivateChat fresh now u2 u1 w = (Ok (id, c), w).
Proof.
  intros Hf Hhead.
  unfold findOrCreatePrivateChat, bind, Chat_findOne_private, await.
  rewrite Hf, (private_of_swap u1 u2), Hhead. done.
Qed.

Lemma find_private_first fresh now u1 u2 w :
  faults w = [] ->
  ∃ id c w',
    findOrCreatePrivateChat fresh now u1 u2 w = (Ok (id, c), w')
    ∧ faults w' = []
    ∧ head (map_to_list (filter (fun kv => private_of u1 u2 kv.2) (chats w')))
      = Some (id, c).
Proof.
  intros Hf.
  unfold findOrCreatePrivateChat, bind, Chat_findOne_private, await.
  rewrite Hf.
  destruct (head (map_to_list
              (filter (fun kv => private_of u1 u2 kv.2) (chats w))))
    as [[id c]|] eqn:Hhead.
  - by exists id, c, w.
  - apply head_map_to_list_None in Hhead.
    unfold Store.Chat_save. simpl. unfold await. rewrite Hf. simpl.
    eexists _, _, _. split; [reflexivity|]. split; [done|]. simpl.
    rewrite map_filter_insert_True
      by (split; [done|]; simpl; rewrite !elem_of_cons; tauto).
    rewrite Hhead. by rewrite insert_empty, map_to_list_singleton.
Qed.

(** One private chat per pair.  When the store answers,
    [findOrCreatePrivateChat] gives a private chat that both users are
    participants of and that is in the store; and asking again, for
    the two users in either order, gives that very chat and changes
    nothing. *)
Theorem private_chat_found_again (fresh fresh' : ObjectId) (now now' : Date)
    (u1 u2 : ObjectId) (w : world) :
  faults w = [] ->
  let r := findOrCreatePrivateChat fresh now u1 u2 w in
  ∃ id c,
    r.1 = Ok (id, c)
    ∧ private_of u1 u2 c
    ∧ chats r.2 !! id = Some c
    ∧ findOrCreatePrivateChat fresh' now' u1 u2 r.2 = (Ok (id, c), r.2)
    ∧ findOrCreatePrivateChat fresh' now' u2 u1 r.2 = (Ok (id, c), r.2).
Proof.
  intros Hf r.
  destruct (find_private_first fresh now u1 u2 w Hf)
    as (id & c & w' & E & Hf' & Hhead).
  subst r. rewrite E. simpl. exists id, c.
  pose proof (head_map_to_list_lookup _ _ _ Hhead) as Hin.
  apply map_lookup_filter_Some in Hin as [Hin Hp].
  split; [done|]. split; [exact Hp|]. split; [exact Hin|].
  by apply find_private_again.
Qed.

Lemma private_chat_found_again_witness :
  faults Samples.started = []
  ∧ ∃ id c,
      (findOrCreatePrivateChat "c9" 1%Z "u2" "u3" Samples.started).1
      = Ok (id, c)
      ∧ private_of "u2" "u3" c.
Proof.
  assert (faults Samples.started = []) as H by reflexivity.
  split; [exact H|].
  destruct (private_chat_found_again "c9" "c10" 1%Z 2%Z "u2" "u3"
              Samples.started H) as (id & c & H1 & H2 & _).
  exists id, c. split; [exact H1|exact H2].
Defined.

End ChatStoreFacts.

(** ** sockets/socketHandler.js: what the relay keeps *)

Module RelayMore.
Import SocketHandler RelayViews.

(** *** Stored messages *)

(** No receipt for the sender: whatever reaches the relay, in any
    order and whatever the store rejects on the way, no message of a
    collection that started empty lists its own sender among its read
    receipts or among its delivery receipts. *)
Theorem relay_never_receipts_the_sender (us : gmap ObjectId User.t)
    (cs : gmap ObjectId Chat.t) (fs : list bool)
    (trace : list (Date * event)) (k : ObjectId) (m : Message.t) :
  messages (run trace (boot us cs ∅ fs)) !! k = Some m ->
  (Message.sender m ∉ Message.readers m)
  ∧ (Message.sender m ∉ MessageViews.deliverers m).
Proof.
  intros Hk.
  apply (StoreFacts.run_store trace (boot us cs ∅ fs)) in Hk; [done|].
  apply map_Forall_empty.
Qed.

Lemma relay_never_receipts_the_sender_witness :
  messages (run Samples.conversation (boot Samples.people Samples.all_chats ∅ []))
    !! "m1" = Some RelaySamples.stored_message
  ∧ (Message.sender RelaySamples.stored_message
     ∉ MessageViews.deliverers RelaySamples.stored_message).
Proof.
  assert (messages (run Samples.conversation
                      (boot Samples.people Samples.all_chats ∅ []))
            !! "m1" = Some RelaySamples.stored_message) as H
    by (vm_compute; reflexivity).
  split; [exact H|].
  exact (proj2 (relay_never_receipts_the_sender _ _ _ _ _ _ H)).
Defined.

(** *** Chats *)

Lemma preSave_membership c : membership (Chat.preSave c).2 = membership c.
Proof.
  unfold Chat.preSave, membership. destruct c as [n ty ps ads cr lm la st].
  simpl. destruct ty; simpl; repeat case_match; done.
Qed.

Lemma keeps_Chat_findById V chatId :
  keeps (fun w => membership <$> chats w = V) (Store.Chat_findById chatId)
        (fun r => forall c, r = Some c -> V !! chatId = Some (membership c)).
Proof.
  intros w Hw. unfold Store.Chat_findById, await.
  destruct (faults w) as [|[] fs]; simpl; (split; [exact Hw|]);
    intros a [= <-] c Hc; subst V; by rewrite lookup_fmap, Hc.
Qed.

Lemma preserves_Chat_save V chatId c :
  V !! chatId = Some (membership c) ->
  preserves (fun w => membership <$> chats w = V) (Store.Chat_save chatId c).
Proof.
  intros Hc. unfold Store.Chat_save.
  pose proof (preSave_membership c) as Hm.
  destruct (Chat.preSave c) as [[[]|e] c']; [|apply preserves_throw].
  simpl in Hm. apply preserves_await; [preserve_side|].
  intros w Hw. simpl. rewrite fmap_insert, Hw, Hm. by apply insert_id.
Qed.

Lemma send_message_try_memberships socket now fresh data V :
  preserves (fun w => membership <$> chats w = V)
            (send_message_try socket now fresh data).
Proof.
  apply (StoreFacts.preserves_keeps _ _ (fun _ => True)).
  unfold send_message_try. cbv zeta.
  eapply StoreFacts.keeps_bind; [apply keeps_Chat_findById|].
  intros [c|] Hc; [|apply StoreFacts.keeps_preserves; preserve].
  specialize (Hc c eq_refl). apply StoreFacts.keeps_preserves.
  destruct (negb _); [preserve|].
  destruct (_ && _); [preserve|].
  apply preserves_bind; [preserve|intros _].
  apply preserves_bind; [|intros chat'; preserve].
  by apply preserves_Chat_save.
Qed.

Lemma dispatch_memberships socket now e V :
  preserves (fun w => membership <$> chats w = V) (dispatch socket now e).
Proof.
  destruct e; simpl; try solve [preserve].
  unfold on_send_message. apply preserves_try_catch; [|intros; preserve].
  apply send_message_try_memberships.
Qed.

Lemma step_memberships now ev w : memberships (step now ev w) = memberships w.
Proof.
  unfold memberships.
  destruct ev as [socket|socket|socket e|]; simpl.
  - destruct (sockets w !! Socket.id socket); [done|].
    assert (preserves (fun w' => membership <$> chats w' = membership <$> chats w)
              (attach socket ;; on_connection socket now)) as H by preserve.
    by apply H.
  - destruct (bool_decide _); [|done].
    assert (preserves (fun w' => membership <$> chats w' = membership <$> chats w)
              (detach socket ;; on_disconnect socket now)) as H by preserve.
    by apply H.
  - destruct (bool_decide _); [|done]. by apply dispatch_memberships.
  - done.
Qed.

(** No socket event changes who is in a chat: whatever reaches the
    relay, the chats of the store are the same ones, with the type,
    the participants, the creator and the settings they had. *)
Theorem relay_never_changes_membership (trace : list (Date * event))
    (w : world) :
  memberships (run trace w) = memberships w.
Proof.
  revert w. induction trace as [|[now ev] rest IH]; intros w; [done|].
  simpl. change (memberships (run rest (step now ev w)) = memberships w).
  by rewrite IH, step_memberships.
Qed.

(** *** Call sessions *)

Lemma started_transfer w w' call :
  memberships w' = memberships w ->
  started_by_participant w call -> started_by_participant w' call.
Proof.
  unfold memberships. intros Hm (c & Hc & Hp & Hi).
  assert ((membership <$> chats w') !! Call.chatId call
          = Some (membership c)) as Hc'
    by (by rewrite Hm, lookup_fmap, Hc).
  rewrite lookup_fmap in Hc'.
  destruct (chats w' !! Call.chatId call) as [c'|] eqn:E; simpl in Hc';
    [|done].
  exists c'. split; [done|]. split; [|done].
  injection Hc' as _ Hps _ _.
  unfold Chat.isParticipant in *. by rewrite Hps.
Qed.

Lemma calls_transfer w w' :
  memberships w' = memberships w -> activeCalls w' = activeCalls w ->
  calls_started_by_participants w -> calls_started_by_participants w'.
Proof.
  unfold calls_started_by_participants. intros Hm -> Hw k call Hk.
  eapply started_transfer; [exact Hm|]. by apply (Hw k).
Qed.

Lemma on_call_initiate_calls socket now chatId callType callId w :
  calls_started_by_participants w ->
  calls_started_by_participants
    (on_call_initiate socket now chatId callType callId w).2.
Proof.
  intros Hw.
  unfold on_call_initiate, try_catch, bind, Store.Chat_findById, await, emit,
    modify.
  destruct (faults w) as [|[] fs]; simpl; try exact Hw.
  - destruct (chats w !! chatId) as [c|] eqn:Hc; simpl; [|exact Hw].
    destruct (Chat.isParticipant (Socket.userId socket) c) eqn:Hp; simpl;
      [|exact Hw].
    apply map_Forall_insert_2; [|exact Hw].
    exists c. simpl. split; [done|]. split; [done|]. by left.
  - destruct (chats w !! chatId) as [c|] eqn:Hc; simpl; [|exact Hw].
    destruct (Chat.isParticipant (Socket.userId socket) c) eqn:Hp; simpl;
      [|exact Hw].
    apply map_Forall_insert_2; [|exact Hw].
    exists c. simpl. split; [done|]. split; [done|]. by left.
Qed.

Lemma on_call_response_calls socket callId accepted targetUserId w :
  calls_started_by_participants w ->
  calls_started_by_participants
    (on_call_response socket callId accepted targetUserId w).2.
Proof.
  intros Hw. unfold on_call_response, bind, gets, emit, modify.
  destruct accepted; simpl; [|exact Hw].
  destruct (activeCalls w !! callId) as [call|] eqn:Hc; simpl; [|exact Hw].
  apply map_Forall_insert_2; [|exact Hw].
  destruct (Hw callId call Hc) as (c & H1 & H2 & H3).
  exists c. simpl. split; [done|]. split; [done|].
  apply elem_of_app. by left.
Qed.

Lemma on_call_end_calls socket callId chatId w :
  calls_started_by_participants w ->
  calls_started_by_participants (on_call_end socket callId chatId w).2.
Proof.
  intros Hw. unfold on_call_end, bind, gets, emit, modify.
  destruct (activeCalls w !! callId) as [call|] eqn:Hc; simpl; [|exact Hw].
  by apply map_Forall_delete.
Qed.

Lemma dispatch_calls socket now e w :
  calls_started_by_participants w ->
  calls_started_by_participants (dispatch socket now e w).2.
Proof.
  intros Hw.
  assert (memberships (dispatch socket now e w).2 = memberships w) as Hm
    by (by apply (dispatch_memberships socket now e (memberships w) w)).
  destruct e;
    try (apply (calls_transfer w); [exact Hm| |exact Hw];
         match goal with
         | |- activeCalls (?h w).2 = _ =>
             assert (preserves (fun w' => activeCalls w' = activeCalls w) h) as H
               by (simpl; preserve);
             by apply H
         end).
  - by apply on_call_initiate_calls.
  - by apply on_call_response_calls.
  - by apply on_call_end_calls.
Qed.

Lemma step_calls now ev w :
  calls_started_by_participants w ->
  calls_started_by_participants (step now ev w).
Proof.
  intros Hw. pose proof (step_memberships now ev w) as Hm.
  destruct ev as [socket|socket|socket e|]; simpl in *.
  - destruct (sockets w !! Socket.id socket); [done|].
    apply (calls_transfer w); [exact Hm| |exact Hw].
    assert (preserves (fun w' => activeCalls w' = activeCalls w)
              (attach socket ;; on_connection socket now)) as H by preserve.
    by apply H.
  - destruct (bool_decide _); [|done].
    apply (calls_transfer w); [exact Hm| |exact Hw].
    assert (preserves (fun w' => activeCalls w' = activeCalls w)
              (detach socket ;; on_disconnect socket now)) as H by preserve.
    by apply H.
  - destruct (bool_decide _); [|done]. by apply dispatch_calls.
  - exact Hw.
Qed.

Lemma run_calls trace w :
  calls_started_by_participants w ->
  calls_started_by_participants (run trace w).
Proof.
  revert w. induction trace as [|[now ev] rest IH]; intros w Hw; [done|].
  apply (IH (step now ev w)). by apply step_calls.
Qed.

(** Only a participant can start a call: whatever reaches a relay
    that has just started, every call session it holds is on a chat of
    the store, was initiated by a participant of that chat, and has its
    initiator among the call's participants. *)
Theorem calls_are_started_by_participants (us : gmap ObjectId User.t)
    (cs : gmap ObjectId Chat.t) (ms : gmap ObjectId Message.t)
    (fs : list bool) (trace : list (Date * event)) (callId : CallId)
    (call : Call.t) :
  let w := run trace (boot us cs ms fs) in
  activeCalls w !! callId = Some call ->
  ∃ c, chats w !! Call.chatId call = Some c
       ∧ Chat.isParticipant (Call.initiator call) c = true
       ∧ Call.initiator call ∈ Call.participants call.
Proof.
  intros w Hc.
  assert (calls_started_by_participants w) as Hw
    by (apply run_calls, map_Forall_empty).
  by apply (Hw callId).
Qed.

Lemma calls_are_started_by_participants_witness :
  activeCalls (run RelaySamples.calling
                 (boot Samples.people Samples.all_chats ∅ []))
    !! "call1" = Some (Call.mk "c1" "video" "u1" ["u1"] 5%Z)
  ∧ ∃ c, chats (run RelaySamples.calling
                  (boot Samples.people Samples.all_chats ∅ []))
           !! "c1" = Some c
         ∧ Chat.isParticipant "u1" c = true
         ∧ "u1" ∈ ["u1"].
Proof.
  assert (activeCalls (run RelaySamples.calling
                         (boot Samples.people Samples.all_chats ∅ []))
            !! "call1" = Some (Call.mk "c1" "video" "u1" ["u1"] 5%Z)) as H
    by (vm_compute; reflexivity).
  split; [exact H|].
  exact (calls_are_started_by_participants _ _ _ _ _ _ _ H).
Defined.

(** *** Nothing is removed *)

Lemma deliver_to_keeps_messages now ps messageId m K :
  preserves (fun w => K ⊆ dom (messages w)) (deliver_to now ps messageId m).
Proof.
  revert m. induction ps as [|p ps IH]; intros m; simpl.
  - apply preserves_ret.
  - apply preserves_bind; [|intros a; apply IH].
    unfold Message_markAsDeliveredTo. preserve.
    rewrite dom_insert. set_solver.
Qed.

Lemma dispatch_keeps_messages socket now e K :
  preserves (fun w => K ⊆ dom (messages w)) (dispatch socket now e).
Proof.
  destruct e; simpl;
    repeat first [apply deliver_to_keeps_messages | preserve_step];
    try (rewrite dom_insert; set_solver);
    try (unfold Message.markAllAsRead; rewrite dom_fmap; set_solver).
Qed.

(** The relay never removes a message from the store: a delete marks
    the document, and every id the collection held is still there
    whatever events follow. *)
Theorem relay_never_removes_a_message (trace : list (Date * event))
    (w : world) :
  dom (messages w) ⊆ dom (messages (run trace w)).
Proof.
  assert (dom (messages w) ⊆ dom (messages w)) as HK by done.
  revert HK. generalize (dom (messages w)) at 1 3.
  intros K HK. revert w HK.
  induction trace as [|[now ev] rest IH]; intros w HK; [done|].
  apply (IH (step now ev w)).
  destruct ev as [socket|socket|socket e|]; simpl.
  - destruct (sockets w !! Socket.id socket); [done|].
    assert (preserves (fun w => K ⊆ dom (messages w))
              (attach socket ;; on_connection socket now)) as H by preserve.
    by apply H.
  - destruct (bool_decide _); [|done].
    assert (preserves (fun w => K ⊆ dom (messages w))
              (detach socket ;; on_disconnect socket now)) as H by preserve.
    by apply H.
  - destruct (bool_decide _); [|done]. by apply dispatch_keeps_messages.
  - done.
Qed.

(** *** Sending *)

Lemma markAsDeliveredTo_fields p now m :
  Message.sender (Message.markAsDeliveredTo p now m) = Message.sender m
  ∧ Message.chat (Message.markAsDeliveredTo p now m) = Message.chat m
  ∧ Message.content (Message.markAsDeliveredTo p now m) = Message.content m.
Proof. unfold Message.markAsDeliveredTo. repeat case_match; done. Qed.

Lemma delivered_all_fields now ps m :
  Message.sender (delivered_all now ps m) = Message.sender m
  ∧ Message.chat (delivered_all now ps m) = Message.chat m
  ∧ Message.content (delivered_all now ps m) = Message.content m.
Proof.
  revert m. induction ps as [|p ps IH]; intros m; [done|].
  unfold delivered_all in *. simpl.
  destruct (IH (Message.markAsDeliveredTo p now m)) as (-> & -> & ->).
  apply markAsDeliveredTo_fields.
Qed.

Lemma markAsDeliveredTo_deliverers p now m x :
  x ∈ MessageViews.deliverers (Message.markAsDeliveredTo p now m)
  <-> x ∈ MessageViews.deliverers m ∨ (x = p ∧ x ≠ Message.sender m).
Proof.
  unfold Message.markAsDeliveredTo.
  destruct (decide (Message.sender m = p)) as [Hs|Hs].
  - rewrite (bool_decide_eq_true_2 _ Hs). split; [by left|].
    intros [H|[-> H]]; [done|]. by destruct H.
  - rewrite (bool_decide_eq_false_2 _ Hs).
    destruct (List.find _ (Message.deliveredTo m)) as [d|] eqn:Hf.
    + split; [by left|]. intros [H|[-> _]]; [done|].
      apply find_some in Hf as [Hin Hd]. apply bool_decide_eq_true in Hd.
      apply list_elem_of_fmap. exists d. split; [done|].
      by apply list_elem_of_In.
    + unfold MessageViews.deliverers. simpl. rewrite fmap_app. simpl.
      rewrite elem_of_app, list_elem_of_singleton. split.
      * intros [H| ->]; [by left|]. right. split; [done|]. congruence.
      * intros [H|[-> _]]; [by left|by right].
Qed.

Lemma delivered_all_deliverers now ps m x :
  x ∈ MessageViews.deliverers (delivered_all now ps m)
  <-> x ∈ MessageViews.deliverers m ∨ (x ∈ ps ∧ x ≠ Message.sender m).
Proof.
  revert m. induction ps as [|p ps IH]; intros m.
  - simpl. split; [by left|]. intros [H|[H _]]; [done|].
    by apply elem_of_nil in H.
  - change (delivered_all now (p :: ps) m)
      with (delivered_all now ps (Message.markAsDeliveredTo p now m)).
    rewrite IH, markAsDeliveredTo_deliverers.
    destruct (markAsDeliveredTo_fields p now m) as (-> & _ & _).
    rewrite elem_of_cons. tauto.
Qed.

Lemma deliver_to_ok now ps id m w :
  faults w = [] -> messages w !! id = Some m ->
  ∃ w', deliver_to now ps id m w = (Ok (delivered_all now ps m), w')
        ∧ messages w' = <[id := delivered_all now ps m]> (messages w)
        ∧ chats w' = chats w ∧ outbox w' = outbox w ∧ rooms w' = rooms w
        ∧ typingUsers w' = typingUsers w.
Proof.
  revert m w. induction ps as [|p ps IH]; intros m w Hf Hm.
  - exists w. split; [done|]. split; [|done]. symmetry. by apply insert_id.
  - change (delivered_all now (p :: ps) m)
      with (delivered_all now ps (Message.markAsDeliveredTo p now m)).
    cbn [deliver_to]. unfold bind at 1, Message_markAsDeliveredTo.
    destruct (decide (Message.sender m = p)) as [Hs|Hs].
    + rewrite (bool_decide_eq_true_2 _ Hs). cbn [ret].
      assert (Message.markAsDeliveredTo p now m = m) as ->.
      { unfold Message.markAsDeliveredTo.
        by rewrite (bool_decide_eq_true_2 _ Hs). }
      by apply IH.
    + rewrite (bool_decide_eq_false_2 _ Hs). cbv zeta.
      set (m' := Message.markAsDeliveredTo p now m).
      unfold bind, Store.Message_save, await, ret. rewrite Hf.
      destruct (IH m' (set_messages (<[id := m']> (messages w)) w))
        as (w' & E & H1 & H2 & H3 & H4 & H5).
      * exact Hf.
      * simpl. apply lookup_insert_eq.
      * exists w'. split; [exact E|]. split; [|done].
        rewrite H1. simpl. apply insert_insert_eq.
Qed.

Lemma preSave_lastMessage c :
  Chat.lastMessage (Chat.preSave c).2 = Chat.lastMessage c.
Proof.
  unfold Chat.preSave. destruct c as [n ty ps ads cr lm la st].
  simpl. destruct ty; simpl; repeat case_match; done.
Qed.

(** A message that passes the checks is stored and announced, for a
    payload without [file] and [metadata].  When the store answers,
    the message schema takes the payload as it is, the chat exists, the sender is one of its participants (an admin
    where only admins may write) and the save hook takes the chat,
    [send_message] stores the message under its new id with a delivery
    receipt for each other participant who is online, makes it the
    chat's last message, and emits [new_message] to the chat's room
    and [message_sent], with the client's [tempId], to the sender,
    after at most typing-stop notices. *)
Theorem send_message_stores_and_notifies (socket : Socket.t) (now : Date)
    (fresh : ObjectId) (data : send_message_data) (w : world)
    (chat : Chat.t) :
  faults w = [] ->
  MessageSchema.takes data = true ->
  chats w !! sm_chatId data = Some chat ->
  Chat.isParticipant (Socket.userId socket) chat = true ->
  (Chat.type chat = Chat.group ->
   Chat.onlyAdminsCanMessage (Chat.settings chat) = true ->
   Chat.isAdmin (Socket.userId socket) chat = true) ->
  (Chat.preSave (Chat.touch fresh now chat)).1 = Ok tt ->
  let h := on_send_message socket now fresh data in
  ∃ m stops,
    messages (h w).2 !! fresh = Some m
    ∧ Message.sender m = Socket.userId socket
    ∧ Message.chat m = sm_chatId data
    ∧ Message.content m = sm_content data
    ∧ (forall p, p ∈ MessageViews.deliverers m
         <-> p ∈ online_others (Socket.userId socket) chat w)
    ∧ Chat.lastMessage <$> chats (h w).2 !! sm_chatId data = Some (Some fresh)
    ∧ emitted h w
      = stops
        ++ sends (ToRoom (chat_room (sm_chatId data)))
             (Emit.new_message fresh m) w
        ++ sends (ToSocket (Socket.id socket))
             (Emit.message_sent (sm_tempId data) fresh m) w
    ∧ Forall is_typing_stop stops.
Proof.
  intros Hf _ Hchat Hp Hadm Hsave h.
  assert (bool_decide (Chat.type chat = Chat.group)
          && Chat.onlyAdminsCanMessage (Chat.settings chat)
          && negb (Chat.isAdmin (Socket.userId socket) chat) = false)
    as Hguard.
  { case_bool_decide as Hg; [|done]. simpl.
    destruct (Chat.onlyAdminsCanMessage (Chat.settings chat)) eqn:Ho; [|done].
    simpl. by rewrite Hadm. }
  set (uid := Socket.userId socket) in *.
  set (chatId := sm_chatId data) in *.
  set (m0 := Message.create now
               (Message.mkData chatId uid (sm_content data)
                  (default Message.text (sm_type data))
                  (truthy (sm_replyTo data)))).
  set (M := delivered_all now (online_others uid chat w) m0).
  assert (Chat.participants (Chat.preSave (Chat.touch fresh now chat)).2
          = Chat.participants chat
          ∧ Chat.lastMessage (Chat.preSave (Chat.touch fresh now chat)).2
            = Some fresh) as [Hps Hlm].
  { split; [|by rewrite preSave_lastMessage].
    pose proof (preSave_membership (Chat.touch fresh now chat)) as Hm.
    by injection Hm as _ Hm _ _. }
  assert (wp (send_message_try socket now fresh data) (fun r w' =>
            r = Ok tt
            ∧ messages w' !! fresh = Some M
            ∧ Chat.lastMessage <$> chats w' !! chatId = Some (Some fresh)
            ∧ ∃ stops,
                outbox w'
                = outbox w
                  ++ stops
                  ++ sends (ToRoom (chat_room chatId))
                       (Emit.new_message fresh M) w
                  ++ sends (ToSocket (Socket.id socket))
                       (Emit.message_sent (sm_tempId data) fresh M) w
                ∧ Forall is_typing_stop stops) w) as H.
  { unfold send_message_try. cbv zeta. apply wp_bind.
    unfold Store.Chat_findById. apply wp_await_ok; [done|]. cbn [fst snd].
    fold chatId uid. rewrite Hchat. rewrite Hp. cbn [negb].
    rewrite Hguard. fold m0.
    apply wp_bind. unfold Store.Message_save. apply wp_await_ok; [done|].
    cbn [fst snd].
    apply wp_bind. unfold Store.Chat_save.
    destruct (Chat.preSave (Chat.touch fresh now chat)) as [[[]|e] c'] eqn:E;
      [|simpl in Hsave; discriminate].
    simpl in Hps, Hlm.
    apply wp_await_ok; [done|]. cbn [fst snd].
    apply wp_bind. unfold Store.Message_populate. apply wp_await_ok; [done|].
    cbn [fst snd].
    apply wp_bind.
    assert (forall Q w1, faults w1 = [] -> Q (Ok tt) w1 ->
              wp match truthy (sm_replyTo data) with
                 | Some _ => await (fun w => (tt, w))
                 | None => ret tt
                 end Q w1) as Hpop.
    { intros Q w1 Hf1 HQ. destruct (truthy (sm_replyTo data)).
      - by apply wp_await_ok.
      - done. }
    apply Hpop; [done|]. clear Hpop.
    apply wp_bind, wp_gets. cbn [typingUsers set_chats set_messages].
    apply wp_bind.
    destruct (typingUsers w !! chatId) as [typing|] eqn:Ht;
      [apply wp_bind, wp_modify; unfold emit at 1; apply wp_modify
      |apply wp_ret];
      (apply wp_bind, wp_gets; cbn [activeUsers set_chats set_messages
         set_typingUsers set_outbox]; rewrite Hps;
       fold (online_others uid chat w); apply wp_bind; unfold wp at 1;
       match goal with
       | |- context [deliver_to now _ fresh m0 ?W3] =>
           destruct (deliver_to_ok now (online_others uid chat w) fresh m0 W3)
             as (w' & Ed & H1 & H2 & H3 & H4 & H5);
           [done|simpl; apply lookup_insert_eq|]
       end;
       rewrite Ed; cbn [fst snd]; fold M;
       unfold emit; apply wp_bind, wp_modify, wp_modify;
       split; [done|]; cbn [messages chats outbox set_outbox];
       split; [by rewrite H1, lookup_insert_eq|];
       split; [rewrite H2; simpl; rewrite lookup_insert_eq; simpl;
               by rewrite Hlm|];
       unfold sends, receivers, members; cbn [rooms set_outbox];
       rewrite H3, H4; simpl).
    - exists [mkEmission (ToRoom (chat_room chatId))
                (members (chat_room chatId) w) (Emit.typing_stop uid chatId)].
      split; [by rewrite <- !app_assoc|].
      constructor; [by exists uid, chatId|constructor].
    - exists []. split; [by rewrite <- !app_assoc|]. constructor. }
  unfold wp in H. destruct H as (Hr & Hm & Hc & stops & Ho & Hst).
  assert ((h w).2 = (send_message_try socket now fresh data w).2) as Hh.
  { subst h. unfold on_send_message, try_catch.
    destruct (send_message_try socket now fresh data w) as [r w1].
    simpl in *. by subst r. }
  exists M, stops. unfold emitted. rewrite Hh.
  destruct (delivered_all_fields now (online_others uid chat w) m0)
    as (Hs1 & Hs2 & Hs3).
  split; [exact Hm|]. split; [exact Hs1|]. split; [exact Hs2|].
  split; [exact Hs3|]. split; [|split; [exact Hc|split; [|exact Hst]]].
  - intros p. subst M. rewrite delivered_all_deliverers. split.
    + intros [H|[H _]]; [by apply elem_of_nil in H|exact H].
    + intros H. right. split; [exact H|].
      apply elem_of_List_filter in H as [_ H].
      apply andb_true_iff in H as [_ H].
      by apply negb_true_iff, bool_decide_eq_false in H.
  - rewrite Ho. by rewrite drop_app_length.
Qed.

Lemma send_message_stores_and_notifies_witness :
  ∃ m stops,
    messages (on_send_message Samples.alice_phone 4%Z "m1"
                (mkSendMessage "c1" "hello" None None (Some "t1"))
                RelaySamples.connected).2 !! "m1" = Some m
    ∧ Message.sender m = "u1"
    ∧ Forall is_typing_stop stops.
Proof.
  assert (faults RelaySamples.connected = []) as H1
    by (vm_compute; reflexivity).
  assert (MessageSchema.takes
            (mkSendMessage "c1" "hello" None None (Some "t1")) = true) as H0
    by reflexivity.
  assert (chats RelaySamples.connected !! "c1" = Some Samples.private_chat)
    as H2 by (vm_compute; reflexivity).
  assert (Chat.isParticipant "u1" Samples.private_chat = true) as H3
    by reflexivity.
  assert (Chat.type Samples.private_chat = Chat.group ->
          Chat.onlyAdminsCanMessage (Chat.settings Samples.private_chat) = true ->
          Chat.isAdmin "u1" Samples.private_chat = true) as H4
    by discriminate.
  assert ((Chat.preSave (Chat.touch "m1" 4%Z Samples.private_chat)).1 = Ok tt)
    as H5 by reflexivity.
  destruct (send_message_stores_and_notifies Samples.alice_phone 4%Z "m1"
              (mkSendMessage "c1" "hello" None None (Some "t1"))
              RelaySamples.connected Samples.private_chat H1 H0 H2 H3 H4 H5)
    as (m & stops & Hm & Hs & _ & _ & _ & _ & _ & Hst).
  exists m, stops. split; [exact Hm|]. split; [exact Hs|exact Hst].
Defined.

(** *** Rooms *)

(** [join_chat] admits participants only: the socket's rooms change
    in one case, when the chat exists and the user is one of its
    participants, and then by the chat's room alone. *)
Theorem join_chat_admits_participants_only (socket : Socket.t)
    (chatId : ObjectId) (w : world) :
  let w' := (on_join_chat socket chatId w).2 in
  rooms w' = rooms w
  ∨ (rooms w' = {[(chat_room chatId, Socket.id socket)]} ∪ rooms w
     ∧ ∃ c, chats w !! chatId = Some c
            ∧ Chat.isParticipant (Socket.userId socket) c = true).
Proof.
  unfold on_join_chat, try_catch, bind, Store.Chat_findById, await, emit, join,
    modify.
  destruct (faults w) as [|[] fs]; simpl; auto;
    (destruct (chats w !! chatId) as [c|] eqn:Hc; simpl; [|by left]);
    (destruct (Chat.isParticipant (Socket.userId socket) c) eqn:Hp; simpl;
     [|by left]);
    right; (split; [done|]); by exists c.
Qed.

Lemma join_all sid (l : list ObjectId) (w : world) :
  (forM_ l (fun chatId => join sid (chat_room chatId)) w).1 = Ok tt
  ∧ (forall p, p ∈ rooms (forM_ l (fun chatId => join sid (chat_room chatId)) w).2
       <-> p ∈ rooms w ∨ ∃ c, c ∈ l ∧ p = (chat_room c, sid))
  ∧ chats (forM_ l (fun chatId => join sid (chat_room chatId)) w).2 = chats w
  ∧ faults (forM_ l (fun chatId => join sid (chat_room chatId)) w).2 = faults w.
Proof.
  revert w. induction l as [|c l IH]; intros w.
  - simpl. split; [done|]. split; [|done]. intros p. split; [by left|].
    intros [H|(c & Hc & _)]; [done|]. by apply elem_of_nil in Hc.
  - change (forM_ (c :: l) (fun chatId => join sid (chat_room chatId)) w)
      with (forM_ l (fun chatId => join sid (chat_room chatId))
              (set_rooms ({[(chat_room c, sid)]} ∪ rooms w) w)).
    destruct (IH (set_rooms ({[(chat_room c, sid)]} ∪ rooms w) w))
      as (H1 & H2 & H3 & H4).
    split; [exact H1|]. split; [|by rewrite H3, H4].
    intros p. rewrite H2. simpl. rewrite elem_of_union, elem_of_singleton.
    split.
    + intros [[->|Hp]|(c' & Hc' & ->)].
      * right. exists c. split; [by left|done].
      * by left.
      * right. exists c'. split; [by right|done].
    + intros [Hp|(c' & [->|Hc']%elem_of_cons & ->)].
      * left. by right.
      * left. by left.
      * right. by exists c'.
Qed.

(** When the store answers, a connection puts the socket in the
    user's own room and in the room of every chat the user is a
    participant of, and in no other room. *)
Theorem connection_joins_own_rooms (socket : Socket.t) (now : Date)
    (w : world) (room : string) (s : SocketId) :
  faults w = [] ->
  (room, s) ∈ rooms (on_connection socket now w).2
  <-> (room, s) ∈ rooms w
      ∨ (s = Socket.id socket
         ∧ (room = user_room (Socket.userId socket)
            ∨ ∃ chatId c,
                room = chat_room chatId ∧ chats w !! chatId = Some c
                ∧ Chat.isParticipant (Socket.userId socket) c = true)).
Proof.
  intros Hf.
  set (R := fun p : string * SocketId =>
         p ∈ rooms w
         ∨ (p.2 = Socket.id socket
            ∧ (p.1 = user_room (Socket.userId socket)
               ∨ ∃ chatId c,
                   p.1 = chat_room chatId ∧ chats w !! chatId = Some c
                   ∧ Chat.isParticipant (Socket.userId socket) c = true))).
  change (wp (on_connection socket now)
            (fun _ w' => (room, s) ∈ rooms w' <-> R (room, s)) w).
  apply (wp_mono _ (fun _ w' => forall p, p ∈ rooms w' <-> R p));
    [|intros r w' H; apply H].
  unfold on_connection. apply wp_try_catch, wp_bind.
  unfold Store.User_findByIdAndUpdate. apply wp_await_ok; [done|]. simpl.
  apply wp_bind, wp_modify. apply wp_bind. unfold join at 1. apply wp_modify.
  apply wp_bind. unfold Store.Chat_find_participant.
  apply wp_await_ok; [done|]. cbn [fst snd].
  apply wp_bind.
  match goal with
  | |- wp (forM_ ?l _) _ ?w2 =>
      destruct (join_all (Socket.id socket) l w2) as (H1 & H2 & _ & _)
  end.
  unfold wp at 1. rewrite H1.
  match goal with
  | |- wp _ _ ?w3 =>
      assert (forall p, p ∈ rooms w3 <-> R p) as Hend;
      [|apply (wp_preserves (fun w' => rooms w' = rooms w3));
        [preserve|done
        |intros [a|e] w' Hw'; unfold wp; simpl; intros p; rewrite Hw';
         apply Hend]]
  end.
  intros p. rewrite H2. simpl.
  rewrite elem_of_union, elem_of_singleton. subst R. simpl.
  destruct p as [rm sk]. simpl. split.
  - intros [[[= -> ->]|Hp]|(c & Hc & [= -> ->])].
    + right. split; [done|]. by left.
    + by left.
    + right. split; [done|]. right.
      apply list_elem_of_fmap in Hc as ([c' chat] & -> & Hc).
      apply elem_of_map_to_list, map_lookup_filter_Some in Hc as [Hc Hp].
      by exists c', chat.
  - intros [Hp|[-> [->|(c & chat & -> & Hc & Hp)]]].
    + left. by right.
    + left. by left.
    + right. exists c. split; [|done].
      apply list_elem_of_fmap. exists (c, chat). split; [done|].
      apply elem_of_map_to_list, map_lookup_filter_Some. done.
Qed.

Lemma connection_joins_own_rooms_witness :
  faults Samples.started = []
  ∧ (("chat_c1", "s3") ∈ rooms (on_connection Samples.bob_phone 1%Z
                                  Samples.started).2
     <-> ("chat_c1", "s3") ∈ rooms Samples.started
         ∨ ("s3" = Socket.id Samples.bob_phone
            ∧ ("chat_c1" = user_room (Socket.userId Samples.bob_phone)
               ∨ ∃ chatId c,
                   "chat_c1" = chat_room chatId
                   ∧ chats Samples.started !! chatId = Some c
                   ∧ Chat.isParticipant (Socket.userId Samples.bob_phone) c
                     = true))).
Proof.
  assert (faults Samples.started = []) as H by reflexivity.
  split; [exact H|].
  exact (connection_joins_own_rooms Samples.bob_phone 1%Z Samples.started
           "chat_c1" "s3" H).
Defined.

(** *** Leaving *)

Section Disconnect.
Variable uid : ObjectId.

Let stop_typing : ObjectId * gset ObjectId -> handler unit :=
  fun '(chatId, users) =>
    if bool_decide (uid ∈ users) then
      modify (fun w =>
        set_typingUsers (<[chatId := users ∖ {[uid]}]> (typingUsers w)) w) ;;
      emit (ToRoom (chat_room chatId)) (Emit.typing_stop uid chatId)
    else ret tt.

Lemma stop_typing_all (l : list (ObjectId * gset ObjectId)) (w : world) :
  NoDup l.*1 ->
  (forall c us, (c, us) ∈ l -> typingUsers w !! c = Some us) ->
  (forM_ l stop_typing w).1 = Ok tt
  ∧ (forall c,
       typingUsers (forM_ l stop_typing w).2 !! c
       = match list_find (fun p => p.1 = c) l with
         | Some (_, (_, us)) => Some (us ∖ {[uid]})
         | None => typingUsers w !! c
         end)
  ∧ activeUsers (forM_ l stop_typing w).2 = activeUsers w
  ∧ activeCalls (forM_ l stop_typing w).2 = activeCalls w
  ∧ faults (forM_ l stop_typing w).2 = faults w
  ∧ users (forM_ l stop_typing w).2 = users w.
Proof.
  revert w. induction l as [|[c0 us0] l IH]; intros w Hnd Hl.
  - simpl. done.
  - apply NoDup_cons in Hnd as [Hc0 Hnd].
    cbn [forM_]. unfold bind.
    assert (exists w1, stop_typing (c0, us0) w = (Ok tt, w1)
              ∧ typingUsers w1 = <[c0 := us0 ∖ {[uid]}]> (typingUsers w)
              ∧ activeUsers w1 = activeUsers w
              ∧ activeCalls w1 = activeCalls w
              ∧ faults w1 = faults w ∧ users w1 = users w)
      as (w1 & -> & Ht & Ha & Hcalls & Hf & Hu).
    { unfold stop_typing. case_bool_decide as Hin.
      - eexists. split; [reflexivity|]. simpl. done.
      - exists w. split; [done|]. split; [|done].
        symmetry. apply insert_id.
        rewrite (Hl c0 us0) by (by left). f_equal.
        apply leibniz_equiv, set_equiv. intros x.
        rewrite elem_of_difference, elem_of_singleton.
        split; [|tauto]. intros Hx. split; [done|]. by intros ->. }
    destruct (IH w1 Hnd) as (H1 & H2 & H3 & H4 & H5 & H6).
    { intros c us Hin. rewrite Ht, lookup_insert_ne.
      - apply Hl. by right.
      - intros ->. apply Hc0. apply list_elem_of_fmap. by exists (c, us). }
    split; [exact H1|]. split; [|by rewrite H3, H4, H5, H6].
    intros c. rewrite H2. cbn [list_find]. simpl.
    destruct (decide (c0 = c)) as [->|Hne].
    + destruct (list_find (fun p => p.1 = c) l) as [[i [c' us']]|] eqn:Hfind.
      * apply list_find_Some in Hfind as (Hi & Hc' & _). simpl in Hc'. subst c'.
        exfalso. apply Hc0. apply list_elem_of_fmap. exists (c, us').
        split; [done|]. by eapply list_elem_of_lookup_2.
      * simpl. by rewrite Ht, lookup_insert_eq.
    + destruct (list_find (fun p => p.1 = c) l) as [[i [c' us']]|]; simpl;
        [done|].
      by rewrite Ht, lookup_insert_ne.
Qed.

End Disconnect.

(** When the store takes the presence update, a disconnect takes the
    user out of the presence table and out of every typing set; the
    call sessions stay as they are, the user still among their
    participants. *)
Theorem disconnect_clears_typing (socket : Socket.t) (now : Date)
    (w : world) :
  head (faults w) ≠ Some true ->
  let w' := (on_disconnect socket now w).2 in
  typingUsers w'
  = (fun users => users ∖ {[Socket.userId socket]}) <$> typingUsers w
  ∧ activeUsers w' = delete (Socket.userId socket) (activeUsers w)
  ∧ activeCalls w' = activeCalls w.
Proof.
  intros Hh w'. subst w'.
  set (T := (fun users => users ∖ {[Socket.userId socket]}) <$> typingUsers w).
  set (X := delete (Socket.userId socket) (activeUsers w)).
  set (C := activeCalls w).
  change (wp (on_disconnect socket now)
            (fun _ w' => typingUsers w' = T ∧ activeUsers w' = X
                         ∧ activeCalls w' = C) w).
  unfold on_disconnect. apply wp_try_catch, wp_bind.
  unfold Store.User_findByIdAndUpdate.
  apply RelayFacts.wp_await_answers; [done|]. intros fs. simpl.
  apply wp_bind, wp_modify. apply wp_bind, wp_gets. cbv beta.
  apply wp_bind.
  match goal with
  | |- wp (forM_ ?l _) _ ?w2 =>
      destruct (stop_typing_all (Socket.userId socket) l w2)
        as (H1 & H2 & H3 & H4 & _ & _);
      [apply NoDup_fst_map_to_list
      |intros c us Hin; by apply elem_of_map_to_list in Hin|]
  end.
  unfold wp at 1. rewrite H1.
  apply (wp_preserves (fun w' => typingUsers w' = T ∧ activeUsers w' = X
                                 ∧ activeCalls w' = C)).
  - preserve.
  - split; [|split; [by rewrite H3|by rewrite H4]].
    apply map_eq. intros c. rewrite H2. subst T. rewrite lookup_fmap. simpl.
    destruct (list_find _ _) as [[i [c' us]]|] eqn:Hfind.
    + apply list_find_Some in Hfind as (Hi & Hc' & _). simpl in Hc'. subst c'.
      apply list_elem_of_lookup_2, elem_of_map_to_list in Hi.
      by rewrite Hi.
    + destruct (typingUsers w !! c) as [us|] eqn:Hc; [|done].
      exfalso. apply list_find_None in Hfind.
      apply elem_of_map_to_list in Hc.
      rewrite Forall_forall in Hfind. by apply (Hfind (c, us)).
  - intros [a|e] w1 H; simpl; auto.
Qed.

Lemma disconnect_clears_typing_witness :
  head (faults RelaySamples.typing) ≠ Some true
  ∧ typingUsers (on_disconnect Samples.alice_phone 9%Z RelaySamples.typing).2
    = (fun users => users ∖ {["u1"]}) <$> typingUsers RelaySamples.typing.
Proof.
  assert (head (faults RelaySamples.typing) ≠ Some true) as H
    by (vm_compute; discriminate).
  split; [exact H|].
  exact (proj1 (disconnect_clears_typing Samples.alice_phone 9%Z
                  RelaySamples.typing H)).
Defined.

End RelayMore.

(** ** routes/messages.js: the routes that write *)

#[global] Hint Unfold
  MessagesRest.post_message MessagesRest.put_message
  MessagesRest.delete_message MessagesRest.post_reaction
  MessagesRest.delete_reaction MessagesRest.read_one MessagesRest.post_read
  : handlers.

Module RestFacts.
Import SocketHandler MessagesRest.

(** A change made through the REST routes reaches no socket: whatever
    the request and whatever the store does, the route emits nothing
    and leaves the relay's rooms and tables (presence, typing, calls)
    as they are. *)
Theorem rest_routes_never_notify (me : ObjectId) (now : Date) (r : request)
    (w : world) :
  relay_state (serve me now r w).2 = relay_state w.
Proof.
  unfold relay_state.
  assert (preserves
            (fun w' => (activeUsers w', typingUsers w', activeCalls w',
                        sockets w', rooms w', outbox w')
                       = (activeUsers w, typingUsers w, activeCalls w,
                          sockets w, rooms w, outbox w))
            (serve me now r)) as H
    by (destruct r; simpl; preserve).
  by apply H.
Qed.

Lemma promise_all_ext {A} (f g : A -> handler unit) (xs : list A) w :
  (forall x w', f x w' = g x w') -> promise_all xs f w = promise_all xs g w.
Proof.
  intros Hfg. revert w. induction xs as [|x xs IH]; intros w; [done|].
  simpl. rewrite Hfg. destruct (g x w) as [[a|e] w']; by rewrite IH.
Qed.

Lemma read_one_mark_one socket now msgId w :
  read_one (Socket.userId socket) now msgId w = mark_one socket now msgId w.
Proof.
  unfold read_one, mark_one, bind.
  destruct (Store.Message_findById msgId w) as [[[m|]|e] w']; try done.
  unfold Message_markAsReadBy. by destruct (bool_decide _).
Qed.

(** Marking as read over REST does to the store what the
    [mark_as_read] socket event does, for explicit ids as for the
    whole chat and whatever the store rejects on the way; only the
    socket event tells the chat's room. *)
Theorem rest_read_same_as_socket (socket : Socket.t) (now : Date)
    (chatId : ObjectId) (messageIds : option (list ObjectId)) (w : world) :
  let rest := (post_read (Socket.userId socket) now chatId messageIds w).2 in
  let sock := (on_mark_as_read socket now chatId messageIds w).2 in
  messages rest = messages sock
  ∧ chats rest = chats sock
  ∧ users rest = users sock
  ∧ faults rest = faults sock
  ∧ outbox rest = outbox w.
Proof.
  unfold post_read, on_mark_as_read, try_catch, bind.
  destruct (Store.Chat_findById chatId w) as [[[c|]|e] w1] eqn:E; simpl.
  - assert (outbox w1 = outbox w) as Ho.
    { assert (preserves (fun w' => outbox w' = outbox w)
                (Store.Chat_findById chatId)) as H by preserve.
      specialize (H w eq_refl). by rewrite E in H. }
    destruct (Chat.isParticipant (Socket.userId socket) c); simpl; [|done].
    assert (forall h : handler unit,
              preserves (fun w' => outbox w' = outbox w) h ->
              let rest :=
                (match (match h w1 with
                        | (Ok _, w') =>
                            ret (succeeded "Messages marked as read") w'
                        | (Throw e, w') => (Throw e, w')
                        end) with
                 | (Ok a, w') => (Ok a, w')
                 | (Throw _, w') => ret (failed 500 "Server error") w'
                 end).2 in
              let sock :=
                (match (match h w1 with
                        | (Ok _, w') =>
                            emit (ToRoomExcept (chat_room chatId)
                                    (Socket.id socket))
                                 (Emit.messages_read (Socket.userId socket)
                                    chatId messageIds) w'
                        | (Throw e, w') => (Throw e, w')
                        end) with
                 | (Ok a, w') => (Ok a, w')
                 | (Throw _, w') => ret tt w'
                 end).2 in
              messages rest = messages sock ∧ chats rest = chats sock
              ∧ users rest = users sock ∧ faults rest = faults sock
              ∧ outbox rest = outbox w) as Hboth.
    { intros h Hh. specialize (Hh w1 Ho).
      destruct (h w1) as [[a|e] w2]; simpl in *; done. }
    destruct messageIds as [[|id ids]|].
    + apply Hboth. preserve.
    + rewrite (promise_all_ext (read_one (Socket.userId socket) now)
                 (mark_one socket now))
        by (intros; apply read_one_mark_one).
      apply Hboth. preserve.
    + apply Hboth. preserve.
  - assert (preserves (fun w' => outbox w' = outbox w)
              (Store.Chat_findById chatId)) as H by preserve.
    specialize (H w eq_refl). by rewrite E in H.
  - assert (preserves (fun w' => outbox w' = outbox w)
              (Store.Chat_findById chatId)) as H by preserve.
    specialize (H w eq_refl). by rewrite E in H.
Qed.

(** Editing over REST.  When the store answers and the message
    exists, [PUT /:messageId] answers with the edited document and
    stores it when the method takes the edit (the sender's own message,
    not deleted, not a system message); otherwise it answers 400 with
    the method's reason and the store is as it was. *)
Theorem put_message_reports (me : ObjectId) (now : Date)
    (messageId : ObjectId) (content : string) (w : world) (m : Message.t) :
  faults w = [] ->
  messages w !! messageId = Some m ->
  put_message me now true messageId content w
  = match Message.editContent content me now m with
    | (Throw e, _) => (Ok (failed 400 e), w)
    | (Ok _, m') =>
        (Ok (edited m'), set_messages (<[messageId := m']> (messages w)) w)
    end.
Proof.
  intros Hf Hm.
  unfold put_message, try_catch, bind, Store.Message_findById, await.
  cbn [negb]. rewrite Hf. simpl. rewrite Hm.
  unfold Message_editContent, Message.editContent.
  destruct (negb (bool_decide (Message.sender m = me))); [done|].
  destruct (Message.deleted m); [done|].
  destruct (bool_decide (Message.type m = Message.system)); [done|].
  unfold bind, Store.Message_save, await. by rewrite Hf.
Qed.

Lemma put_message_reports_witness :
  faults RelaySamples.talked = []
  ∧ messages RelaySamples.talked !! "m1" = Some RelaySamples.stored_message
  ∧ (put_message "u2" 9%Z true "m1" "hacked" RelaySamples.talked).1
    = Ok (failed 400 "Only sender can edit message").
Proof.
  assert (faults RelaySamples.talked = []) as H1 by (vm_compute; reflexivity).
  assert (messages RelaySamples.talked !! "m1"
          = Some RelaySamples.stored_message) as H2
    by (vm_compute; reflexivity).
  split; [exact H1|]. split; [exact H2|].
  exact (f_equal fst (put_message_reports "u2" 9%Z "m1" "hacked"
                        RelaySamples.talked RelaySamples.stored_message
                        H1 H2)).
Defined.

(** Reactions over REST.  Adding a reaction is refused, with 403 and
    the store untouched, to a user who is not a participant of the
    message's chat; removing one's reaction is open to any user, and
    stores the message without it. *)
Theorem rest_reaction_checks (me : ObjectId) (now : Date)
    (messageId : ObjectId) (emoji : string) (w : world) (m : Message.t)
    (c : Chat.t) :
  faults w = [] ->
  messages w !! messageId = Some m ->
  chats w !! Message.chat m = Some c ->
  Chat.isParticipant me c = false ->
  post_reaction me now true messageId emoji w
  = (Ok (failed 403 "Access denied"), w)
  ∧ delete_reaction me messageId w
    = (Ok (reacted "Reaction removed successfully"
             (Message.reactions (Message.removeReaction me m))),
       set_messages (<[messageId := Message.removeReaction me m]> (messages w))
         w).
Proof.
  intros Hf Hm Hc Hp. split.
  - unfold post_reaction, try_catch, bind, Store.Message_findById,
      Store.Chat_findById, await.
    cbn [negb]. rewrite Hf. simpl. rewrite Hm. rewrite Hf. simpl.
    rewrite Hc, Hp. done.
  - unfold delete_reaction, try_catch, bind, Store.Message_findById,
      Store.Message_save, await.
    rewrite Hf. simpl. rewrite Hm. cbv zeta. by rewrite Hf.
Qed.

Lemma rest_reaction_checks_witness :
  faults RelaySamples.talked = []
  ∧ (post_reaction "u3" 9%Z true "m1" "wave" RelaySamples.talked).1
    = Ok (failed 403 "Access denied").
Proof.
  assert (faults RelaySamples.talked = []) as H1 by (vm_compute; reflexivity).
  assert (messages RelaySamples.talked !! "m1"
          = Some RelaySamples.stored_message) as H2
    by (vm_compute; reflexivity).
  assert (chats RelaySamples.talked !! Message.chat RelaySamples.stored_message
          = Some (Chat.touch "m1" 4%Z Samples.private_chat)) as H3
    by (vm_compute; reflexivity).
  assert (Chat.isParticipant "u3" (Chat.touch "m1" 4%Z Samples.private_chat)
          = false) as H4 by reflexivity.
  split; [exact H1|].
  exact (f_equal fst (proj1 (rest_reaction_checks "u3" 9%Z "m1" "wave"
                               RelaySamples.talked _ _ H1 H2 H3 H4))).
Defined.

(** Sending over REST.  Under the conditions in which [send_message]
    stores and announces a message, [POST /] stores the same document
    without any delivery receipt, makes it the chat's last message and
    answers 201 with it. *)
Theorem post_message_creates (me : ObjectId) (now : Date) (fresh : ObjectId)
    (body : post_body) (w : world) (chat : Chat.t) :
  faults w = [] ->
  chats w !! p_chatId body = Some chat ->
  Chat.isParticipant me chat = true ->
  (Chat.type chat = Chat.group ->
   Chat.onlyAdminsCanMessage (Chat.settings chat) = true ->
   Chat.isAdmin me chat = true) ->
  (Chat.preSave (Chat.touch fresh now chat)).1 = Ok tt ->
  let m := Message.create now
             (Message.mkData (p_chatId body) me (p_content body)
                (default Message.text (p_type body))
                (truthy (p_replyTo body))) in
  let r := post_message me now true fresh body w in
  r.1 = Ok (created fresh m)
  ∧ messages r.2 = <[fresh := m]> (messages w)
  ∧ Message.deliveredTo m = []
  ∧ Chat.lastMessage <$> chats r.2 !! p_chatId body = Some (Some fresh).
Proof.
  intros Hf Hchat Hp Hadm Hsave m r.
  assert (bool_decide (Chat.type chat = Chat.group)
          && Chat.onlyAdminsCanMessage (Chat.settings chat)
          && negb (Chat.isAdmin me chat) = false) as Hguard.
  { case_bool_decide as Hg; [|done]. simpl.
    destruct (Chat.onlyAdminsCanMessage (Chat.settings chat)) eqn:Ho; [|done].
    simpl. by rewrite Hadm. }
  pose proof (RelayMore.preSave_lastMessage (Chat.touch fresh now chat)) as Hlm.
  subst r.
  change (wp (post_message me now true fresh body)
            (fun r w' =>
               r = Ok (created fresh m)
               ∧ messages w' = <[fresh := m]> (messages w)
               ∧ Message.deliveredTo m = []
               ∧ Chat.lastMessage <$> chats w' !! p_chatId body
                 = Some (Some fresh)) w).
  unfold post_message. cbn [negb]. cbv zeta. apply wp_try_catch, wp_bind.
  unfold Store.Chat_findById. apply wp_await_ok; [done|]. cbn [fst snd].
  rewrite Hchat, Hp. cbn [negb]. rewrite Hguard. fold m.
  apply wp_bind. unfold Store.Message_save. apply wp_await_ok; [done|].
  cbn [fst snd].
  apply wp_bind. unfold Store.Chat_save.
  destruct (Chat.preSave (Chat.touch fresh now chat)) as [[[]|e] c'] eqn:E;
    [|simpl in Hsave; discriminate].
  simpl in Hlm.
  apply wp_await_ok; [done|]. cbn [fst snd].
  apply wp_bind. unfold Store.Message_populate. apply wp_await_ok; [done|].
  cbn [fst snd].
  apply wp_bind.
  assert (forall Q w1, faults w1 = [] -> Q (Ok tt) w1 ->
            wp match truthy (p_replyTo body) with
               | Some _ => await (fun w => (tt, w))
               | None => ret tt
               end Q w1) as Hpop.
  { intros Q w1 Hf1 HQ. destruct (truthy (p_replyTo body)).
    - by apply wp_await_ok.
    - done. }
  apply Hpop; [done|]. apply wp_ret.
  split; [done|]. split; [done|]. split; [done|].
  simpl. rewrite lookup_insert_eq. simpl. by rewrite Hlm.
Qed.

Lemma post_message_creates_witness :
  let r := post_message "u1" 4%Z true "m1" (mkPost "c1" "hello" None None)
             Samples.started in
  faults Samples.started = []
  ∧ messages r.2
    = <["m1" := Message.create 4%Z
                  (Message.mkData "c1" "u1" "hello" Message.text None)]>
        (messages Samples.started).
Proof.
  intros r.
  assert (faults Samples.started = []) as H1 by reflexivity.
  assert (chats Samples.started !! "c1" = Some Samples.private_chat) as H2
    by (vm_compute; reflexivity).
  assert (Chat.isParticipant "u1" Samples.private_chat = true) as H3
    by reflexivity.
  assert (Chat.type Samples.private_chat = Chat.group ->
          Chat.onlyAdminsCanMessage (Chat.settings Samples.private_chat) = true ->
          Chat.isAdmin "u1" Samples.private_chat = true) as H4
    by discriminate.
  assert ((Chat.preSave (Chat.touch "m1" 4%Z Samples.private_chat)).1 = Ok tt)
    as H5 by reflexivity.
  split; [exact H1|].
  exact (proj1 (proj2 (post_message_creates "u1" 4%Z "m1"
                         (mkPost "c1" "hello" None None) Samples.started
                         Samples.private_chat H1 H2 H3 H4 H5))).
Defined.

End RestFacts.

(** ** routes/messages.js: more on the message history *)

Module HistoryMore.
Import MessagesRoute HistoryViews.

(** The list the route answers with, as it computes it. *)
#[local] Abbreviation answered w chatId me page limit :=
  (rev (List.filter (fun msg => negb (Message.isDeletedForUser me msg.2))
          (take (Z.to_nat limit)
             (drop (Z.to_nat ((page - 1) * limit))
                (merge_sort newer_first
                   (List.filter (fun msg => history_query chatId me msg.2)
                      (map_to_list (messages w))))))))
  (only parsing).

Lemma history_answer me chatId page limit w (P : response -> Prop) :
  P status400 -> P status404 -> P status403 -> P status500 ->
  (valid_page page = true -> valid_limit limit = true ->
   forall c, chats w !! chatId = Some c -> Chat.isParticipant me c = true ->
   forall total more,
     P (json (mkHistory
                (answered w chatId me (or_default 1 page) (or_default 50 limit))
                (or_default 1 page) (or_default 50 limit) total more))) ->
  ∃ r, (get_messages me chatId page limit w).1 = Ok r ∧ P r.
Proof.
  intros H400 H404 H403 H500 Hjson.
  change (wp (get_messages me chatId page limit)
            (fun o _ => ∃ r, o = Ok r ∧ P r) w).
  unfold get_messages. wp_run.
  destruct (valid_page page && valid_limit limit) eqn:Hv; simpl;
    [|wp_run; by eexists].
  apply andb_true_iff in Hv as [Hvp Hvl].
  cbv zeta. wp_run. unfold Store.Chat_findById.
  apply wp_await; intros fs; simpl.
  { wp_run. by eexists. }
  destruct (chats w !! chatId) as [c|] eqn:Hc; [|wp_run; by eexists].
  destruct (Chat.isParticipant me c) eqn:Hp; simpl; [|wp_run; by eexists].
  wp_run. unfold Message_find_history.
  apply wp_await; intros fs'; simpl.
  { wp_run. by eexists. }
  wp_run. unfold Message_count.
  apply wp_await; intros fs''; simpl.
  { wp_run. by eexists. }
  wp_run. eexists. split; [done|]. by apply (Hjson Hvp Hvl c).
Qed.

Lemma valid_limit_range limit :
  valid_limit limit = true -> (1 <= or_default 50 limit <= 100)%Z.
Proof.
  destruct limit as [| |z]; simpl; [lia|done|].
  intros [H1 H2]%andb_true_iff. lia.
Qed.

Lemma answered_shown w chatId me page limit :
  Forall (shown w chatId me) (answered w chatId me page limit).
Proof.
  apply Forall_rev, Forall_forall. intros msg Hin.
  apply elem_of_List_filter in Hin as [Hin Hvis].
  apply negb_true_iff in Hvis.
  apply (subseteq_take _ _), (subseteq_drop _ _) in Hin.
  rewrite merge_sort_Permutation in Hin.
  apply elem_of_List_filter in Hin as [Hin Hq].
  destruct msg as [k m]. apply elem_of_map_to_list in Hin.
  unfold history_query in Hq. apply andb_true_iff in Hq as [Hq _].
  apply bool_decide_eq_true in Hq. done.
Qed.

Lemma answered_length w chatId me page limit :
  (length (answered w chatId me page limit) <= Z.to_nat limit)%nat.
Proof.
  rewrite length_rev.
  etrans; [apply List.filter_length_le|]. apply firstn_le_length.
Qed.

(** The history route answers with at most [limit] messages (50 when
    the request names none, and never more than 100), each of them a
    message of the store that belongs to the chat asked for and is not
    hidden from the requester. *)
Theorem history_page_bounded_and_scoped (me chatId : ObjectId)
    (page limit : qparam) (w : world) :
  ∃ r, (get_messages me chatId page limit w).1 = Ok r
       ∧ (length (delivered r) <= Z.to_nat (or_default 50 limit))%nat
       ∧ (length (delivered r) <= 100)%nat
       ∧ Forall (shown w chatId me) (delivered r).
Proof.
  apply history_answer; simpl; try (repeat split; (lia || constructor)).
  intros _ Hvl c _ _ _ _.
  pose proof (valid_limit_range limit Hvl) as Hr.
  pose proof (answered_length w chatId me (or_default 1 page)
                (or_default 50 limit)) as Hl.
  split; [exact Hl|]. split; [lia|]. apply answered_shown.
Qed.

Lemma StronglySorted_sublist {A} (R : relation A) (l1 l2 : list A) :
  l1 `sublist_of` l2 -> StronglySorted R l2 -> StronglySorted R l1.
Proof.
  induction 1 as [|x l1 l2 Hs IH|x l1 l2 Hs IH]; intros H2.
  - constructor.
  - apply StronglySorted_inv in H2 as [H2 Hx].
    constructor; [by apply IH|].
    rewrite Forall_forall in Hx. apply Forall_forall. intros y Hy.
    apply Hx. by apply (elem_of_sublist l1 l2).
  - apply StronglySorted_inv in H2 as [H2 _]. by apply IH.
Qed.

Lemma List_filter_sublist {A} (p : A -> bool) (l : list A) :
  List.filter p l `sublist_of` l.
Proof.
  induction l as [|x l IH]; simpl; [constructor|].
  destruct (p x); by constructor.
Qed.

Lemma StronglySorted_rev {A} (R : relation A) (l : list A) :
  StronglySorted R l -> StronglySorted (flip R) (rev l).
Proof.
  induction 1 as [|x l Hl IH Hx]; simpl; [constructor|].
  apply StronglySorted_app. split; [|split; [exact IH|]].
  - intros y z Hy Hz. apply list_elem_of_singleton in Hz. subst z.
    unfold flip. rewrite Forall_forall in Hx. apply Hx.
    apply list_elem_of_In. apply in_rev. by apply list_elem_of_In.
  - repeat constructor.
Qed.

#[local] Instance newer_first_trans : Transitive newer_first.
Proof. intros x y z. unfold newer_first. lia. Qed.

#[local] Instance newer_first_total : Total newer_first.
Proof. intros x y. unfold newer_first. lia. Qed.

Lemma answered_sorted w chatId me page limit :
  StronglySorted older_first (answered w chatId me page limit).
Proof.
  apply (StronglySorted_rev newer_first).
  eapply StronglySorted_sublist; [apply List_filter_sublist|].
  eapply StronglySorted_sublist; [apply sublist_take|].
  eapply StronglySorted_sublist; [apply sublist_drop|].
  apply StronglySorted_merge_sort; apply _.
Qed.

(** The history route answers oldest first: in its answer no message
    comes before one that was created earlier. *)
Theorem history_oldest_first (me chatId : ObjectId) (page limit : qparam)
    (w : world) :
  ∃ r, (get_messages me chatId page limit w).1 = Ok r
       ∧ StronglySorted older_first (delivered r).
Proof.
  apply history_answer; simpl; try constructor.
  intros. apply answered_sorted.
Qed.

(** Only participants read the history: the route answers with a
    message list only to a request whose page and limit pass the
    validators, for a chat that exists and has the requester among its
    participants. *)
Theorem history_for_participants_only (me chatId : ObjectId)
    (page limit : qparam) (w : world) (body : history) :
  (get_messages me chatId page limit w).1 = Ok (json body) ->
  valid_page page = true ∧ valid_limit limit = true
  ∧ ∃ c, chats w !! chatId = Some c ∧ Chat.isParticipant me c = true.
Proof.
  intros Hr.
  destruct (history_answer me chatId page limit w
              (fun r =>
                 match r with
                 | json _ =>
                     valid_page page = true ∧ valid_limit limit = true
                     ∧ ∃ c, chats w !! chatId = Some c
                            ∧ Chat.isParticipant me c = true
                 | _ => True
                 end)) as (r & Hr' & HP); try done.
  - intros Hvp Hvl c Hc Hp total more. simpl.
    split; [done|]. split; [done|]. by exists c.
  - rewrite Hr in Hr'. injection Hr' as <-. exact HP.
Qed.

Lemma history_for_participants_only_witness :
  let body :=
    mkHistory [("m1", RelaySamples.stored_message)] 1 50 1 false in
  (get_messages "u2" "c1" absent absent RelaySamples.talked).1 = Ok (json body)
  ∧ ∃ c, chats RelaySamples.talked !! "c1" = Some c
         ∧ Chat.isParticipant "u2" c = true.
Proof.
  intros body.
  assert ((get_messages "u2" "c1" absent absent RelaySamples.talked).1
          = Ok (json body)) as H by (vm_compute; reflexivity).
  split; [exact H|].
  exact (proj2 (proj2
    (history_for_participants_only "u2" "c1" absent absent
       RelaySamples.talked body H))).
Defined.

End HistoryMore.
